(** * IPLScraper: extraction and reconciliation engine (paste.py)

    A shallow embedding of the [IPLScraper] class of [paste.py]: the
    scraper's [match_data] dictionary is a record of finite maps, the
    parsed document is a record of the node queries the extractors issue,
    and every method that mutates [self.match_data] is a computation in a
    small state-and-exception monad, so that a Python [try]/[except]
    keeps the writes made before the exception was raised. *)

From Stdlib Require Import ZArith QArith Ascii String DecimalString DecimalNat List Bool Lia.
From stdpp Require Import base option list gmap strings fin_maps sorting.

Local Open Scope Z_scope.
Local Open Scope stdpp_scope.

(** ** Python strings

    A [str] is modelled as a [string] of Latin-1 code points. *)

Module PyStr.

Definition code (c : ascii) : N := N_of_ascii c.

Definition between (lo hi : N) (c : ascii) : bool :=
  ((lo <=? code c) && (code c <=? hi))%N.

(** [str.isspace] on one code point below 256. *)
Definition isspace (c : ascii) : bool :=
  between 9 13 c || between 28 32 c || (code c =? 133)%N || (code c =? 160)%N.

Definition isdigit (c : ascii) : bool := between 48 57 c.

(** The regular-expression class [a-zA-Z]. *)
Definition isalpha (c : ascii) : bool := between 65 90 c || between 97 122 c.

Definition lower_char (c : ascii) : ascii :=
  if between 65 90 c || between 192 214 c || between 216 222 c
  then ascii_of_N (code c + 32) else c.

Fixpoint lower (s : string) : string :=
  match s with
  | EmptyString => EmptyString
  | String c s' => String (lower_char c) (lower s')
  end.

(** [str.upper]: the sharp s becomes two letters; the two Latin-1 letters
    whose capital lies beyond code point 255 are kept (they are never
    part of an ASCII keyword either way). *)
Definition upper_char (c : ascii) : string :=
  if (code c =? 223)%N then "SS"
  else if between 97 122 c || between 224 246 c || between 248 254 c
       then String (ascii_of_N (code c - 32)) EmptyString
       else String c EmptyString.

Fixpoint upper (s : string) : string :=
  match s with
  | EmptyString => EmptyString
  | String c s' => upper_char c +:+ upper s'
  end.

Fixpoint startswith (p s : string) : bool :=
  match p, s with
  | EmptyString, _ => true
  | String a p', String b s' => Ascii.eqb a b && startswith p' s'
  | String _ _, EmptyString => false
  end.

(** [p in s] on strings. *)
Fixpoint contains (p s : string) : bool :=
  startswith p s ||
  match s with
  | EmptyString => false
  | String _ s' => contains p s'
  end.

Fixpoint lstrip_while (f : ascii -> bool) (s : string) : string :=
  match s with
  | EmptyString => EmptyString
  | String c s' => if f c then lstrip_while f s' else s
  end.

Fixpoint rstrip_while (f : ascii -> bool) (s : string) : string :=
  match s with
  | EmptyString => EmptyString
  | String c s' =>
      match rstrip_while f s' with
      | EmptyString => if f c then EmptyString else String c EmptyString
      | r => String c r
      end
  end.

Definition lstrip (s : string) : string := lstrip_while isspace s.
Definition strip (s : string) : string := rstrip_while isspace (lstrip_while isspace s).

(** [s.split(sep)] for a one-character separator: never an empty list. *)
Fixpoint split_on (sep : ascii) (s : string) : list string :=
  match s with
  | EmptyString => [EmptyString]
  | String c s' =>
      if Ascii.eqb c sep then EmptyString :: split_on sep s'
      else match split_on sep s' with
           | w :: ws => String c w :: ws
           | [] => [String c EmptyString]
           end
  end.

(** [s.split()]: the maximal runs of non-whitespace characters.  The
    flag tells whether the text starts inside the first run. *)
Fixpoint split_ws_go (s : string) : list string * bool :=
  match s with
  | EmptyString => ([], false)
  | String c s' =>
      let '(ws, inside) := split_ws_go s' in
      if isspace c then (ws, false)
      else if inside then
             match ws with
             | w :: rest => (String c w :: rest, true)
             | [] => ([String c EmptyString], true)
             end
           else (String c EmptyString :: ws, true)
  end.
Definition split_ws (s : string) : list string := fst (split_ws_go s).

(** [s.replace(c, '')] and [s.replace(c, d)] for single characters. *)
Fixpoint remove_char (c : ascii) (s : string) : string :=
  match s with
  | EmptyString => EmptyString
  | String a s' => if Ascii.eqb a c then remove_char c s' else String a (remove_char c s')
  end.

Fixpoint replace_char (c d : ascii) (s : string) : string :=
  match s with
  | EmptyString => EmptyString
  | String a s' => String (if Ascii.eqb a c then d else a) (replace_char c d s')
  end.

Definition mem_char (c : ascii) (s : string) : bool :=
  contains (String c EmptyString) s.

(** Truthiness of a string. *)
Definition nonempty (s : string) : bool :=
  match s with EmptyString => false | _ => true end.

End PyStr.

(** ** Python numbers: [int(s)] and [float(s)] *)

Module PyNum.
Import PyStr.

Definition digit_val (c : ascii) : N := (code c - 48)%N.

(** The rest of a [digitpart] once its first digit is read: digits, each
    optionally preceded by a single underscore.  Returns the value, the
    number of digits read and the unread rest. *)
Fixpoint scan_digits_go (acc : N) (n : nat) (s : string) : N * nat * string :=
  match s with
  | EmptyString => (acc, n, s)
  | String c s' =>
      if isdigit c then scan_digits_go (acc * 10 + digit_val c)%N (S n) s'
      else if Ascii.eqb c "_" then
        match s' with
        | String d s'' =>
            if isdigit d then scan_digits_go (acc * 10 + digit_val d)%N (S n) s''
            else (acc, n, s)
        | EmptyString => (acc, n, s)
        end
      else (acc, n, s)
  end.

Definition scan_digits (s : string) : N * nat * string :=
  match s with
  | String c s' => if isdigit c then scan_digits_go (digit_val c) 1 s' else (0%N, O, s)
  | EmptyString => (0%N, O, s)
  end.

Definition split_sign (s : string) : bool * string :=
  match s with
  | String c r =>
      if Ascii.eqb c "-" then (true, r)
      else if Ascii.eqb c "+" then (false, r) else (false, s)
  | EmptyString => (false, s)
  end.

(** The blanks [int] and [float] skip around a literal.  The conversion
    first turns every code point above 126 that is Unicode white space
    into a blank, then skips the white space of the C locale: the
    separators 28 to 31, which [str.strip] removes, are not skipped. *)
Definition isspace_num (c : ascii) : bool :=
  between 9 13 c || (code c =? 32)%N || (code c =? 133)%N || (code c =? 160)%N.

Definition strip_num (s : string) : string :=
  rstrip_while isspace_num (lstrip_while isspace_num s).

(** [sys.int_max_str_digits]: the longest digit string [int] converts. *)
Definition max_str_digits : N := 4300.

(** [int(s)] in base ten; [None] is [ValueError]. *)
Definition py_int (s : string) : option Z :=
  let '(neg, body) := split_sign (strip_num s) in
  match scan_digits body with
  | (v, S n, EmptyString) =>
      if (N.of_nat (S n) <=? max_str_digits)%N
      then Some (if neg then - Z.of_N v else Z.of_N v)
      else None
  | _ => None
  end.

(** The result of [float(s)]: a finite decimal [mant * 10 ^ exp10] (the
    decimal the literal denotes, before binary rounding), an infinity or
    a NaN. *)
Inductive PyFloat :=
| FNum (neg : bool) (mant : N) (exp10 : Z)
| FInf (neg : bool)
| FNan.

(** [float(s)]; [None] is [ValueError]. *)
Definition py_float (s : string) : option PyFloat :=
  let '(neg, body) := split_sign (strip_num s) in
  let lb := lower body in
  if String.eqb lb "inf" || String.eqb lb "infinity" then Some (FInf neg)
  else if String.eqb lb "nan" then Some FNan
  else
    let '(ip, ni, r1) := scan_digits body in
    let '(fp, nf, r2) :=
      match r1 with
      | String c r => if Ascii.eqb c "." then scan_digits r else (0%N, O, r1)
      | EmptyString => (0%N, O, r1)
      end in
    match (ni + nf)%nat with
    | O => None
    | S _ =>
        let mant := (ip * 10 ^ N.of_nat nf + fp)%N in
        match r2 with
        | EmptyString => Some (FNum neg mant (- Z.of_nat nf))
        | String e r3 =>
            if Ascii.eqb e "e" || Ascii.eqb e "E" then
              let '(eneg, r4) := split_sign r3 in
              match scan_digits r4 with
              | (ev, S _, EmptyString) =>
                  Some (FNum neg mant
                          ((if eneg then - Z.of_N ev else Z.of_N ev) - Z.of_nat nf))
              | _ => None
              end
            else None
        end
    end.

(** [x >= 20.0] for [x = float(s)].  The conversion rounds the decimal to
    the nearest double, ties to even, and 20.0 is a double with an even
    significand whose predecessor is [20 - 2^-48]: the rounded value is at
    least 20.0 exactly when the decimal is at least [20 - 2^-49]. *)
Definition float_ge_20 (x : PyFloat) : bool :=
  match x with
  | FNum true _ _ => false
  | FNum false m e =>
      if (0 <=? e)
      then (20 * 2 ^ 49 - 1 <=? Z.of_N m * 10 ^ e * 2 ^ 49)
      else ((20 * 2 ^ 49 - 1) * 10 ^ (- e) <=? Z.of_N m * 2 ^ 49)
  | FInf neg => negb neg
  | FNan => false
  end.

(** The decimal a finite float literal denotes, as a rational. *)
Definition decimal_value (x : PyFloat) : option Q :=
  match x with
  | FNum neg m e =>
      let a := if neg then - Z.of_N m else Z.of_N m in
      Some (if (0 <=? e) then inject_Z (a * 10 ^ e)
            else Qmake a (Z.to_pos (10 ^ (- e))))
  | _ => None
  end.

End PyNum.

(** ** The match state: [self.match_data] *)

Record MatchInfo := mkMatchInfo {
  mi_title : string;
  mi_venue : string;
  mi_date : string;
  mi_status : string;
  mi_result : string;
  mi_match_id : option string;
  mi_tournament_id : option string;
  mi_player_of_match : option string;   (* key absent until first extracted *)
  mi_innings_status : option string     (* key absent until first written *)
}.

(** One entry of [match_data['teams']]: created as [{'name': ...}], every
    other key is absent until [update]d. *)
Record TeamData := mkTeamData {
  t_name : string;
  t_score : option string;
  t_runs : option string;
  t_wickets : option string;
  t_overs : option string;
  t_innings_complete : option bool;
  t_won : option bool
}.

Record BattingEntry := mkBattingEntry {
  bat_name : string;
  bat_runs : string;
  bat_balls : string;
  bat_fours : string;
  bat_sixes : string;
  bat_strike_rate : string;
  bat_dismissal : string
}.

Record BowlingEntry := mkBowlingEntry {
  bowl_name : string;
  bowl_overs : string;
  bowl_maidens : string;
  bowl_runs : string;
  bowl_wickets : string;
  bowl_economy : string;
  bowl_inferred : option bool           (* only the placeholder carries it *)
}.

Inductive CommentaryEntry :=
| General (time text : string)
| Ball (over result text : string).

Record MatchData := mkMatchData {
  match_info : MatchInfo;
  teams : gmap string TeamData;
  batting_stats : gmap string (list BattingEntry);
  bowling_stats : gmap string (list BowlingEntry);
  commentary : list CommentaryEntry;
  last_updated : string
}.

Definition set_match_info (f : MatchInfo -> MatchInfo) (md : MatchData) : MatchData :=
  mkMatchData (f (match_info md)) (teams md) (batting_stats md) (bowling_stats md)
    (commentary md) (last_updated md).
Definition set_teams (f : gmap string TeamData -> gmap string TeamData) (md : MatchData) : MatchData :=
  mkMatchData (match_info md) (f (teams md)) (batting_stats md) (bowling_stats md)
    (commentary md) (last_updated md).
Definition set_batting_stats (f : gmap string (list BattingEntry) -> gmap string (list BattingEntry))
    (md : MatchData) : MatchData :=
  mkMatchData (match_info md) (teams md) (f (batting_stats md)) (bowling_stats md)
    (commentary md) (last_updated md).
Definition set_bowling_stats (f : gmap string (list BowlingEntry) -> gmap string (list BowlingEntry))
    (md : MatchData) : MatchData :=
  mkMatchData (match_info md) (teams md) (batting_stats md) (f (bowling_stats md))
    (commentary md) (last_updated md).
Definition set_commentary (f : list CommentaryEntry -> list CommentaryEntry) (md : MatchData) : MatchData :=
  mkMatchData (match_info md) (teams md) (batting_stats md) (bowling_stats md)
    (f (commentary md)) (last_updated md).
Definition set_last_updated (v : string) (md : MatchData) : MatchData :=
  mkMatchData (match_info md) (teams md) (batting_stats md) (bowling_stats md)
    (commentary md) v.

(** [IPLScraper.__init__]: the freshly constructed state. *)
Definition init_match_data (match_id tournament_id : option string) : MatchData :=
  {| match_info := {| mi_title := ""; mi_venue := ""; mi_date := ""; mi_status := "";
                      mi_result := ""; mi_match_id := match_id;
                      mi_tournament_id := tournament_id;
                      mi_player_of_match := None; mi_innings_status := None |};
     teams := ∅; batting_stats := ∅; bowling_stats := ∅;
     commentary := []; last_updated := "" |}.

(** ** The parsed document

    The [BeautifulSoup] object is represented by the answers to the node
    queries the extractors issue.  A [.text] is kept raw (the code strips
    it); a [get_text(strip=True)] is kept as returned. *)

(** A tag of which the code reads [.text] and the [class] attribute. *)
Record Elem := mkElem {
  elem_text : string;
  elem_class : list string
}.

Record TeamSection := mkTeamSection {
  name_elem : option Elem;        (* select_one('.ckt_match_teamname') *)
  score_elem : option Elem        (* select_one('.team_score, .b_floatR.team_score') *)
}.

(** The first cell of a batting row. *)
Record NameCell := mkNameCell {
  nc_text : string;               (* name_cell.text *)
  nc_link : option string;        (* name_cell.select_one('a').text *)
  nc_class : list string;         (* name_cell.get('class', []) *)
  nc_strike : bool                (* name_cell.select_one('s, strike, del') is found *)
}.

(** A [tr.ckt_row_item] of a batting table.  bs4 compares tags by name,
    attributes and children, all of which [row_markup] stands for; the
    other fields are the queries made on the row. *)
Record RowTag := mkRowTag {
  row_markup : string;
  row_first_td : option NameCell; (* select_one('td:first-child') *)
  row_tds : list string           (* .text of each of select('td') *)
}.

Record BatRow := mkBatRow {
  row_tag : RowTag;
  (* row.find_next_sibling('tr'), then the .text of its
     select_one('.ckt_row_subl, .b_footnote'); None when either is missing *)
  row_next_note : option string
}.

Record BatTable := mkBatTable {
  bat_header : option string;     (* select_one('tr.ckt_row_hdr').text *)
  bat_rows : list BatRow          (* select('tr.ckt_row_item') *)
}.

(** A [tr] of a candidate bowling table. *)
Record Tr := mkTr {
  tr_markup : string;
  tr_class : list string;
  tr_text : string;                        (* .text *)
  tr_first_td : option (option string * string);
    (* select_one('td:first-child'): get_text(strip=True) of its first
       link, if any, and of the cell *)
  tr_tds : list string                     (* get_text(strip=True) of each td *)
}.

Record BowlTable := mkBowlTable {
  tbl_text : string;                       (* table.text *)
  tbl_trs : list Tr;                       (* select('tr') *)
  tbl_ancestors : list (string * string)   (* id and data-id of the parent, of its parent, ... *)
}.

Record TimeElem := mkTimeElem {
  time_bold : option string;               (* select_one('b').text *)
  time_contents : list (option string * string)   (* child.name and str(child) *)
}.

Record BallElem := mkBallElem {
  over_elem : option string;               (* select_one('.ckt_overs').text *)
  result_elem : option string              (* select_one('.ckt_ball').text *)
}.

Record CommItem := mkCommItem {
  item_time : option TimeElem;             (* select_one('.ckt_comm_time') *)
  item_ball : option BallElem;             (* select_one('.ckt_comm_ball') *)
  item_txt : option string                 (* select_one('.ckt_comm_txt').text *)
}.

Record Soup := mkSoup {
  tournament_elem : option string;         (* '.ckt_tournamentname, .ckt_match_sbtl' *)
  status_elem : option string;             (* '.ckt_match_statustxt' *)
  date_elem : option (string * bool);      (* '.ckt_live_status_text, .b_floatR': text, has a '.team_score' *)
  mom_elem : option string;                (* '.ckt_match_mom_player' *)
  venue_elem : option string;              (* '.ckt_match_venue' *)
  team_sections : list TeamSection;        (* select('.ckt_match_details, ...') *)
  scorecard_tab : option (list BatTable);  (* the scorecard tab and its batting tables *)
  doc_batting_tables : list BatTable;      (* soup.select('.ckt_batsmen, .b_scard table') *)
  select_one_region : string -> option (string -> list BowlTable);
    (* soup.select_one(sel), and region.select(sel') inside it *)
  select_tables : string -> list BowlTable;   (* soup.select(sel) *)
  all_tables : list BowlTable;             (* soup.select('table') *)
  commentary_section : option (list CommItem);
    (* select_one('#tab_2, .ckt_gamecomm') and its '.ckt_commentary_item's *)
  doc_commentary_items : list CommItem;    (* soup.select('.ckt_commentary_item') *)
  alt_commentary_items : list CommItem     (* soup.select('.ckt_comm_time, .ckt_comm_ball') *)
}.

(** ** State and exceptions

    A method body runs on the match state and either returns or raises;
    the state it leaves behind is kept in both cases. *)

Inductive exn := KeyError | ValueError | IndexError.

Inductive outcome (A : Type) :=
| Ok (a : A)
| Raise (e : exn).
Arguments Ok {A} a.
Arguments Raise {A} e.

Definition M (A : Type) : Type := MatchData -> MatchData * outcome A.

Definition ret {A} (a : A) : M A := fun md => (md, Ok a).
Definition raise {A} (e : exn) : M A := fun md => (md, Raise e).
Definition bind {A B} (m : M A) (k : A -> M B) : M B :=
  fun md => match m md with
            | (md', Ok a) => k a md'
            | (md', Raise e) => (md', Raise e)
            end.
Definition get : M MatchData := fun md => (md, Ok md).
Definition modify (f : MatchData -> MatchData) : M unit := fun md => (f md, Ok tt).

(** [try: body  except Exception as e: logging.error(...)]. *)
Definition try_except (body : M unit) : M unit :=
  fun md => (fst (body md), Ok tt).

(** [int(...)], [float(...)] and tuple unpacking raise [ValueError]. *)
Definition value_of {A} (o : option A) : M A :=
  match o with Some a => ret a | None => raise ValueError end.

(** A local computation that may raise. *)
Definition lift {A} (o : outcome A) : M A := fun md => (md, o).

(** [d[key]] raises [KeyError] on a missing key. *)
Definition value_of_key {A} (o : option A) : M A :=
  match o with Some a => ret a | None => raise KeyError end.

Declare Scope py_scope.
Delimit Scope py_scope with py.
Notation "x <- m ;; k" := (bind m (fun x => k))
  (at level 100, m at next level, right associativity) : py_scope.
Notation "m ;; k" := (bind m (fun _ => k))
  (at level 100, right associativity) : py_scope.
Local Open Scope py_scope.

Definition when (b : bool) (m : M unit) : M unit := if b then m else ret tt.

(** The state a computation leaves, and whether it returned. *)
Definition exec {A} (m : M A) (md : MatchData) : MatchData := fst (m md).
Definition returns {A} (m : M A) (md : MatchData) : Prop :=
  exists a, snd (m md) = Ok a.

Definition elem_of_strb (x : string) (l : list string) : bool :=
  existsb (String.eqb x) l.

Definition when_some {A} (o : option A) (f : A -> M unit) : M unit :=
  match o with Some a => f a | None => ret tt end.

(** [l[0]]. *)
Definition first_item {A} (l : list A) : M A :=
  match l with x :: _ => ret x | [] => raise IndexError end.

Import PyStr PyNum.

(** ** [parse_match_info] *)

Definition parse_match_info_body (soup : Soup) : M unit :=
    when_some (tournament_elem soup) (fun text =>
      modify (set_match_info (fun mi =>
        {| mi_title := strip text; mi_venue := mi_venue mi; mi_date := mi_date mi;
           mi_status := mi_status mi; mi_result := mi_result mi;
           mi_match_id := mi_match_id mi; mi_tournament_id := mi_tournament_id mi;
           mi_player_of_match := mi_player_of_match mi;
           mi_innings_status := mi_innings_status mi |}))) ;;
    when_some (status_elem soup) (fun text =>
      modify (set_match_info (fun mi =>
        {| mi_title := mi_title mi; mi_venue := mi_venue mi; mi_date := mi_date mi;
           mi_status := strip text; mi_result := mi_result mi;
           mi_match_id := mi_match_id mi; mi_tournament_id := mi_tournament_id mi;
           mi_player_of_match := mi_player_of_match mi;
           mi_innings_status := mi_innings_status mi |}))) ;;
    when_some (date_elem soup) (fun '(text, has_team_score) =>
      when (negb has_team_score) (
        modify (set_match_info (fun mi =>
          {| mi_title := mi_title mi; mi_venue := mi_venue mi; mi_date := strip text;
             mi_status := mi_status mi; mi_result := mi_result mi;
             mi_match_id := mi_match_id mi; mi_tournament_id := mi_tournament_id mi;
             mi_player_of_match := mi_player_of_match mi;
             mi_innings_status := mi_innings_status mi |})))) ;;
    when_some (mom_elem soup) (fun text =>
      modify (set_match_info (fun mi =>
        {| mi_title := mi_title mi; mi_venue := mi_venue mi; mi_date := mi_date mi;
           mi_status := mi_status mi; mi_result := mi_result mi;
           mi_match_id := mi_match_id mi; mi_tournament_id := mi_tournament_id mi;
           mi_player_of_match := Some (strip text);
           mi_innings_status := mi_innings_status mi |}))) ;;
    when_some (venue_elem soup) (fun text =>
      modify (set_match_info (fun mi =>
        {| mi_title := mi_title mi; mi_venue := strip text; mi_date := mi_date mi;
           mi_status := mi_status mi; mi_result := mi_result mi;
           mi_match_id := mi_match_id mi; mi_tournament_id := mi_tournament_id mi;
           mi_player_of_match := mi_player_of_match mi;
           mi_innings_status := mi_innings_status mi |}))).

Definition parse_match_info (soup : Soup) : M unit :=
  try_except (parse_match_info_body soup).

(** ** [parse_teams_and_scores] *)

(** [f'team{i+1}']. *)
Definition team_key (i : nat) : string :=
  "team" +:+ DecimalString.NilEmpty.string_of_uint (Nat.to_uint (S i)).

(** [self.match_data['teams'][key]...]: subscripting a missing key raises. *)
Definition update_team (key : string) (f : TeamData -> TeamData) : M unit :=
  fun md => match teams md !! key with
            | Some t => (set_teams (insert key (f t)) md, Ok tt)
            | None => (md, Raise KeyError)
            end.

Definition yet_to_bat (score_text : string) : bool :=
  contains "yet to bat" (lower score_text).

Definition set_won (t : TeamData) : TeamData :=
  {| t_name := t_name t; t_score := t_score t; t_runs := t_runs t;
     t_wickets := t_wickets t; t_overs := t_overs t;
     t_innings_complete := t_innings_complete t; t_won := Some true |}.

(** [{'name': team_name}]. *)
Definition new_team (team_name : string) : TeamData :=
  {| t_name := team_name; t_score := None; t_runs := None; t_wickets := None;
     t_overs := None; t_innings_complete := None; t_won := None |}.

(** [.update({'score': 'Yet to bat', 'runs': 'Yet to bat', 'wickets': '0',
    'overs': ''})]. *)
Definition set_yet_to_bat (t : TeamData) : TeamData :=
  {| t_name := t_name t; t_score := Some "Yet to bat"; t_runs := Some "Yet to bat";
     t_wickets := Some "0"; t_overs := Some "";
     t_innings_complete := t_innings_complete t; t_won := t_won t |}.

(** [.update({'score': score, 'runs': runs, 'wickets': wickets, 'overs':
    overs, 'innings_complete': innings_complete})]. *)
Definition set_score (fields : string * string * string * string * bool) (t : TeamData)
    : TeamData :=
  let '(score, runs, wickets, overs, innings_complete) := fields in
  {| t_name := t_name t; t_score := Some score; t_runs := Some runs;
     t_wickets := Some wickets; t_overs := Some overs;
     t_innings_complete := Some innings_complete; t_won := t_won t |}.

(** The local values computed from a score text that is not "yet to bat":
    [score], [runs], [wickets], [overs] and [innings_complete]. *)
Definition score_fields (score_text : string)
    : outcome (string * string * string * string * bool) :=
  let score_parts := split_on "(" score_text in
  let score := strip (hd "" score_parts) in
  let overs := match score_parts with
               | _ :: p :: _ => strip (remove_char ")" p)
               | _ => ""
               end in
  match (if mem_char "/" score then
           match split_on "/" score with
           | [r; w] => Ok (r, w)
           | _ => Raise ValueError                    (* unpacking *)
           end
         else Ok (score, "0")) with
  | Raise e => Raise e
  | Ok (runs, wickets) =>
      match (if nonempty overs then
               if contains "20" overs then Ok true
               else match split_ws overs with
                    | [] => Raise IndexError
                    | tok :: _ =>
                        match py_float tok with
                        | None => Raise ValueError
                        | Some x => Ok (float_ge_20 x)
                        end
                    end
             else Ok false) with
      | Raise e => Raise e
      | Ok by_overs =>
          let innings_complete :=
            if String.eqb wickets "10" then true else by_overs in
          Ok (score, runs, wickets, overs, innings_complete)
      end
  end.

Definition has_won_class (e : option Elem) : bool :=
  match e with
  | Some e => elem_of_strb "ckt_won" (elem_class e)
  | None => false
  end.

(** The body of the [for i, section in enumerate(team_sections[:2])] loop. *)
Definition team_section_body (i : nat) (section : TeamSection) : M unit :=
  let team_key := team_key i in
  when_some (name_elem section) (fun e =>
    modify (set_teams (insert team_key (new_team (strip (elem_text e)))))) ;;
  go_on <- match score_elem section with
           | None => ret true
           | Some e =>
               let score_text := strip (elem_text e) in
               if yet_to_bat score_text then
                 update_team team_key set_yet_to_bat ;;
                 ret false                                       (* continue *)
               else
                 fields <- lift (score_fields score_text) ;;
                 update_team team_key (set_score fields) ;;
                 ret true
           end ;;
  when go_on (
    when (has_won_class (name_elem section)) (update_team team_key set_won) ;;
    when (has_won_class (score_elem section)) (update_team team_key set_won)).

Fixpoint team_sections_loop (i : nat) (sections : list TeamSection) : M unit :=
  match sections with
  | [] => ret tt
  | section :: rest => team_section_body i section ;; team_sections_loop (S i) rest
  end.

Definition parse_teams_and_scores_body (soup : Soup) : M unit :=
  team_sections_loop 0 (take 2 (team_sections soup)).

Definition parse_teams_and_scores (soup : Soup) : M unit :=
  try_except (parse_teams_and_scores_body soup).

(** ** [parse_batting_stats] *)

(** The dictionaries collected in [all_batsmen]. *)
Record Batsman := mkBatsman {
  b_name : string;
  b_runs : string;
  b_balls : string;
  b_fours : string;
  b_sixes : string;
  b_strike_rate : string;
  b_dismissal : string;
  b_is_out : bool;
  b_row : RowTag
}.

Global Instance NameCell_eq_dec : EqDecision NameCell.
Proof. solve_decision. Defined.
Global Instance RowTag_eq_dec : EqDecision RowTag.
Proof. solve_decision. Defined.
Global Instance Batsman_eq_dec : EqDecision Batsman.
Proof. solve_decision. Defined.

(** One [tr.ckt_row_item]: [None] when the row is skipped. *)
Definition batsman_of_row (row : BatRow) : option Batsman :=
  match row_first_td (row_tag row) with
  | None => None
  | Some name_cell =>
      let player_name :=
        match nc_link name_cell with
        | Some t => strip t
        | None => strip (nc_text name_cell)
        end in
      if contains "total" (lower player_name) || contains "extras" (lower player_name)
      then None
      else
        match row_tds (row_tag row) with
        | _ :: runs :: balls :: fours :: sixes :: strike_rate :: _ =>
            (* 1. dismissal text in the footnote of the next row *)
            let d1 :=
              match row_next_note row with
              | Some t =>
                  let dismissal_text := strip t in
                  if nonempty dismissal_text
                     && negb (contains "not out" (lower dismissal_text))
                  then (dismissal_text, true) else ("not out", false)
              | None => ("not out", false)
              end in
            (* 2. formatting of the name cell *)
            let d2 :=
              if elem_of_strb "bold" (nc_class name_cell)
                 || elem_of_strb "ckt_dis" (nc_class name_cell)
              then (if String.eqb (fst d1) "not out" then "out" else fst d1, true)
              else d1 in
            (* 3. strikethrough *)
            let d3 :=
              if nc_strike name_cell
              then (if String.eqb (fst d2) "not out" then "out" else fst d2, true)
              else d2 in
            Some {| b_name := player_name; b_runs := strip runs; b_balls := strip balls;
                    b_fours := strip fours; b_sixes := strip sixes;
                    b_strike_rate := strip strike_rate;
                    b_dismissal := fst d3; b_is_out := snd d3; b_row := row_tag row |}
        | _ => None
        end
  end.

Definition collect_batsmen (batsman_rows : list BatRow) : list Batsman :=
  omap batsman_of_row batsman_rows.

(** [batsman_rows.index(row) if row in batsman_rows else 999]. *)
Fixpoint row_index (row : RowTag) (batsman_rows : list BatRow) (i : nat) : nat :=
  match batsman_rows with
  | [] => 999
  | r :: rest => if decide (row_tag r = row) then i else row_index row rest (S i)
  end.

(** Stable sorts, as [list.sort] and [sorted] are: ascending on a key, and
    descending on a key with [reverse=True] (equal keys keep their order). *)
Fixpoint insert_asc {A} (key : A -> Z) (x : A) (l : list A) : list A :=
  match l with
  | [] => [x]
  | y :: ys => if (key x <=? key y) then x :: l else y :: insert_asc key x ys
  end.
Definition sort_asc {A} (key : A -> Z) (l : list A) : list A :=
  foldr (insert_asc key) [] l.

Fixpoint insert_desc {A} (key : A -> Z) (x : A) (l : list A) : list A :=
  match l with
  | [] => [x]
  | y :: ys => if (key y <=? key x) then x :: l else y :: insert_desc key x ys
  end.
Definition sort_desc {A} (key : A -> Z) (l : list A) : list A :=
  foldr (insert_desc key) [] l.

Definition mark_as_out (b : Batsman) : Batsman :=
  {| b_name := b_name b; b_runs := b_runs b; b_balls := b_balls b;
     b_fours := b_fours b; b_sixes := b_sixes b; b_strike_rate := b_strike_rate b;
     b_dismissal := "out"; b_is_out := true; b_row := b_row b |}.

(** The [for batsman in all_batsmen] loop that marks batsmen as out.  The
    members of [current_batsmen] are skipped, hence never mutated, so the
    list can be passed by value. *)
Fixpoint mark_loop (current_batsmen : list Batsman) (wickets_down out_batsmen : Z)
    (all_batsmen : list Batsman) : list Batsman :=
  match all_batsmen with
  | [] => []
  | batsman :: rest =>
      if b_is_out batsman || bool_decide (batsman ∈ current_batsmen)
      then batsman :: mark_loop current_batsmen wickets_down out_batsmen rest
      else
        let out_batsmen := out_batsmen + 1 in
        if (wickets_down <=? out_batsmen)
        then mark_as_out batsman :: rest                              (* break *)
        else mark_as_out batsman :: mark_loop current_batsmen wickets_down out_batsmen rest
  end.

Definition count_out (l : list Batsman) : Z :=
  Z.of_nat (length (filter (fun b => b_is_out b = true) l)).

(** [all_batsmen.sort(key=...)]: by the position of the row in the table. *)
Definition in_batting_order (batsman_rows : list BatRow) (all_batsmen : list Batsman)
    : list Batsman :=
  sort_asc (fun b => Z.of_nat (row_index (b_row b) batsman_rows 0)) all_batsmen.

(** [sorted(all_batsmen, key=lambda b: int(b['runs']), reverse=True)[:2]];
    [None] is the [ValueError] of [int]. *)
Definition highest_scorers (all_batsmen : list Batsman) : option (list Batsman) :=
  keyed ← mapM (fun b => (fun k => (k, b)) <$> py_int (b_runs b)) all_batsmen;
  Some (take 2 (snd <$> sort_desc fst keyed)).

(** The cross-check with the wickets count; [None] is the [ValueError]. *)
Definition cross_check (batsman_rows : list BatRow) (all_batsmen : list Batsman)
    (wickets_down : Z) : option (list Batsman) :=
  let out_batsmen := count_out all_batsmen in
  if (out_batsmen <? wickets_down) then
    let all_batsmen := in_batting_order batsman_rows all_batsmen in
    current_batsmen ← highest_scorers all_batsmen;
    Some (mark_loop current_batsmen wickets_down out_batsmen all_batsmen)
  else Some all_batsmen.

Definition batting_entry (b : Batsman) : BattingEntry :=
  {| bat_name := b_name b; bat_runs := b_runs b; bat_balls := b_balls b;
     bat_fours := b_fours b; bat_sixes := b_sixes b;
     bat_strike_rate := b_strike_rate b;
     bat_dismissal := if b_is_out b then b_dismissal b else "not out" |}.

(** [self.match_data['batting_stats'][key].append(entry)]. *)
Definition append_batting (key : string) (entry : BattingEntry) : M unit :=
  fun md => match batting_stats md !! key with
            | Some l => (set_batting_stats (insert key (l ++ [entry])) md, Ok tt)
            | None => (md, Raise KeyError)
            end.

Fixpoint append_batting_loop (key : string) (l : list Batsman) : M unit :=
  match l with
  | [] => ret tt
  | b :: rest => append_batting key (batting_entry b) ;; append_batting_loop key rest
  end.

Definition set_innings_status (v : string) (mi : MatchInfo) : MatchInfo :=
  {| mi_title := mi_title mi; mi_venue := mi_venue mi; mi_date := mi_date mi;
     mi_status := mi_status mi; mi_result := mi_result mi;
     mi_match_id := mi_match_id mi; mi_tournament_id := mi_tournament_id mi;
     mi_player_of_match := mi_player_of_match mi;
     mi_innings_status := Some v |}.

(** [team_data.get(field, dflt)] where [team_data] is the team's dictionary
    or [{}]. *)
Definition team_get (md : MatchData) (key : string) (field : TeamData -> option string)
    (dflt : string) : string :=
  match teams md !! key with
  | Some t => default dflt (field t)
  | None => dflt
  end.

(** The body of the [for table in batting_tables] loop; returns the new
    [batting_count]. *)
Definition batting_table_body (batting_first_team batting_second_team : string)
    (batting_count : nat) (table : BatTable) : M nat :=
  if negb (match bat_header table with
           | Some text => contains "BATTERS" text
           | None => false
           end)
  then ret batting_count                                             (* continue *)
  else
    let team_key := match batting_count with
                    | O => batting_first_team
                    | _ => batting_second_team
                    end in
    md <- get ;;
    let score_text := team_get md team_key t_score "" in
    if yet_to_bat score_text then ret batting_count                  (* continue *)
    else
      modify (set_batting_stats (insert team_key [])) ;;
      let batsman_rows := bat_rows table in
      let all_batsmen := collect_batsmen batsman_rows in
      wickets_down <- value_of (py_int (team_get md team_key t_wickets "0")) ;;
      all_batsmen <- value_of (cross_check batsman_rows all_batsmen wickets_down) ;;
      append_batting_loop team_key all_batsmen ;;
      md' <- get ;;
      l <- value_of_key (batting_stats md' !! team_key) ;;
      let batting_count := match l with
                           | [] => batting_count
                           | _ => S batting_count
                           end in
      let overs := team_get md team_key t_overs "" in
      when (nonempty overs && contains "20" overs)
        (modify (set_match_info (set_innings_status (team_key +:+ "_complete")))) ;;
      ret batting_count.

Fixpoint batting_tables_loop (batting_first_team batting_second_team : string)
    (batting_count : nat) (tables : list BatTable) : M unit :=
  match tables with
  | [] => ret tt
  | table :: rest =>
      batting_count <- batting_table_body batting_first_team batting_second_team
                         batting_count table ;;
      batting_tables_loop batting_first_team batting_second_team batting_count rest
  end.

Definition batting_tables (soup : Soup) : list BatTable :=
  match scorecard_tab soup with
  | Some (t :: ts) => t :: ts
  | _ => doc_batting_tables soup
  end.

Definition parse_batting_stats_body (soup : Soup) : M unit :=
    modify (set_batting_stats (fun _ => ∅)) ;;
    let batting_tables := batting_tables soup in
    md <- get ;;
    let match_status := lower (mi_status (match_info md)) in
    let team2_name := lower (match teams md !! "team2" with
                             | Some t => t_name t | None => "" end) in
    let team2_first :=
      nonempty team2_name && contains team2_name match_status
      && contains "elected to field" match_status in
    let batting_first_team := if team2_first then "team2" else "team1" in
    let batting_second_team := if team2_first then "team1" else "team2" in
    batting_tables_loop batting_first_team batting_second_team 0 batting_tables.

Definition parse_batting_stats (soup : Soup) : M unit :=
  try_except (parse_batting_stats_body soup).

(** ** [parse_bowling_stats] *)

(** [try: body  except Exception: handler]. *)
Definition try_catch {A} (body : M A) (handler : M A) : M A :=
  fun md => match body md with
            | (md', Ok a) => (md', Ok a)
            | (md', Raise _) => handler md'
            end.

(** The double-quote character of the attribute selectors. *)
Definition dq : string := String "034"%char EmptyString.

Definition possible_selectors : list string :=
  [ ".ckt_table_card .ckt_bowlers table";
    ".ckt_bowlers table";
    ".ckt_bowlers .b_scard table";
    ".ckt_bowlers .b_scard.b_scardf table";
    ".ckt_bowlers, .b_scard table";
    "table:contains(" +:+ dq +:+ "BOWLERS" +:+ dq +:+ ")";
    "table:contains(" +:+ dq +:+ "O" +:+ dq +:+ ") table:contains(" +:+ dq +:+ "MO"
      +:+ dq +:+ ") table:contains(" +:+ dq +:+ "RUNS" +:+ dq +:+ ")";
    "table:contains(" +:+ dq +:+ "O" +:+ dq +:+ ") table:contains(" +:+ dq +:+ "MO"
      +:+ dq +:+ ") table:contains(" +:+ dq +:+ "WKTS" +:+ dq +:+ ")" ].

(** The tables one tab contributes: the tab is looked up by [data-id], then
    by [id], and every selector's matches are appended. *)
Definition tab_bowling_tables (soup : Soup) (tab_id : string) : list BowlTable :=
  let tab_content :=
    match select_one_region soup ("div[data-id=" +:+ dq +:+ tab_id +:+ dq +:+ "]") with
    | Some region => Some region
    | None => select_one_region soup ("#" +:+ tab_id)
    end in
  match tab_content with
  | Some region => concat (region <$> possible_selectors)
  | None => []
  end.

Definition find_bowling_tables (soup : Soup) : list BowlTable :=
  let in_tabs := concat (tab_bowling_tables soup <$> ["ckt_fltr_0"; "ckt_fltr_1"; "tab_1"]) in
  match in_tabs with
  | _ :: _ => in_tabs
  | [] =>
      let in_doc := concat (select_tables soup <$> possible_selectors) in
      match in_doc with
      | _ :: _ => in_doc
      | [] =>
          filter (fun table =>
                    let table_text := lower (tbl_text table) in
                    existsb (fun term => contains term table_text)
                      ["bowl"; "overs"; "maidens"; "economy"] = true)
                 (all_tables soup)
      end
  end.

Definition team_score_lower (md : MatchData) (key : string) : string :=
  lower (team_get md key t_score "").

Definition any_team_won (md : MatchData) : bool :=
  existsb (fun kt => match t_won (snd kt) with Some true => true | _ => false end)
          (map_to_list (teams md)).

Definition team_innings_complete (md : MatchData) (key : string) : bool :=
  match teams md !! key with
  | Some t => default false (t_innings_complete t)
  | None => false
  end.

(** The local [match_completed]. *)
Definition match_completed (md : MatchData) : bool :=
  let match_status := lower (mi_status (match_info md)) in
  contains "won by" match_status || contains "match tied" match_status
  || contains "won the match" match_status || contains "match over" match_status
  || any_team_won md.

(** Which team is currently bowling; [None] processes both teams. *)
Definition resolve_current_bowling_team (md : MatchData) : option string :=
  if contains "yet to bat" (team_score_lower md "team2") then Some "team2"
  else if contains "yet to bat" (team_score_lower md "team1") then Some "team1"
  else
    if match_completed md then None
    else
      let team1_innings_complete := team_innings_complete md "team1" in
      let team2_innings_complete := team_innings_complete md "team2" in
      if team1_innings_complete && negb team2_innings_complete then Some "team1"
      else if team2_innings_complete && negb team1_innings_complete then Some "team2"
      else None.

Global Instance Tr_eq_dec : EqDecision Tr.
Proof. solve_decision. Defined.

Definition has_class (c : string) (row : Tr) : bool := elem_of_strb c (tr_class row).

(** [table.select_one('tr.ckt_row_hdr')]. *)
Definition select_header_row (table : BowlTable) : option Tr :=
  List.find (has_class "ckt_row_hdr") (tbl_trs table).

(** The header row the table is recognised by; [None] when the table is not
    a bowling table.  The inner [option] is the local [header_row]. *)
Definition bowling_header (table : BowlTable) : option (option Tr) :=
  let header_row := select_header_row table in
  let is_bowling_table :=
    match header_row with
    | Some hr =>
        let header_texts := upper <$> tr_tds hr in
        if (6 <=? length header_texts)%nat then
          contains "BOWLERS" (hd "" header_texts)
          || (existsb (fun o => elem_of_strb o header_texts) ["O"; "OVERS"; "OV"]
              && existsb (fun w => elem_of_strb w header_texts) ["W"; "WKTS"; "WICKETS"]
              && existsb (fun r => elem_of_strb r header_texts) ["R"; "RUNS"; "RNS"])
        else false
    | None => false
    end in
  if is_bowling_table then Some header_row
  else
    match tbl_trs table with
    | first_row :: _ =>
        let first_row_text := strip (tr_text first_row) in
        if existsb (fun kw => contains kw (upper first_row_text))
             ["BOWLERS"; "BOWLING"; "OVERS"; "ECON"]
        then Some (Some first_row)
        else None
    | [] => None
    end.

(** Climbing up to five ancestors for a tab container. *)
Definition find_tab_parent (table : BowlTable) : option string :=
  match List.find (fun a => elem_of_strb (fst a) ["tab_1"; "tab_2"]
                            || elem_of_strb (snd a) ["ckt_fltr_0"; "ckt_fltr_1"])
                  (take 5 (tbl_ancestors table)) with
  | Some (parent_id, parent_data_id) =>
      Some (if nonempty parent_id then parent_id else parent_data_id)
  | None => None
  end.

Definition assigned_bowling_team (table : BowlTable) (bowling_count : nat) : string :=
  match find_tab_parent table with
  | Some tab_parent =>
      if elem_of_strb tab_parent ["tab_1"; "ckt_fltr_0"] then "team2" else "team1"
  | None => match bowling_count with O => "team2" | _ => "team1" end
  end.

(** [l.remove(x)]: drops the first element equal to [x]. *)
Fixpoint remove_first (x : Tr) (l : list Tr) : list Tr :=
  match l with
  | [] => []
  | y :: ys => if decide (y = x) then ys else y :: remove_first x ys
  end.

Definition select_bowler_rows (table : BowlTable) (header_row : option Tr) : list Tr :=
  match filter (fun r => has_class "ckt_row_item" r = true) (tbl_trs table) with
  | (_ :: _) as items => items
  | [] =>
      match header_row with
      | Some hr => remove_first hr (tbl_trs table)
      | None => tbl_trs table
      end
  end.

Definition clean_player_name (raw : string) : string :=
  let player_name := replace_char "160"%char " "%char raw in
  let player_name :=
    if mem_char "("%char player_name && negb (mem_char ")"%char player_name)
    then player_name +:+ ")" else player_name in
  let player_name := lstrip_while (fun c => negb (isalpha c)) player_name in
  rstrip_while (fun c => negb (isalpha c) && negb (Ascii.eqb c ")"%char)) player_name.

(** One bowler row: [None] when the row yields no bowler. *)
Definition bowler_of_row (row : Tr) : option BowlingEntry :=
  match tr_first_td row with
  | None => None
  | Some (player_link, cell_text) =>
      let player_name := clean_player_name (default cell_text player_link) in
      if contains "total" (lower player_name) || contains "extras" (lower player_name)
      then None
      else
        match tr_tds row with
        | _ :: overs :: maidens :: runs :: wickets :: economy :: _ =>
            Some {| bowl_name := player_name; bowl_overs := overs;
                    bowl_maidens := maidens; bowl_runs := runs;
                    bowl_wickets := wickets; bowl_economy := economy;
                    bowl_inferred := None |}
        | _ => None
        end
  end.

(** [{b['name']: i for i, b in enumerate(bowlers)}.get(name)]: the last
    index holding the name. *)
Fixpoint existing_index (name : string) (bowlers : list BowlingEntry) (i : nat)
    (found : option nat) : option nat :=
  match bowlers with
  | [] => found
  | b :: rest =>
      existing_index name rest (S i)
        (if String.eqb (bowl_name b) name then Some i else found)
  end.

(** The list update of [_add_bowler_if_not_exists]. *)
Definition add_bowler (bowler_data : BowlingEntry) (bowlers : list BowlingEntry)
    : list BowlingEntry :=
  match existing_index (bowl_name bowler_data) bowlers 0 None with
  | Some i => <[i := bowler_data]> bowlers
  | None => bowlers ++ [bowler_data]
  end.

Definition _add_bowler_if_not_exists (team_key : string) (bowler_data : BowlingEntry)
    : M unit :=
  md <- get ;;
  bowlers <- value_of_key (bowling_stats md !! team_key) ;;
  modify (set_bowling_stats (insert team_key (add_bowler bowler_data bowlers))).

Fixpoint bowler_rows_loop (bowling_team : string) (rows : list Tr) : M unit :=
  match rows with
  | [] => ret tt
  | row :: rest =>
      try_catch
        (when_some (bowler_of_row row) (_add_bowler_if_not_exists bowling_team))
        (ret tt) ;;
      bowler_rows_loop bowling_team rest
  end.

(** The body of the [for i, table in enumerate(bowling_tables)] loop;
    returns the new [bowling_count]. *)
Definition bowling_table_body (current_bowling_team : option string)
    (bowling_count : nat) (table : BowlTable) : M nat :=
  try_catch
    (match bowling_header table with
     | None => ret bowling_count                                     (* continue *)
     | Some header_row =>
         let bowling_team := assigned_bowling_team table bowling_count in
         if match current_bowling_team with
            | Some c => negb (String.eqb bowling_team c)
            | None => false
            end
         then ret bowling_count                                      (* continue *)
         else
           bowler_rows_loop bowling_team (select_bowler_rows table header_row) ;;
           md <- get ;;
           l <- value_of_key (bowling_stats md !! bowling_team) ;;
           ret (match l with [] => bowling_count | _ => S bowling_count end)
     end)
    (ret bowling_count).

Fixpoint bowling_tables_loop (current_bowling_team : option string)
    (bowling_count : nat) (tables : list BowlTable) : M unit :=
  match tables with
  | [] => ret tt
  | table :: rest =>
      bowling_count <- bowling_table_body current_bowling_team bowling_count table ;;
      bowling_tables_loop current_bowling_team bowling_count rest
  end.

Definition placeholder_bowler (md : MatchData) (batting_key : string) : BowlingEntry :=
  {| bowl_name := "Bowling data not available";
     bowl_overs := team_get md batting_key t_overs "0.0";
     bowl_maidens := "0";
     bowl_runs := team_get md batting_key t_runs "0";
     bowl_wickets := team_get md batting_key t_wickets "0";
     bowl_economy := "0.00";
     bowl_inferred := Some true |}.

(** One half of [_infer_missing_bowling_stats]: if [batting_key] has batted
    and has batting entries, its opponent gets the placeholder. *)
Definition infer_for (batting_key bowling_key : string) : M unit :=
  md <- get ;;
  let score := team_score_lower md batting_key in
  when (nonempty score && negb (contains "yet to bat" score))
    (when (match default [] (batting_stats md !! batting_key) with
           | [] => false | _ => true end)
       (modify (set_bowling_stats
                  (insert bowling_key [placeholder_bowler md batting_key])))).

Definition _infer_missing_bowling_stats : M unit :=
  try_except (infer_for "team1" "team2" ;; infer_for "team2" "team1").

(** [any(self.match_data['bowling_stats'].values())]. *)
Definition any_bowling (md : MatchData) : bool :=
  existsb (fun kl => match snd kl with [] => false | _ => true end)
          (map_to_list (bowling_stats md)).

Definition parse_bowling_stats_body (soup : Soup) : M unit :=
    modify (set_bowling_stats (fun _ => ∅)) ;;
    modify (set_bowling_stats (insert "team1" [])) ;;
    modify (set_bowling_stats (insert "team2" [])) ;;
    let bowling_tables := find_bowling_tables soup in
    md <- get ;;
    let current_bowling_team := resolve_current_bowling_team md in
    bowling_tables_loop current_bowling_team 0 bowling_tables ;;
    md <- get ;;
    when (negb (any_bowling md)) _infer_missing_bowling_stats.

Definition parse_bowling_stats (soup : Soup) : M unit :=
  try_except (parse_bowling_stats_body soup).

(** ** [parse_commentary] *)

Definition find_commentary_items (soup : Soup) : list CommItem :=
  match default (doc_commentary_items soup) (commentary_section soup) with
  | (_ :: _) as items => items
  | [] => alt_commentary_items soup
  end.

(** One commentary item: [None] when the item has neither shape. *)
Definition commentary_entry (item : CommItem) : option CommentaryEntry :=
  match item_time item with
  | Some time_elem =>
      let time_text := match time_bold time_elem with
                       | Some t => strip t | None => "" end in
      let text :=
        foldl (fun text child =>
                 match fst child with
                 | Some "b" => text
                 | _ => text +:+ strip (snd child)
                 end) "" (time_contents time_elem) in
      Some (General time_text (lstrip text))
  | None =>
      match item_ball item with
      | Some ball_elem =>
          Some (Ball (match over_elem ball_elem with Some t => strip t | None => "" end)
                     (match result_elem ball_elem with Some t => strip t | None => "" end)
                     (match item_txt item with Some t => strip t | None => "" end))
      | None => None
      end
  end.

Fixpoint commentary_loop (items : list CommItem) : M unit :=
  match items with
  | [] => ret tt
  | item :: rest =>
      when_some (commentary_entry item) (fun entry =>
        modify (set_commentary (fun l => l ++ [entry]))) ;;
      commentary_loop rest
  end.

Definition parse_commentary_body (soup : Soup) : M unit :=
  match find_commentary_items soup with
  | [] => ret tt                                                     (* return *)
  | commentary_items =>
      modify (set_commentary (fun _ => [])) ;;
      commentary_loop (take 20 commentary_items)
  end.

Definition parse_commentary (soup : Soup) : M unit :=
  try_except (parse_commentary_body soup).

(** ** [parse_html], [validate_data] and [update] *)

(** [parse_html] on the document [BeautifulSoup] built from the markup. *)
Definition parse_html (soup : Soup) : M unit :=
  try_except (
    parse_match_info soup ;;
    parse_teams_and_scores soup ;;
    parse_batting_stats soup ;;
    parse_bowling_stats soup ;;
    parse_commentary soup
  ).

(** Step 2 of [validate_data] on one bowling list: the first occurrence of
    every name is kept when some name occurs twice. *)
Fixpoint unique_bowlers (seen : list string) (bowlers : list BowlingEntry)
    : list BowlingEntry * nat :=
  match bowlers with
  | [] => ([], O)
  | b :: rest =>
      if elem_of_strb (bowl_name b) seen
      then let '(kept, dup) := unique_bowlers seen rest in (kept, S dup)
      else let '(kept, dup) := unique_bowlers (bowl_name b :: seen) rest in
           (b :: kept, dup)
  end.

Definition dedupe_bowlers (bowlers : list BowlingEntry) : list BowlingEntry :=
  match unique_bowlers [] bowlers with
  | (_, O) => bowlers
  | (kept, S _) => kept
  end.

(** Step 3 of [validate_data] on one batting entry. *)
Definition fix_name (e : BattingEntry) : BattingEntry :=
  let name := bat_name e in
  if mem_char "("%char name && negb (mem_char ")"%char name)
  then {| bat_name := name +:+ ")"; bat_runs := bat_runs e; bat_balls := bat_balls e;
          bat_fours := bat_fours e; bat_sixes := bat_sixes e;
          bat_strike_rate := bat_strike_rate e; bat_dismissal := bat_dismissal e |}
  else e.

Definition validate_data : M unit :=
  modify (set_bowling_stats (fun stats => dedupe_bowlers <$> stats)) ;;
  modify (set_batting_stats (fun stats =>
            (fun batsmen : list BattingEntry => fix_name <$> batsmen) <$> stats)).

(** [update]: [fetched] is the outcome of [fetch_data], [None] when it
    returned [None] or an empty text; [now] is the formatted clock reading.
    The result is what the method returns, [None] for a bare [return]. *)
Definition update (now : string) (fetched : option Soup) : M (option MatchData) :=
  match fetched with
  | None => ret None
  | Some soup =>
      parse_html soup ;;
      modify (set_last_updated now) ;;
      validate_data ;;
      md <- get ;;
      ret (Some md)
  end.

(** The states a scraper can be in: constructed, then updated any number of
    times. *)
Inductive reachable : MatchData -> Prop :=
| reachable_init match_id tournament_id :
    reachable (init_match_data match_id tournament_id)
| reachable_update now fetched md :
    reachable md -> reachable (exec (update now fetched) md).

(** A run of update cycles, each with its clock reading and the outcome of
    its fetch, the first cycle first. *)
Fixpoint updates (cycles : list (string * option Soup)) (md : MatchData) : MatchData :=
  match cycles with
  | [] => md
  | (now, fetched) :: rest => updates rest (exec (update now fetched) md)
  end.

(** ** [save_match_data]: the name of the snapshot file *)

(** [re.sub(r'[^a-zA-Z0-9]', '_', name)]. *)
Definition sanitize_char (c : ascii) : ascii :=
  if isalpha c || isdigit c then c else "_"%char.

Fixpoint sanitize (name : string) : string :=
  match name with
  | EmptyString => EmptyString
  | String c rest => String (sanitize_char c) (sanitize rest)
  end.

(** [self.match_data['teams'].get(key, {}).get('name', dflt)]; a team's
    dictionary is created with its name. *)
Definition team_name_or (md : MatchData) (key dflt : string) : string :=
  match teams md !! key with
  | Some t => t_name t
  | None => dflt
  end.

Definition log_dir : string := "match_logs".

(** The [filename] of [save_match_data]; [timestamp] is the formatted clock
    reading. *)
Definition snapshot_filename (md : MatchData) (timestamp : string) : string :=
  let team1 := sanitize (team_name_or md "team1" "unknown") in
  let team2 := sanitize (team_name_or md "team2" "unknown") in
  log_dir +:+ "/" +:+ team1 +:+ "_vs_" +:+ team2 +:+ "_" +:+ timestamp +:+ ".json".

(** ** The REST layer: [app.py]

    [active_scrapers] is a dictionary from match keys to scrapers, of which
    the handlers below read the match state only; it is kept as an
    association list in insertion order, the order [items()] runs in. *)

(** [f"{match_id}_{tournament_id}"]. *)
Definition match_key (match_id tournament_id : string) : string :=
  match_id +:+ "_" +:+ tournament_id.

(** One element of the list [list_matches] returns. *)
Record MatchSummary := mkMatchSummary {
  ms_match_id : string;
  ms_tournament_id : string;
  ms_title : string;
  ms_status : string;
  ms_team1 : string;
  ms_team2 : string;
  ms_score1 : string;
  ms_score2 : string;
  ms_last_updated : string
}.

(** The body of the loop of [list_matches]; unpacking
    [match_key.split('_')] into two names raises [ValueError]. *)
Definition list_matches_entry (match_key : string) (md : MatchData) : outcome MatchSummary :=
  match split_on "_" match_key with
  | [match_id; tournament_id] =>
      Ok {| ms_match_id := match_id;
            ms_tournament_id := tournament_id;
            ms_title := mi_title (match_info md);
            ms_status := mi_status (match_info md);
            ms_team1 := team_name_or md "team1" "Unknown";
            ms_team2 := team_name_or md "team2" "Unknown";
            ms_score1 := team_get md "team1" t_score "N/A";
            ms_score2 := team_get md "team2" t_score "N/A";
            ms_last_updated := last_updated md |}
  | _ => Raise ValueError
  end.

(** [list_matches]: the handler has no [try], so the first key that does
    not unpack ends it with the exception. *)
Fixpoint list_matches (active_scrapers : list (string * MatchData))
    : outcome (list MatchSummary) :=
  match active_scrapers with
  | [] => Ok []
  | (match_key, md) :: rest =>
      match list_matches_entry match_key md with
      | Raise e => Raise e
      | Ok match_info =>
          match list_matches rest with
          | Raise e => Raise e
          | Ok result => Ok (match_info :: result)
          end
      end
  end.

(** The response of [get_scorecard], computed from the scraper's state. *)
Record Scorecard := mkScorecard {
  sc_match_info : MatchInfo;
  sc_teams : gmap string TeamData;
  sc_match_state : string;
  sc_batting_team : option string;
  sc_bowling_team : option string;
  sc_batting_stats : gmap string (list BattingEntry);
  sc_bowling_stats : gmap string (list BowlingEntry);
  sc_last_updated : string
}.

(** [teams_data.get(key, {}).get('score', '').lower() != 'yet to bat']. *)
Definition has_batted (md : MatchData) (key : string) : bool :=
  negb (String.eqb (lower (team_get md key t_score "")) "yet to bat").

(** [key in teams_data and
     teams_data[key].get('score', '').lower() != 'yet to bat']. *)
Definition listed_as_batted (md : MatchData) (key : string) : bool :=
  match teams md !! key with
  | Some t => negb (String.eqb (lower (default "" (t_score t))) "yet to bat")
  | None => false
  end.

(** ["team2" if team_key == "team1" else "team1"]. *)
Definition opposing_team (team_key : string) : string :=
  if String.eqb team_key "team1" then "team2" else "team1".

(** The completion test of [get_scorecard], written as in the handler. *)
Definition scorecard_completed (md : MatchData) : bool :=
  let match_status := lower (mi_status (match_info md)) in
  contains "won by" match_status || contains "match tied" match_status
  || contains "won the match" match_status || contains "match over" match_status
  || existsb (fun kt => match t_won (snd kt) with Some true => true | _ => false end)
             (map_to_list (teams md)).

Definition get_scorecard (md : MatchData) : Scorecard :=
  let team1_has_batted := has_batted md "team1" in
  let team2_has_batted := has_batted md "team2" in
  let '(match_state, batting_team, bowling_team) :=
    if team1_has_batted && negb team2_has_batted
    then ("first_innings", Some "team1", Some "team2")
    else if team1_has_batted && team2_has_batted
    then (if scorecard_completed md then "completed" else "second_innings",
          Some "team2", Some "team1")
    else ("in_progress", None, None) in
  {| sc_match_info := match_info md;
     sc_teams := teams md;
     sc_match_state := match_state;
     sc_batting_team := batting_team;
     sc_bowling_team := bowling_team;
     sc_batting_stats :=
       filter (fun kv => listed_as_batted md kv.1 = true) (batting_stats md);
     sc_bowling_stats :=
       filter (fun kv => listed_as_batted md (opposing_team kv.1) = true)
              (bowling_stats md);
     sc_last_updated := last_updated md |}.

(** ** Notions used to state the properties *)

(** A character of a runs, wickets or overs figure: no blank, no slash and
    no parenthesis. *)
Definition plain_char (c : ascii) : bool :=
  negb (isspace c) && negb (Ascii.eqb c "/") && negb (Ascii.eqb c "(")
  && negb (Ascii.eqb c ")").

Fixpoint nospace (s : string) : bool :=
  match s with
  | EmptyString => true
  | String c s' => negb (isspace c) && nospace s'
  end.

Fixpoint plain (s : string) : bool :=
  match s with
  | EmptyString => true
  | String c s' => plain_char c && plain s'
  end.

Fixpoint count_char (c : ascii) (s : string) : nat :=
  match s with
  | EmptyString => O
  | String a s' => ((if Ascii.eqb a c then 1 else 0) + count_char c s')%nat
  end.

(** The decimal the first token of an overs text denotes. *)
Definition overs_value (overs : string) : option Q :=
  match split_ws overs with
  | tok :: _ => x ← py_float tok; decimal_value x
  | [] => None
  end.

(** An overs text as it stands between the parentheses of a score: no
    parenthesis inside and no blank at either end. *)
Definition overs_text (overs : string) : bool :=
  negb (mem_char "(" overs) && negb (mem_char ")" overs) && String.eqb (strip overs) overs.

(** The completion test of the team extractor gets through an overs text:
    the text is empty, or contains "20", or its first blank-separated token
    is a number [float] accepts. *)
Definition overs_readable (overs : string) : Prop :=
  overs = "" \/ contains "20" overs = true
  \/ exists tok rest, split_ws overs = tok :: rest /\ is_Some (py_float tok).

(** The effect of one team section on its slot [teams[team_key]], given the
    slot's previous content: the new content and whether the body returned. *)
Definition won_step (flag : bool) (r : option TeamData * outcome unit)
    : option TeamData * outcome unit :=
  match r with
  | (slot, Ok _) =>
      if flag then
        match slot with
        | Some t => (Some (set_won t), Ok tt)
        | None => (None, Raise KeyError)
        end
      else (slot, Ok tt)
  | (slot, Raise e) => (slot, Raise e)
  end.

Definition won_steps (section : TeamSection) (slot : option TeamData)
    : option TeamData * outcome unit :=
  won_step (has_won_class (score_elem section))
    (won_step (has_won_class (name_elem section)) (slot, Ok tt)).

Definition slot_step (section : TeamSection) (old : option TeamData)
    : option TeamData * outcome unit :=
  let named := match name_elem section with
               | Some e => Some (new_team (strip (elem_text e)))
               | None => old
               end in
  match score_elem section with
  | None => won_steps section named
  | Some e =>
      let score_text := strip (elem_text e) in
      if yet_to_bat score_text then
        match named with
        | Some t => (Some (set_yet_to_bat t), Ok tt)
        | None => (None, Raise KeyError)
        end
      else
        match score_fields score_text with
        | Raise ex => (named, Raise ex)
        | Ok fields =>
            match named with
            | Some t => won_steps section (Some (set_score fields t))
            | None => (None, Raise KeyError)
            end
        end
  end.

Definition put_slot (key : string) (slot : option TeamData) (md : MatchData) : MatchData :=
  match slot with
  | Some t => set_teams (insert key t) md
  | None => md
  end.

(** A batsman the inference may mark: not out so far and not equal to one of
    the current batsmen. *)
Definition eligible (current_batsmen : list Batsman) (b : Batsman) : bool :=
  negb (b_is_out b) && negb (bool_decide (b ∈ current_batsmen)).

(** The inference as the specification words it: in list order, the first
    [n] eligible batsmen are marked out with the generic label. *)
Fixpoint mark_first (current_batsmen : list Batsman) (n : nat) (l : list Batsman)
    : list Batsman :=
  match n, l with
  | O, _ => l
  | S _, [] => []
  | S n', b :: rest =>
      if eligible current_batsmen b
      then mark_as_out b :: mark_first current_batsmen n' rest
      else b :: mark_first current_batsmen n rest
  end.

Definition int_runs (b : Batsman) : Z := default 0 (py_int (b_runs b)).

(** How many batsmen are flagged out, and how many may still be marked. *)
Definition outs (l : list Batsman) : nat := length (filter (fun b => b_is_out b = true) l).

Definition eligibles (current_batsmen : list Batsman) (l : list Batsman) : nat :=
  length (filter (fun b => eligible current_batsmen b = true) l).

(** A batsman flagged out never carries the label of one who is not. *)
Definition labelled (b : Batsman) : Prop :=
  b_is_out b = true -> b_dismissal b <> "not out".

(** The header test of the batting table loop. *)
Definition is_batting_table (table : BatTable) : bool :=
  match bat_header table with
  | Some text => contains "BATTERS" text
  | None => false
  end.

(** The entries of a batting list that are flagged out. *)
Definition out_entries (l : list BattingEntry) : list BattingEntry :=
  filter (fun e => bat_dismissal e <> "not out") l.

(** A run of parses applied to a bowling list, one upsert after the other. *)
Definition add_bowlers (l : list BowlingEntry) (parses : list BowlingEntry)
    : list BowlingEntry :=
  foldl (fun acc p => add_bowler p acc) l parses.

Definition skips_table (current_bowling_team : option string) (bowling_team : string) : bool :=
  match current_bowling_team with
  | Some c => negb (String.eqb bowling_team c)
  | None => false
  end.

(** Both bowling slots exist. *)
Definition bowling_slots (md : MatchData) : Prop :=
  is_Some (bowling_stats md !! "team1") /\ is_Some (bowling_stats md !! "team2").

(** A name is known in one of the bowling lists. *)
Definition has_bowler (name : string) (md : MatchData) : Prop :=
  exists key l, bowling_stats md !! key = Some l /\ name ∈ (bowl_name <$> l).

(** No bowling list holds a name twice. *)
Definition bowling_unique (md : MatchData) : Prop :=
  forall key l, bowling_stats md !! key = Some l -> NoDup (bowl_name <$> l).

(** The state in which the bowling table loop starts. *)
Definition bowling_cleared (md : MatchData) : MatchData :=
  set_bowling_stats (insert "team2" [])
    (set_bowling_stats (insert "team1" []) (set_bowling_stats (fun _ => ∅) md)).

(** The status text carries one of the completion markers. *)
Definition status_says_completed (md : MatchData) : bool :=
  let match_status := lower (mi_status (match_info md)) in
  contains "won by" match_status || contains "match tied" match_status
  || contains "won the match" match_status || contains "match over" match_status.

(** The slot a section's name element leaves. *)
Definition named_slot (section : TeamSection) (old : option TeamData) : option TeamData :=
  match name_elem section with
  | Some e => Some (new_team (strip (elem_text e)))
  | None => old
  end.

(** The slot of a team after its section's body. *)
Definition slot_after (section : TeamSection) (old : option TeamData) : option TeamData :=
  match (slot_step section old).1 with
  | Some t => Some t
  | None => old
  end.

(** The team loop gets as far as section [j]: the body of every section
    before it returns. *)
Definition earlier_sections_return (soup : Soup) (j : nat) (md : MatchData) : Prop :=
  forall k s, (k < j)%nat -> team_sections soup !! k = Some s ->
              returns (team_section_body k s) md.

(** [m] never changes the component [f] of the state, whether it returns
    or raises. *)
Definition keeps {X A} (f : MatchData -> X) (m : M A) : Prop :=
  forall md, f (exec m md) = f md.

(** The match information with its [innings_status] key left out. *)
Definition without_innings_status (mi : MatchInfo) : MatchInfo :=
  {| mi_title := mi_title mi; mi_venue := mi_venue mi; mi_date := mi_date mi;
     mi_status := mi_status mi; mi_result := mi_result mi;
     mi_match_id := mi_match_id mi; mi_tournament_id := mi_tournament_id mi;
     mi_player_of_match := mi_player_of_match mi;
     mi_innings_status := None |}.

(** The keys of a state are among the two team slots. *)
Definition team_slots_only (md : MatchData) : Prop :=
  forall key, key <> "team1" -> key <> "team2" ->
    teams md !! key = None /\ batting_stats md !! key = None
    /\ bowling_stats md !! key = None.

(** A name's opening parenthesis has a closing one. *)
Definition closed_parens (name : string) : bool :=
  negb (mem_char "(" name) || mem_char ")" name.

(** The names of the summary rows of a table. *)
Definition summary_name (name : string) : bool :=
  contains "total" (lower name) || contains "extras" (lower name).

(** The first and the last character of a string. *)
Definition head_char (s : string) : option ascii :=
  match s with
  | EmptyString => None
  | String c _ => Some c
  end.

Fixpoint last_char (s : string) : option ascii :=
  match s with
  | EmptyString => None
  | String c EmptyString => Some c
  | String _ rest => last_char rest
  end.

(** The characters [sanitize] lets through or puts in. *)
Definition word_char (c : ascii) : bool :=
  isalpha c || isdigit c || Ascii.eqb c "_".

Fixpoint all_chars (f : ascii -> bool) (s : string) : bool :=
  match s with
  | EmptyString => true
  | String c rest => f c && all_chars f rest
  end.

(** The registry [active_scrapers] that tracking the given matches builds:
    one scraper per pair of identifiers, under its match key. *)
Definition tracked_registry (tracked : list (string * string * MatchData))
    : list (string * MatchData) :=
  (fun entry => (match_key entry.1.1 entry.1.2, entry.2)) <$> tracked.

(** The element [list_matches] returns for a tracked match. *)
Definition summary_of (entry : string * string * MatchData) : MatchSummary :=
  let md := entry.2 in
  {| ms_match_id := entry.1.1;
     ms_tournament_id := entry.1.2;
     ms_title := mi_title (match_info md);
     ms_status := mi_status (match_info md);
     ms_team1 := team_name_or md "team1" "Unknown";
     ms_team2 := team_name_or md "team2" "Unknown";
     ms_score1 := team_get md "team1" t_score "N/A";
     ms_score2 := team_get md "team2" t_score "N/A";
     ms_last_updated := last_updated md |}.

(** Every entry of every bowling list has a property. *)
Definition all_bowlers (P : BowlingEntry -> Prop) (md : MatchData) : Prop :=
  forall key l e, bowling_stats md !! key = Some l -> e ∈ l -> P e.

(** Every entry of every batting list has a property. *)
Definition all_batters (P : BattingEntry -> Prop) (md : MatchData) : Prop :=
  forall key l e, batting_stats md !! key = Some l -> e ∈ l -> P e.

(** A bowler's name as [clean_player_name] leaves it: empty, or from a
    letter to a letter or a closing parenthesis. *)
Definition clean_name (name : string) : Prop :=
  (forall c, head_char name = Some c -> isalpha c = true)
  /\ (forall c, last_char name = Some c -> isalpha c = true \/ c = ")"%char).

(** The test [_infer_missing_bowling_stats] makes of a batting side: it has
    a score that is not "yet to bat", and batting entries. *)
Definition batted_with_entries (md : MatchData) (key : string) : Prop :=
  nonempty (team_score_lower md key) = true
  /\ contains "yet to bat" (team_score_lower md key) = false
  /\ default [] (batting_stats md !! key) <> [].

(** A score as the team extractor records it: the sentinel, or a text
    without "yet to bat". *)
Definition recorded_score (score : string) : Prop :=
  score = "Yet to bat" \/ contains "yet to bat" (lower score) = false.

Definition recorded_slot (slot : option TeamData) : Prop :=
  forall t score, slot = Some t -> t_score t = Some score -> recorded_score score.

Definition recorded_scores (md : MatchData) : Prop :=
  forall key t score, teams md !! key = Some t -> t_score t = Some score ->
                      recorded_score score.

(** A batting list exists only for a team whose recorded score is not
    "yet to bat". *)
Definition batting_lists_of_batted_teams (md : MatchData) : Prop :=
  forall key l, batting_stats md !! key = Some l ->
                yet_to_bat (team_get md key t_score "") = false.

(** The names of a bowling list, in list order. *)
Local Abbreviation names l := (bowl_name <$> l).

(** ** Sample documents *)

Module Samples.

(** The answers below are those of documents of this shape: the team
    sections; an element of class [ckt_batsmen] (not a [table]) per
    batting scorecard; and one [div] per innings tab, with [data-id]
    "ckt_fltr_0" for the first innings and "ckt_fltr_1" for the second,
    holding the bowling table of that innings two levels down.  A bowling
    table has no class and no ancestor of class [ckt_bowlers] or [b_scard],
    so that of the selectors of the bowling extractor only the one for
    tables that contain "BOWLERS" finds it. *)

(** A document in which every query comes back empty. *)
Definition blank : Soup :=
  {| tournament_elem := None; status_elem := None; date_elem := None;
     mom_elem := None; venue_elem := None; team_sections := [];
     scorecard_tab := None; doc_batting_tables := [];
     select_one_region := fun _ => None; select_tables := fun _ => [];
     all_tables := []; commentary_section := None;
     doc_commentary_items := []; alt_commentary_items := [] |}.

Definition team (name score : string) : TeamSection :=
  {| name_elem := Some (mkElem name []); score_elem := Some (mkElem score []) |}.

(** A batting row: name, runs and the footnote of the row below. *)
Definition batter (name runs : string) (note : option string) : BatRow :=
  {| row_tag := {| row_markup := name +:+ " " +:+ runs;
                   row_first_td := Some (mkNameCell name None [] false);
                   row_tds := [name; runs; "20"; "2"; "1"; "120.00"] |};
     row_next_note := note |}.

Definition scorecard (rows : list BatRow) : BatTable :=
  {| bat_header := Some "BATTERS R B 4s 6s SR"; bat_rows := rows |}.

Definition bowler (name overs runs wickets : string) : Tr :=
  {| tr_markup := name +:+ " " +:+ overs +:+ " " +:+ runs +:+ " " +:+ wickets;
     tr_class := ["ckt_row_item"];
     tr_text := name +:+ " " +:+ overs +:+ " 0 " +:+ runs +:+ " " +:+ wickets +:+ " 7.50";
     tr_first_td := Some (None, name);
     tr_tds := [name; overs; "0"; runs; wickets; "7.50"] |}.

Definition bowling_header_row : Tr :=
  {| tr_markup := "BOWLERS O M R W ECO"; tr_class := ["ckt_row_hdr"];
     tr_text := "BOWLERS O M R W ECO"; tr_first_td := Some (None, "BOWLERS");
     tr_tds := ["BOWLERS"; "O"; "M"; "R"; "W"; "ECO"] |}.

(** [table.text]. *)
Definition table_text (trs : list Tr) : string :=
  foldr (fun r text => tr_text r +:+ " " +:+ text) "" trs.

(** The bowling table of the first innings tab. *)
Definition bowling_table (rows : list Tr) : BowlTable :=
  {| tbl_text := table_text (bowling_header_row :: rows);
     tbl_trs := bowling_header_row :: rows;
     tbl_ancestors := [("", ""); ("", "ckt_fltr_0")] |}.

(** The bowling table of the second innings tab. *)
Definition second_tab_table (rows : list Tr) : BowlTable :=
  {| tbl_text := table_text (bowling_header_row :: rows);
     tbl_trs := bowling_header_row :: rows;
     tbl_ancestors := [("", ""); ("", "ckt_fltr_1")] |}.

Definition with_teams (sections : list TeamSection) (soup : Soup) : Soup :=
  {| tournament_elem := tournament_elem soup; status_elem := status_elem soup;
     date_elem := date_elem soup; mom_elem := mom_elem soup;
     venue_elem := venue_elem soup; team_sections := sections;
     scorecard_tab := scorecard_tab soup;
     doc_batting_tables := doc_batting_tables soup;
     select_one_region := select_one_region soup;
     select_tables := select_tables soup; all_tables := all_tables soup;
     commentary_section := commentary_section soup;
     doc_commentary_items := doc_commentary_items soup;
     alt_commentary_items := alt_commentary_items soup |}.

Definition with_batting (tables : list BatTable) (soup : Soup) : Soup :=
  {| tournament_elem := tournament_elem soup; status_elem := status_elem soup;
     date_elem := date_elem soup; mom_elem := mom_elem soup;
     venue_elem := venue_elem soup; team_sections := team_sections soup;
     scorecard_tab := scorecard_tab soup;
     doc_batting_tables := tables;
     select_one_region := select_one_region soup;
     select_tables := select_tables soup; all_tables := all_tables soup;
     commentary_section := commentary_section soup;
     doc_commentary_items := doc_commentary_items soup;
     alt_commentary_items := alt_commentary_items soup |}.

(** The one selector of the bowling extractor that finds the tables. *)
Definition contains_bowlers : string :=
  "table:contains(" +:+ dq +:+ "BOWLERS" +:+ dq +:+ ")".

Definition tab_selector (data_id : string) : string :=
  "div[data-id=" +:+ dq +:+ data_id +:+ dq +:+ "]".

(** The tables below the tab with the given [data-id]. *)
Definition in_tab (data_id : string) (tables : list BowlTable) : list BowlTable :=
  List.filter
    (fun table => existsb (fun a => String.eqb (snd a) data_id) (tbl_ancestors table))
    tables.

(** A tab is in the document when a table is below it. *)
Definition tab_region (data_id : string) (tables : list BowlTable)
    : option (string -> list BowlTable) :=
  match in_tab data_id tables with
  | [] => None
  | found => Some (fun selector =>
                     if String.eqb selector contains_bowlers then found else [])
  end.

(** The bowling tables of a document, each below its tab.  The second
    tab is also what the batting extractor takes for the scorecard tab;
    the batting scorecards are outside it. *)
Definition with_bowling (tables : list BowlTable) (soup : Soup) : Soup :=
  {| tournament_elem := tournament_elem soup; status_elem := status_elem soup;
     date_elem := date_elem soup; mom_elem := mom_elem soup;
     venue_elem := venue_elem soup; team_sections := team_sections soup;
     scorecard_tab :=
       match in_tab "ckt_fltr_1" tables with
       | [] => scorecard_tab soup
       | _ => Some (default [] (scorecard_tab soup))
       end;
     doc_batting_tables := doc_batting_tables soup;
     select_one_region := fun selector =>
       if String.eqb selector (tab_selector "ckt_fltr_0")
       then tab_region "ckt_fltr_0" tables
       else if String.eqb selector (tab_selector "ckt_fltr_1")
       then tab_region "ckt_fltr_1" tables
       else None;
     select_tables := fun selector =>
       if String.eqb selector contains_bowlers then tables else [];
     all_tables := tables;
     commentary_section := commentary_section soup;
     doc_commentary_items := doc_commentary_items soup;
     alt_commentary_items := alt_commentary_items soup |}.

Definition with_commentary (items : list CommItem) (soup : Soup) : Soup :=
  {| tournament_elem := tournament_elem soup; status_elem := status_elem soup;
     date_elem := date_elem soup; mom_elem := mom_elem soup;
     venue_elem := venue_elem soup; team_sections := team_sections soup;
     scorecard_tab := scorecard_tab soup;
     doc_batting_tables := doc_batting_tables soup;
     select_one_region := select_one_region soup;
     select_tables := select_tables soup; all_tables := all_tables soup;
     commentary_section := commentary_section soup;
     doc_commentary_items := items;
     alt_commentary_items := alt_commentary_items soup |}.

Definition with_status (text : string) (soup : Soup) : Soup :=
  {| tournament_elem := tournament_elem soup; status_elem := Some text;
     date_elem := date_elem soup; mom_elem := mom_elem soup;
     venue_elem := venue_elem soup; team_sections := team_sections soup;
     scorecard_tab := scorecard_tab soup;
     doc_batting_tables := doc_batting_tables soup;
     select_one_region := select_one_region soup;
     select_tables := select_tables soup; all_tables := all_tables soup;
     commentary_section := commentary_section soup;
     doc_commentary_items := doc_commentary_items soup;
     alt_commentary_items := alt_commentary_items soup |}.

Definition note (time text : string) : CommItem :=
  {| item_time := Some {| time_bold := Some time;
                          time_contents := [(Some "b", time); (None, text)] |};
     item_ball := None; item_txt := None |}.

Definition fresh : MatchData := init_match_data (Some "253699") (Some "8307").

(** First innings after five overs: one wicket down, found by footnote. *)
Definition five_overs : Soup :=
  with_commentary [note "19:52" "End of over 5"]
    (with_bowling [bowling_table [bowler "Chahar" "3" "25" "1"; bowler "Pathirana" "2" "19" "0"]]
       (with_batting
          [scorecard [batter "Rohit" "30" None;
                      batter "Kishan" "12" (Some "c Dhoni b Chahar");
                      batter "Surya" "3" None]]
          (with_teams [team "Mumbai Indians" "45/1 (5.0)";
                       team "Chennai Super Kings" "Yet to bat"] blank))).

(** An over later: two wickets down, one found by footnote, and a new row
    whose runs cell is a dash. *)
Definition six_overs : Soup :=
  with_bowling [bowling_table [bowler "Chahar" "3" "25" "1"; bowler "Pathirana" "3" "26" "1"]]
    (with_batting
       [scorecard [batter "Rohit" "35" None;
                   batter "Kishan" "12" (Some "c Dhoni b Chahar");
                   batter "Surya" "5" None;
                   batter "Tilak" "-" None]]
       (with_teams [team "Mumbai Indians" "52/2 (6.0)";
                    team "Chennai Super Kings" "Yet to bat"] blank)).

(** A finished match: both innings played, the status names the winner,
    one bowling table below each tab. *)
Definition finished : Soup :=
  with_status "Chennai Super Kings won by 6 wickets"
    (with_bowling [bowling_table [bowler "Chahar" "4" "31" "2"; bowler "Pathirana" "4" "38" "1"];
                   second_tab_table [bowler "Bumrah" "4" "22" "3"; bowler "Boult" "3.2" "35" "0"]]
       (with_teams [team "Mumbai Indians" "185/6 (20.0)";
                    team "Chennai Super Kings" "186/4 (19.2)"] blank)).

(** Six rows, four dismissed by footnote; the two others are the two
    highest scorers. *)
Definition openers_still_in : Soup :=
  with_batting
    [scorecard [batter "Rohit" "60" None;
                batter "Kishan" "45" None;
                batter "Surya" "10" (Some "c Dhoni b Chahar");
                batter "Tilak" "8" (Some "b Pathirana");
                batter "Hardik" "5" (Some "lbw b Jadeja");
                batter "David" "1" (Some "run out (Gaikwad)")]]
    (with_teams [team "Mumbai Indians" "135/6 (15.0)";
                 team "Chennai Super Kings" "Yet to bat"] blank).

(** Six rows, four dismissed by footnote, among them the two highest
    scorers. *)
Definition openers_gone : Soup :=
  with_batting
    [scorecard [batter "Rohit" "60" (Some "c Dhoni b Chahar");
                batter "Kishan" "45" (Some "b Pathirana");
                batter "Surya" "10" None;
                batter "Tilak" "8" (Some "lbw b Jadeja");
                batter "Hardik" "5" None;
                batter "David" "1" (Some "run out (Gaikwad)")]]
    (with_teams [team "Mumbai Indians" "135/6 (15.0)";
                 team "Chennai Super Kings" "Yet to bat"] blank).

(** Before the toss: neither team has batted, yet a bowling table is
    already listed below the first tab. *)
Definition before_start : Soup :=
  with_bowling [bowling_table [bowler "Chahar" "0" "0" "0"]]
    (with_teams [team "Mumbai Indians" "Yet to bat";
                 team "Chennai Super Kings" "Yet to bat"] blank).

(** Summary rows in both tables, a batting name with an open parenthesis
    and bowlers' cells with a number before and an open parenthesis after
    the name. *)
Definition with_summary_rows : Soup :=
  with_bowling [bowling_table [bowler "1. Chahar" "3" "25" "1";
                               bowler "Extras" "0" "4" "0";
                               bowler "Pathirana (vc" "2" "19" "0"]]
    (with_batting
       [scorecard [batter "Rohit Sharma (c" "30" None;
                   batter "Kishan" "12" (Some "c Dhoni b Chahar");
                   batter "Extras" "3" None;
                   batter "TOTAL" "45" None]]
       (with_teams [team "Mumbai Indians" "45/1 (5.0)";
                    team "Chennai Super Kings" "Yet to bat"] blank)).

(** The chase: the first innings is complete, the second is under way. *)
Definition chase : Soup :=
  with_bowling [bowling_table [bowler "Chahar" "4" "31" "2"; bowler "Pathirana" "4" "38" "1"];
                second_tab_table [bowler "Bumrah" "2" "12" "1"; bowler "Boult" "3" "30" "1"]]
    (with_teams [team "Mumbai Indians" "185/6 (20.0)";
                 team "Chennai Super Kings" "45/2 (5.0)"] blank).

(** The chase with both scorecards: the first innings reads well; in the
    second a dismissal has to be inferred and a runs cell is a dash. *)
Definition chase_with_a_dash : Soup :=
  with_batting
    [scorecard [batter "Rohit" "80" None;
                batter "Kishan" "60" (Some "c Dhoni b Chahar")];
     scorecard [batter "Gaikwad" "20" None;
                batter "Conway" "15" (Some "b Bumrah");
                batter "Dube" "-" None]]
    (with_teams [team "Mumbai Indians" "185/1 (20.0)";
                 team "Chennai Super Kings" "45/2 (5.0)"] blank).

(** An overs figure that is no number. *)
Definition overs_not_a_number : Soup :=
  with_teams [team "Mumbai Indians" "45/1 (DLS)";
              team "Chennai Super Kings" "Yet to bat"] blank.

(** The rows of a bowling table in which one name comes twice. *)
Definition repeated_rows : list Tr :=
  [bowler "Chahar" "3" "25" "1"; bowler "Pathirana" "2" "19" "0";
   bowler "Chahar" "4" "31" "2"].

End Samples.

(** * Properties *)

(** ** Framing: what a computation leaves untouched *)

Section Frame.
Context {X : Type} (f : MatchData -> X).

Lemma keeps_ret {A} (a : A) : keeps f (ret a).
Proof. intros md; reflexivity. Qed.

Lemma keeps_raise {A} (e : exn) : keeps f (@raise A e).
Proof. intros md; reflexivity. Qed.

Lemma keeps_get : keeps f get.
Proof. intros md; reflexivity. Qed.

Lemma keeps_modify (g : MatchData -> MatchData) :
  (forall md, f (g md) = f md) -> keeps f (modify g).
Proof. intros Hg md; apply Hg. Qed.

Lemma keeps_bind {A B} (m : M A) (k : A -> M B) :
  keeps f m -> (forall a, keeps f (k a)) -> keeps f (bind m k).
Proof.
  intros Hm Hk md. unfold exec, bind.
  specialize (Hm md). unfold exec in Hm. destruct (m md) as [md' [a|e]]; simpl in *.
  - rewrite <- Hm. apply Hk.
  - exact Hm.
Qed.

Lemma keeps_try_except (body : M unit) : keeps f body -> keeps f (try_except body).
Proof. intros Hb md. apply Hb. Qed.

Lemma keeps_try_catch {A} (body handler : M A) :
  keeps f body -> keeps f handler -> keeps f (try_catch body handler).
Proof.
  intros Hb Hh md. unfold exec, try_catch.
  specialize (Hb md). unfold exec in Hb. destruct (body md) as [md' [a|e]]; simpl in *.
  - exact Hb.
  - rewrite <- Hb. apply Hh.
Qed.

Lemma keeps_when (b : bool) (m : M unit) : keeps f m -> keeps f (when b m).
Proof. intros Hm. destruct b; simpl; [exact Hm | apply keeps_ret]. Qed.

Lemma keeps_when_some {A} (o : option A) (k : A -> M unit) :
  (forall a, keeps f (k a)) -> keeps f (when_some o k).
Proof. intros Hk. destruct o; simpl; [apply Hk | apply keeps_ret]. Qed.

Lemma keeps_value_of {A} (o : option A) : keeps f (value_of o).
Proof. destruct o; [apply keeps_ret | apply keeps_raise]. Qed.

Lemma keeps_value_of_key {A} (o : option A) : keeps f (value_of_key o).
Proof. destruct o; [apply keeps_ret | apply keeps_raise]. Qed.

Lemma keeps_lift {A} (o : outcome A) : keeps f (lift o).
Proof. intros md; reflexivity. Qed.

Lemma keeps_first_item {A} (l : list A) : keeps f (first_item l).
Proof. destruct l; [apply keeps_raise | apply keeps_ret]. Qed.

Lemma keeps_update_team key g :
  (forall h md, f (set_teams h md) = f md) -> keeps f (update_team key g).
Proof.
  intros Hf md. unfold exec, update_team. destruct (teams md !! key); simpl; auto.
Qed.

Lemma keeps_append_batting key e :
  (forall h md, f (set_batting_stats h md) = f md) -> keeps f (append_batting key e).
Proof.
  intros Hf md. unfold exec, append_batting.
  destruct (batting_stats md !! key); simpl; auto.
Qed.
End Frame.

(** Splits a framing goal along the structure of the computation; [leaf]
    closes the side conditions on the state updates. *)
Ltac frame_with leaf :=
  repeat
    (cbv beta;
     lazymatch goal with
     | |- keeps _ (ret _) => apply keeps_ret
     | |- keeps _ (raise _) => apply keeps_raise
     | |- keeps _ get => apply keeps_get
     | |- keeps _ (value_of _) => apply keeps_value_of
     | |- keeps _ (value_of_key _) => apply keeps_value_of_key
     | |- keeps _ (first_item _) => apply keeps_first_item
     | |- keeps _ (lift _) => apply keeps_lift
     | |- keeps _ (try_except _) => apply keeps_try_except
     | |- keeps _ (try_catch _ _) => apply keeps_try_catch
     | |- keeps _ (when _ _) => apply keeps_when
     | |- keeps _ (when_some _ _) => apply keeps_when_some; intros
     | |- keeps _ (bind _ _) => apply keeps_bind; [ | intros ]
     | |- keeps _ (modify _) => apply keeps_modify; intros; leaf
     | |- keeps _ (update_team _ _) => apply keeps_update_team; intros; leaf
     | |- keeps _ (append_batting _ _) => apply keeps_append_batting; intros; leaf
     | |- keeps _ (match ?x with _ => _ end) => destruct x
     end).

Lemma parse_match_info_keeps {X} (f : MatchData -> X) soup :
  (forall h md, f (set_match_info h md) = f md) -> keeps f (parse_match_info soup).
Proof.
  intros Hf. unfold parse_match_info, parse_match_info_body.
  frame_with ltac:(apply Hf).
Qed.

Lemma team_section_body_keeps {X} (f : MatchData -> X) i section :
  (forall h md, f (set_teams h md) = f md) -> keeps f (team_section_body i section).
Proof. intros Hf. unfold team_section_body. frame_with ltac:(apply Hf). Qed.

Lemma team_sections_loop_keeps {X} (f : MatchData -> X) sections :
  (forall h md, f (set_teams h md) = f md) ->
  forall i, keeps f (team_sections_loop i sections).
Proof.
  intros Hf. induction sections as [|s l IH]; intros i; simpl.
  - apply keeps_ret.
  - apply keeps_bind; [ apply team_section_body_keeps, Hf | intros; apply IH ].
Qed.

Lemma parse_teams_and_scores_keeps {X} (f : MatchData -> X) soup :
  (forall h md, f (set_teams h md) = f md) -> keeps f (parse_teams_and_scores soup).
Proof.
  intros Hf. apply keeps_try_except, team_sections_loop_keeps, Hf.
Qed.

(** The batting extractor writes [batting_stats] and [match_info] only. *)
Lemma append_batting_loop_keeps {X} (f : MatchData -> X) key l :
  (forall h md, f (set_batting_stats h md) = f md) ->
  keeps f (append_batting_loop key l).
Proof.
  intros Hb. induction l as [|b l IH]; simpl; frame_with ltac:(apply Hb). exact IH.
Qed.

Lemma batting_table_body_keeps {X} (f : MatchData -> X) bf bs n table :
  (forall h md, f (set_batting_stats h md) = f md) ->
  (forall h md, f (set_match_info h md) = f md) ->
  keeps f (batting_table_body bf bs n table).
Proof.
  intros Hb Hi. unfold batting_table_body.
  frame_with ltac:(first [apply Hb | apply Hi]).
  apply append_batting_loop_keeps, Hb.
Qed.

Lemma batting_tables_loop_keeps {X} (f : MatchData -> X) bf bs tables :
  (forall h md, f (set_batting_stats h md) = f md) ->
  (forall h md, f (set_match_info h md) = f md) ->
  forall n, keeps f (batting_tables_loop bf bs n tables).
Proof.
  intros Hb Hi. induction tables as [|t l IH]; intros n; simpl.
  - apply keeps_ret.
  - apply keeps_bind; [ apply batting_table_body_keeps; assumption | intros; apply IH ].
Qed.

Lemma parse_batting_stats_keeps {X} (f : MatchData -> X) soup :
  (forall h md, f (set_batting_stats h md) = f md) ->
  (forall h md, f (set_match_info h md) = f md) ->
  keeps f (parse_batting_stats soup).
Proof.
  intros Hb Hi. unfold parse_batting_stats, parse_batting_stats_body.
  frame_with ltac:(first [apply Hb | apply Hi]).
  apply batting_tables_loop_keeps; assumption.
Qed.

(** The bowling extractor writes [bowling_stats] only. *)
Lemma add_bowler_keeps {X} (f : MatchData -> X) key b :
  (forall h md, f (set_bowling_stats h md) = f md) ->
  keeps f (_add_bowler_if_not_exists key b).
Proof. intros Hb. unfold _add_bowler_if_not_exists. frame_with ltac:(apply Hb). Qed.

Lemma bowler_rows_loop_keeps {X} (f : MatchData -> X) key rows :
  (forall h md, f (set_bowling_stats h md) = f md) ->
  keeps f (bowler_rows_loop key rows).
Proof.
  intros Hb. induction rows as [|r l IH]; simpl; frame_with ltac:(apply Hb).
  - apply add_bowler_keeps, Hb.
  - exact IH.
Qed.

Lemma bowling_table_body_keeps {X} (f : MatchData -> X) cbt n table :
  (forall h md, f (set_bowling_stats h md) = f md) ->
  keeps f (bowling_table_body cbt n table).
Proof.
  intros Hb. unfold bowling_table_body. frame_with ltac:(apply Hb).
  apply bowler_rows_loop_keeps, Hb.
Qed.

Lemma bowling_tables_loop_keeps {X} (f : MatchData -> X) cbt tables :
  (forall h md, f (set_bowling_stats h md) = f md) ->
  forall n, keeps f (bowling_tables_loop cbt n tables).
Proof.
  intros Hb. induction tables as [|t l IH]; intros n; simpl.
  - apply keeps_ret.
  - apply keeps_bind; [ apply bowling_table_body_keeps, Hb | intros; apply IH ].
Qed.

Lemma infer_missing_keeps {X} (f : MatchData -> X) :
  (forall h md, f (set_bowling_stats h md) = f md) ->
  keeps f _infer_missing_bowling_stats.
Proof.
  intros Hb. unfold _infer_missing_bowling_stats, infer_for.
  frame_with ltac:(apply Hb).
Qed.

Lemma parse_bowling_stats_keeps {X} (f : MatchData -> X) soup :
  (forall h md, f (set_bowling_stats h md) = f md) ->
  keeps f (parse_bowling_stats soup).
Proof.
  intros Hb. unfold parse_bowling_stats, parse_bowling_stats_body. frame_with ltac:(apply Hb).
  - apply bowling_tables_loop_keeps, Hb.
  - apply infer_missing_keeps, Hb.
Qed.

(** The commentary extractor writes [commentary] only. *)
Lemma commentary_loop_keeps {X} (f : MatchData -> X) items :
  (forall h md, f (set_commentary h md) = f md) ->
  keeps f (commentary_loop items).
Proof.
  intros Hc. induction items as [|it l IH]; simpl; frame_with ltac:(apply Hc). exact IH.
Qed.

Lemma parse_commentary_keeps {X} (f : MatchData -> X) soup :
  (forall h md, f (set_commentary h md) = f md) ->
  keeps f (parse_commentary soup).
Proof.
  intros Hc. unfold parse_commentary, parse_commentary_body. frame_with ltac:(apply Hc).
  apply commentary_loop_keeps, Hc.
Qed.

(** ** The update cycle as a pipeline *)

Lemma try_except_run body md : try_except body md = (exec body md, Ok tt).
Proof. reflexivity. Qed.

Lemma bind_run {A B} (m : M A) (k : A -> M B) md md' a :
  m md = (md', Ok a) -> bind m k md = k a md'.
Proof. intros H. unfold bind. rewrite H. reflexivity. Qed.

Lemma parse_match_info_run soup md :
  parse_match_info soup md = (exec (parse_match_info soup) md, Ok tt).
Proof. reflexivity. Qed.
Lemma parse_teams_and_scores_run soup md :
  parse_teams_and_scores soup md = (exec (parse_teams_and_scores soup) md, Ok tt).
Proof. reflexivity. Qed.
Lemma parse_batting_stats_run soup md :
  parse_batting_stats soup md = (exec (parse_batting_stats soup) md, Ok tt).
Proof. reflexivity. Qed.
Lemma parse_bowling_stats_run soup md :
  parse_bowling_stats soup md = (exec (parse_bowling_stats soup) md, Ok tt).
Proof. reflexivity. Qed.
Lemma parse_commentary_run soup md :
  parse_commentary soup md = (exec (parse_commentary soup) md, Ok tt).
Proof. reflexivity. Qed.

(** Every extractor runs, each from the state its predecessor left. *)
Lemma parse_html_run soup md :
  parse_html soup md =
  (exec (parse_commentary soup)
     (exec (parse_bowling_stats soup)
        (exec (parse_batting_stats soup)
           (exec (parse_teams_and_scores soup)
              (exec (parse_match_info soup) md)))), Ok tt).
Proof.
  reflexivity.
Qed.

Lemma update_run now soup md :
  update now (Some soup) md =
  let md' := exec validate_data (set_last_updated now (exec (parse_html soup) md)) in
  (md', Ok (Some md')).
Proof.
  reflexivity.
Qed.

Lemma update_none now md : update now None md = (md, Ok None).
Proof. reflexivity. Qed.

Lemma validate_data_keeps_commentary md :
  commentary (exec validate_data md) = commentary md.
Proof. reflexivity. Qed.

(** ** Commentary *)

Lemma commentary_loop_run items md :
  commentary_loop items md =
  (set_commentary (fun l => l ++ omap commentary_entry items) md, Ok tt).
Proof.
  revert md. induction items as [|item rest IH]; intros md; simpl.
  - unfold ret, set_commentary. destruct md; simpl. rewrite app_nil_r. reflexivity.
  - unfold bind. destruct (commentary_entry item) as [entry|]; simpl.
    + rewrite IH. unfold set_commentary; simpl. rewrite <- app_assoc. reflexivity.
    + rewrite IH. reflexivity.
Qed.

Lemma parse_commentary_commentary soup md :
  commentary (exec (parse_commentary soup) md) =
  match find_commentary_items soup with
  | [] => commentary md
  | items => omap commentary_entry (take 20 items)
  end.
Proof.
  unfold parse_commentary, parse_commentary_body, exec, try_except. cbn [fst].
  destruct (find_commentary_items soup) as [|item items]; [reflexivity|].
  unfold bind, modify. rewrite commentary_loop_run. reflexivity.
Qed.

Lemma update_commentary now soup md :
  commentary (exec (update now (Some soup)) md) =
  match find_commentary_items soup with
  | [] => commentary md
  | items => omap commentary_entry (take 20 items)
  end.
Proof.
  unfold exec at 1. rewrite update_run. cbn [fst].
  rewrite validate_data_keeps_commentary. unfold set_last_updated; cbn [commentary].
  unfold exec at 1. rewrite parse_html_run. cbn [fst].
  rewrite parse_commentary_commentary.
  rewrite (parse_bowling_stats_keeps commentary), (parse_batting_stats_keeps commentary),
    (parse_teams_and_scores_keeps commentary), (parse_match_info_keeps commentary);
    try reflexivity; intros; reflexivity.
Qed.

Lemma omap_length_le {A B} (f : A -> option B) (l : list A) :
  (length (omap f l) <= length l)%nat.
Proof. induction l as [|x l IH]; csimpl; [lia|]. destruct (f x); csimpl; lia. Qed.

Lemma extracted_commentary_bound (items : list CommItem) :
  (length (omap commentary_entry (take 20 items)) <= 20)%nat.
Proof.
  etransitivity; [apply omap_length_le|]. rewrite length_take. lia.
Qed.

Lemma update_commentary_bound now fetched md :
  (length (commentary md) <= 20)%nat ->
  (length (commentary (exec (update now fetched) md)) <= 20)%nat.
Proof.
  intros H. destruct fetched as [soup|]; [|exact H].
  rewrite update_commentary. destruct (find_commentary_items soup) eqn:E; [exact H|].
  apply extracted_commentary_bound.
Qed.

Lemma reachable_commentary_bound md :
  reachable md -> (length (commentary md) <= 20)%nat.
Proof.
  induction 1 as [|now fetched md Hr IH]; [simpl; lia|].
  apply update_commentary_bound, IH.
Qed.

(** C5 (amended): after an update of a reachable state the commentary list
    has at most 20 entries; when the current document has a commentary item
    the list is replaced by the entries of its first 20 items, nothing of
    the previous list surviving, and otherwise (no document, or a document
    without commentary items) the previous list is kept unchanged. *)
Theorem commentary_bounded_window now fetched md :
  reachable md ->
  let md' := exec (update now fetched) md in
  (length (commentary md') <= 20)%nat /\
  commentary md' =
    match fetched with
    | None => commentary md
    | Some soup =>
        match find_commentary_items soup with
        | [] => commentary md
        | items => omap commentary_entry (take 20 items)
        end
    end.
Proof.
  intros Hr md'. split.
  - apply update_commentary_bound, reachable_commentary_bound, Hr.
  - subst md'. destruct fetched as [soup|]; [apply update_commentary | reflexivity].
Qed.

(** C5 (as stated, refuted): the second document has no commentary item,
    yet after its update the list is still the one extracted from the
    first document instead of a list computed from the current one. *)
Lemma commentary_not_recomputed_without_items :
  let pre := exec (update "2025-04-01 19:52:10" (Some Samples.five_overs)) Samples.fresh in
  let post := exec (update "2025-04-01 19:57:31" (Some Samples.six_overs)) pre in
  find_commentary_items Samples.six_overs = []
  /\ commentary post = [General "19:52" "End of over 5"]
  /\ commentary post = commentary pre.
Proof. vm_compute. repeat split. Qed.

Lemma commentary_bounded_window_witness :
  let md := exec (update "2025-04-01 19:52:10" (Some Samples.five_overs)) Samples.fresh in
  let md' := exec (update "2025-04-01 19:57:31" (Some Samples.six_overs)) md in
  (length (commentary md') <= 20)%nat /\
  commentary md' = commentary md.
Proof.
  apply (commentary_bounded_window "2025-04-01 19:57:31" (Some Samples.six_overs)
           (exec (update "2025-04-01 19:52:10" (Some Samples.five_overs)) Samples.fresh)).
  apply reachable_update, reachable_init.
Defined.

(** ** Containment of failures *)

(** C1 (as stated, refuted): the batting extractor fails inside the second
    update ([int('-')] raises), the failure is caught, and the batting
    section is left with the empty list written before the failure, not
    with the three entries it had before the update. *)
Lemma batting_failure_loses_previous_section :
  let pre := exec (update "2025-04-01 19:52:10" (Some Samples.five_overs)) Samples.fresh in
  let at_batting :=
    exec (parse_teams_and_scores Samples.six_overs)
      (exec (parse_match_info Samples.six_overs) pre) in
  let post := exec (update "2025-04-01 19:57:31" (Some Samples.six_overs)) pre in
  snd (parse_batting_stats_body Samples.six_overs at_batting) = Raise ValueError
  /\ length <$> (batting_stats pre !! "team1") = Some 3%nat
  /\ batting_stats post !! "team1" = Some []
  /\ batting_stats post <> batting_stats pre.
Proof.
  cbv zeta.
  set (pre := exec (update "2025-04-01 19:52:10" (Some Samples.five_overs)) Samples.fresh).
  set (post := exec (update "2025-04-01 19:57:31" (Some Samples.six_overs)) pre).
  assert (Hpre : length <$> (batting_stats pre !! "team1") = Some 3%nat)
    by (vm_compute; reflexivity).
  assert (Hpost : batting_stats post !! "team1" = Some [])
    by (vm_compute; reflexivity).
  split; [vm_compute; reflexivity|].
  split; [exact Hpre|]. split; [exact Hpost|].
  intros H. rewrite H in Hpost. rewrite Hpost in Hpre. discriminate Hpre.
Qed.

(** ** Bowling lists: the upsert by name *)

Lemma string_eqb_true (a b : string) : String.eqb a b = true <-> a = b.
Proof. apply String.eqb_eq. Qed.

Lemma string_eqb_false (a b : string) : String.eqb a b = false <-> a <> b.
Proof. apply String.eqb_neq. Qed.

Lemma existing_index_absent name l i found :
  name ∉ names l -> existing_index name l i found = found.
Proof.
  revert i found. induction l as [|b l IH]; intros i found Hn; simpl; [reflexivity|].
  rewrite fmap_cons in Hn. apply not_elem_of_cons in Hn as [Hne Hn].
  rewrite IH by exact Hn.
  destruct (String.eqb (bowl_name b) name) eqn:E; [|reflexivity].
  apply string_eqb_true in E. congruence.
Qed.

Lemma existing_index_present name l i found j e :
  NoDup (names l) -> l !! j = Some e -> bowl_name e = name ->
  existing_index name l i found = Some (i + j)%nat.
Proof.
  revert i found j. induction l as [|b l IH]; intros i found j Hnd Hj He; [discriminate|].
  rewrite fmap_cons in Hnd. apply NoDup_cons in Hnd as [Hb Hnd].
  destruct j as [|j]; simpl in *.
  - injection Hj as ->. rewrite He, String.eqb_refl.
    rewrite existing_index_absent by (rewrite <- He; exact Hb). f_equal. lia.
  - destruct (String.eqb (bowl_name b) name) eqn:E.
    + apply string_eqb_true in E. exfalso. apply Hb. rewrite E, <- He.
      apply list_elem_of_fmap. exists e. split; [reflexivity|].
      apply list_elem_of_lookup. eauto.
    + rewrite (IH (S i) found j Hnd Hj He). f_equal. lia.
Qed.

Lemma add_bowler_new b l :
  bowl_name b ∉ names l -> add_bowler b l = l ++ [b].
Proof. intros H. unfold add_bowler. rewrite existing_index_absent by exact H. reflexivity. Qed.

(** An existing entry of that name is replaced in place. *)
Lemma add_bowler_existing b l j e :
  NoDup (names l) -> l !! j = Some e -> bowl_name e = bowl_name b ->
  add_bowler b l = <[j := b]> l.
Proof.
  intros Hnd Hj He. unfold add_bowler.
  rewrite (existing_index_present _ _ 0 None j e Hnd Hj He). reflexivity.
Qed.

Lemma add_bowler_cases b l :
  NoDup (names l) ->
  ((bowl_name b ∉ names l) /\ add_bowler b l = l ++ [b])
  \/ (exists j e, l !! j = Some e /\ bowl_name e = bowl_name b
                  /\ add_bowler b l = <[j := b]> l).
Proof.
  intros Hnd. destruct (decide (bowl_name b ∈ names l)) as [Hin|Hout].
  - right. apply list_elem_of_fmap in Hin as [e [He Hin]].
    apply list_elem_of_lookup in Hin as [j Hj].
    exists j, e. split; [exact Hj|]. split; [congruence|].
    apply (add_bowler_existing b l j e Hnd Hj). congruence.
  - left. split; [exact Hout | apply add_bowler_new, Hout].
Qed.

Lemma names_insert_same (l : list BowlingEntry) j e b :
  l !! j = Some e -> bowl_name e = bowl_name b -> names (<[j := b]> l) = names l.
Proof.
  intros Hj He. rewrite list_fmap_insert. apply list_insert_id.
  rewrite list_lookup_fmap, Hj. simpl. congruence.
Qed.

Lemma add_bowler_names b l :
  NoDup (names l) ->
  names (add_bowler b l) =
    if decide (bowl_name b ∈ names l) then names l else names l ++ [bowl_name b].
Proof.
  intros Hnd. destruct (add_bowler_cases b l Hnd) as [[Hout ->]|(j & e & Hj & He & ->)].
  - rewrite decide_False by exact Hout. rewrite fmap_app. reflexivity.
  - rewrite decide_True.
    + apply (names_insert_same l j e b Hj He).
    + rewrite <- He. apply list_elem_of_fmap. exists e. split; [reflexivity|].
      apply list_elem_of_lookup. eauto.
Qed.

Lemma add_bowler_NoDup b l : NoDup (names l) -> NoDup (names (add_bowler b l)).
Proof.
  intros Hnd. rewrite add_bowler_names by exact Hnd.
  destruct (decide (bowl_name b ∈ names l)) as [Hin|Hout]; [exact Hnd|].
  apply NoDup_app. split; [exact Hnd|]. split.
  - intros x Hx Hx'. apply list_elem_of_singleton in Hx'. subst x. contradiction.
  - apply NoDup_singleton.
Qed.

Lemma add_bowler_elem b l : NoDup (names l) -> b ∈ add_bowler b l.
Proof.
  intros Hnd. destruct (add_bowler_cases b l Hnd) as [[Hout ->]|(j & e & Hj & He & ->)].
  - apply elem_of_app. right. apply list_elem_of_singleton. reflexivity.
  - apply list_elem_of_lookup. exists j. apply list_lookup_insert_eq.
    apply lookup_lt_Some in Hj. exact Hj.
Qed.

Lemma add_bowler_prefix b l : NoDup (names l) -> names l `prefix_of` names (add_bowler b l).
Proof.
  intros Hnd. rewrite add_bowler_names by exact Hnd.
  destruct (decide (bowl_name b ∈ names l)); [reflexivity|].
  apply prefix_app_r. reflexivity.
Qed.

(** Entries of another name survive an upsert. *)
Lemma add_bowler_other b l e :
  NoDup (names l) -> e ∈ l -> bowl_name e <> bowl_name b -> e ∈ add_bowler b l.
Proof.
  intros Hnd He Hne.
  destruct (add_bowler_cases b l Hnd) as [[Hout ->]|(j & e' & Hj & He' & ->)].
  - apply elem_of_app. left. exact He.
  - apply list_elem_of_lookup in He as [i Hi].
    apply list_elem_of_lookup. exists i. rewrite list_lookup_insert_ne; [exact Hi|].
    intros ->. rewrite Hj in Hi. injection Hi as ->. congruence.
Qed.

Lemma add_bowlers_NoDup parses l : NoDup (names l) -> NoDup (names (add_bowlers l parses)).
Proof.
  revert l. induction parses as [|p ps IH]; intros l Hnd; simpl; [exact Hnd|].
  apply IH, add_bowler_NoDup, Hnd.
Qed.

Lemma add_bowlers_prefix parses l :
  NoDup (names l) -> names l `prefix_of` names (add_bowlers l parses).
Proof.
  revert l. induction parses as [|p ps IH]; intros l Hnd; simpl; [reflexivity|].
  etransitivity; [apply add_bowler_prefix, Hnd|]. apply IH, add_bowler_NoDup, Hnd.
Qed.

Lemma add_bowlers_other parses l e :
  NoDup (names l) -> e ∈ l -> Forall (fun p => bowl_name p <> bowl_name e) parses ->
  e ∈ add_bowlers l parses.
Proof.
  revert l. induction parses as [|p ps IH]; intros l Hnd He Hall; simpl; [exact He|].
  apply Forall_cons in Hall as [Hp Hall].
  apply IH; [apply add_bowler_NoDup, Hnd | | exact Hall].
  apply add_bowler_other; [exact Hnd | exact He | congruence].
Qed.

Lemma add_bowlers_app l ps qs : add_bowlers l (ps ++ qs) = add_bowlers (add_bowlers l ps) qs.
Proof. apply foldl_app. Qed.

(** The last parse of a name is the entry that survives. *)
Lemma add_bowlers_last_wins l before b after :
  NoDup (names l) ->
  Forall (fun p => bowl_name p <> bowl_name b) after ->
  let final := add_bowlers l (before ++ b :: after) in
  NoDup (names final)
  /\ b ∈ final
  /\ (forall e, e ∈ final -> bowl_name e = bowl_name b -> e = b)
  /\ names (add_bowlers l before) `prefix_of` names final.
Proof.
  intros Hnd Hafter final.
  assert (Hf : NoDup (names final)) by (apply add_bowlers_NoDup, Hnd).
  assert (Hb : b ∈ final).
  { subst final. rewrite add_bowlers_app. simpl.
    apply add_bowlers_other; [| |exact Hafter].
    - apply add_bowler_NoDup, add_bowlers_NoDup, Hnd.
    - apply add_bowler_elem, add_bowlers_NoDup, Hnd. }
  split; [exact Hf|]. split; [exact Hb|]. split.
  - intros e He Hname.
    apply list_elem_of_lookup in He as [i Hi]. apply list_elem_of_lookup in Hb as [j Hj].
    assert (i = j).
    { apply (NoDup_lookup (names final) i j (bowl_name b)); [exact Hf| |].
      - rewrite list_lookup_fmap, Hi. simpl. congruence.
      - rewrite list_lookup_fmap, Hj. reflexivity. }
    subst j. congruence.
  - subst final. rewrite add_bowlers_app.
    apply (add_bowlers_prefix (b :: after)), add_bowlers_NoDup, Hnd.
Qed.

(** The row loop of one table is that run of upserts on the team's list. *)
Lemma bowler_rows_loop_run team rows md l :
  bowling_stats md !! team = Some l ->
  bowler_rows_loop team rows md =
    (set_bowling_stats (insert team (add_bowlers l (omap bowler_of_row rows))) md, Ok tt).
Proof.
  revert md l. induction rows as [|row rows IH]; intros md l Hl.
  - simpl. unfold ret, set_bowling_stats. destruct md; simpl in *.
    rewrite insert_id by exact Hl. reflexivity.
  - cbn [bowler_rows_loop omap list_omap]. unfold bind, try_catch.
    destruct (bowler_of_row row) as [b|] eqn:Eb; simpl.
    + unfold _add_bowler_if_not_exists, bind, get, value_of_key. rewrite Hl.
      unfold ret, modify. cbn [fst snd].
      rewrite (IH _ (add_bowler b l)).
      * unfold set_bowling_stats; simpl. rewrite insert_insert_eq. reflexivity.
      * unfold set_bowling_stats; simpl. apply lookup_insert_eq.
    + unfold ret. apply (IH md l Hl).
Qed.

(** Step 2 of [validate_data] leaves no name twice, whatever it is given. *)
Lemma unique_bowlers_spec seen l :
  let '(kept, dup) := unique_bowlers seen l in
  NoDup (names kept)
  /\ (forall n, n ∈ names kept -> n ∉ seen)
  /\ (dup = 0%nat -> kept = l).
Proof.
  revert seen. induction l as [|b l IH]; intros seen; simpl.
  - split; [constructor|]. split; [intros n Hn; inversion Hn | reflexivity].
  - destruct (elem_of_strb (bowl_name b) seen) eqn:E.
    + specialize (IH seen). destruct (unique_bowlers seen l) as [kept dup].
      destruct IH as (H1 & H2 & H3). split; [exact H1|]. split; [exact H2|]. discriminate.
    + specialize (IH (bowl_name b :: seen)).
      destruct (unique_bowlers (bowl_name b :: seen) l) as [kept dup].
      destruct IH as (H1 & H2 & H3). split; [|split].
      * rewrite fmap_cons. apply NoDup_cons. split; [|exact H1].
        intros Hin. apply (H2 _ Hin). left.
      * intros n Hn. rewrite fmap_cons in Hn. apply elem_of_cons in Hn as [->|Hn].
        -- intros Hin. unfold elem_of_strb in E.
           assert (existsb (String.eqb (bowl_name b)) seen = true); [|congruence].
           apply existsb_exists. exists (bowl_name b). split.
           ++ apply list_elem_of_In, Hin.
           ++ apply String.eqb_refl.
        -- intros Hin. apply (H2 _ Hn). right. exact Hin.
      * intros ->. rewrite (H3 eq_refl). reflexivity.
Qed.

Lemma dedupe_bowlers_NoDup l : NoDup (names (dedupe_bowlers l)).
Proof.
  unfold dedupe_bowlers. pose proof (unique_bowlers_spec [] l) as H.
  destruct (unique_bowlers [] l) as [kept [|dup]]; destruct H as (H1 & H2 & H3).
  - rewrite <- (H3 eq_refl). exact H1.
  - exact H1.
Qed.

(** ** The bowling table loop *)

Lemma assigned_bowling_team_cases table count :
  assigned_bowling_team table count = "team1" \/ assigned_bowling_team table count = "team2".
Proof.
  unfold assigned_bowling_team. destruct (find_tab_parent table) as [p|].
  - destruct (elem_of_strb p ["tab_1"; "ckt_fltr_0"]); auto.
  - destruct count; auto.
Qed.

Lemma bowling_slots_lookup md table count :
  bowling_slots md -> is_Some (bowling_stats md !! assigned_bowling_team table count).
Proof.
  intros [H1 H2]. destruct (assigned_bowling_team_cases table count) as [-> | ->]; assumption.
Qed.

Lemma bowling_slots_insert md team l :
  bowling_slots md -> bowling_slots (set_bowling_stats (insert team l) md).
Proof.
  intros [H1 H2]. unfold bowling_slots, set_bowling_stats; simpl.
  split; rewrite lookup_insert; case_decide; eauto.
Qed.

(** What one iteration of the table loop does. *)
Lemma bowling_table_body_run cbt count table md :
  bowling_slots md ->
  bowling_table_body cbt count table md =
    match bowling_header table with
    | None => (md, Ok count)
    | Some header_row =>
        let team := assigned_bowling_team table count in
        if skips_table cbt team then (md, Ok count)
        else
          let l' := add_bowlers (default [] (bowling_stats md !! team))
                      (omap bowler_of_row (select_bowler_rows table header_row)) in
          (set_bowling_stats (insert team l') md,
           Ok (match l' with [] => count | _ => S count end))
    end.
Proof.
  intros Hs. unfold bowling_table_body, try_catch.
  destruct (bowling_header table) as [hdr|]; [|reflexivity].
  cbv zeta. fold (skips_table cbt (assigned_bowling_team table count)).
  destruct (skips_table cbt (assigned_bowling_team table count)); [reflexivity|].
  destruct (bowling_slots_lookup md table count Hs) as [l Hl].
  unfold bind. rewrite (bowler_rows_loop_run _ _ md l Hl).
  unfold get, value_of_key. cbn [bowling_stats set_bowling_stats].
  rewrite lookup_insert_eq, Hl. reflexivity.
Qed.

Lemma add_bowlers_names_mono l ps n :
  NoDup (names l) -> n ∈ names l -> n ∈ names (add_bowlers l ps).
Proof.
  intros Hnd Hn. destruct (add_bowlers_prefix ps l Hnd) as [k Hk].
  rewrite Hk. apply elem_of_app. left. exact Hn.
Qed.

Lemma add_bowlers_names_parsed l ps b :
  NoDup (names l) -> b ∈ ps -> bowl_name b ∈ names (add_bowlers l ps).
Proof.
  revert l. induction ps as [|p ps IH]; intros l Hnd Hb; [inversion Hb|].
  simpl. apply elem_of_cons in Hb as [->|Hb].
  - apply add_bowlers_names_mono; [apply add_bowler_NoDup, Hnd|].
    apply list_elem_of_fmap. exists p. split; [reflexivity|]. apply add_bowler_elem, Hnd.
  - apply IH; [apply add_bowler_NoDup, Hnd | exact Hb].
Qed.

Lemma bowling_unique_insert md team l :
  bowling_unique md -> NoDup (names l) ->
  bowling_unique (set_bowling_stats (insert team l) md).
Proof.
  intros Hu Hl key l'. unfold set_bowling_stats; simpl.
  rewrite lookup_insert. case_decide.
  - intros [= <-]. exact Hl.
  - apply Hu.
Qed.

Lemma has_bowler_insert md team l l' n :
  bowling_stats md !! team = Some l -> (forall x, x ∈ names l -> x ∈ names l') ->
  has_bowler n md -> has_bowler n (set_bowling_stats (insert team l') md).
Proof.
  intros Hl Hsub (key & k & Hk & Hn). unfold has_bowler, set_bowling_stats; simpl.
  destruct (decide (team = key)) as [->|Hne].
  - exists key, l'. rewrite lookup_insert_eq. split; [reflexivity|].
    apply Hsub. rewrite Hl in Hk. injection Hk as ->. exact Hn.
  - exists key, k. rewrite lookup_insert_ne by exact Hne. split; assumption.
Qed.

(** One iteration keeps the slots, the uniqueness of names and every name
    already known. *)
Lemma bowling_table_body_inv cbt count table md :
  bowling_slots md -> bowling_unique md ->
  let md' := exec (bowling_table_body cbt count table) md in
  bowling_slots md' /\ bowling_unique md'
  /\ (forall n, has_bowler n md -> has_bowler n md')
  /\ returns (bowling_table_body cbt count table) md.
Proof.
  intros Hs Hu. unfold exec, returns. rewrite (bowling_table_body_run _ _ _ _ Hs).
  destruct (bowling_header table) as [hdr|]; cbn [fst snd];
    [|split; [exact Hs|]; split; [exact Hu|]; split; [auto | eauto]].
  cbv zeta. destruct (skips_table cbt (assigned_bowling_team table count)); cbn [fst snd];
    [split; [exact Hs|]; split; [exact Hu|]; split; [auto | eauto]|].
  destruct (bowling_slots_lookup md table count Hs) as [l Hl]. rewrite Hl. cbn [default from_option id].
  split; [apply bowling_slots_insert, Hs|].
  split; [apply bowling_unique_insert; [exact Hu | apply add_bowlers_NoDup, (Hu _ _ Hl)]|].
  split; [|eauto].
  intros n. apply (has_bowler_insert md _ l _ n Hl).
  intros x. apply add_bowlers_names_mono, (Hu _ _ Hl).
Qed.

Lemma bowling_tables_loop_inv cbt tables : forall count md,
  bowling_slots md -> bowling_unique md ->
  let md' := exec (bowling_tables_loop cbt count tables) md in
  bowling_slots md' /\ bowling_unique md'
  /\ (forall n, has_bowler n md -> has_bowler n md')
  /\ snd (bowling_tables_loop cbt count tables md) = Ok tt.
Proof.
  induction tables as [|table tables IH]; intros count md Hs Hu; cbv zeta.
  - unfold exec; cbn. split; [exact Hs|]. split; [exact Hu|]. split; [auto | reflexivity].
  - destruct (bowling_table_body_inv cbt count table md Hs Hu) as (Hs' & Hu' & Hmono & [c Hret]).
    unfold exec in *. cbn [bowling_tables_loop]. unfold bind.
    destruct (bowling_table_body cbt count table md) as [md1 o] eqn:E.
    cbn [fst snd] in *. subst o.
    destruct (IH c md1 Hs' Hu') as (Hs2 & Hu2 & Hmono2 & Hret2).
    split; [exact Hs2|]. split; [exact Hu2|]. split; [|exact Hret2].
    intros n Hn. apply Hmono2, Hmono, Hn.
Qed.

(** With no designated bowling team, every row of every recognised table
    leaves its bowler's name in the state. *)
Lemma bowling_tables_loop_processes tables : forall count md table header_row row b,
  bowling_slots md -> bowling_unique md ->
  table ∈ tables -> bowling_header table = Some header_row ->
  row ∈ select_bowler_rows table header_row -> bowler_of_row row = Some b ->
  has_bowler (bowl_name b) (exec (bowling_tables_loop None count tables) md).
Proof.
  induction tables as [|t tables IH]; intros count md table hdr row b Hs Hu Ht Hh Hr Hb;
    [inversion Ht|].
  destruct (bowling_table_body_inv None count t md Hs Hu) as (Hs' & Hu' & Hmono & [c Hret]).
  unfold exec in *. cbn [bowling_tables_loop]. unfold bind.
  destruct (bowling_table_body None count t md) as [md1 o] eqn:E.
  cbn [fst snd] in *. subst o.
  apply elem_of_cons in Ht as [<-|Ht].
  - destruct (bowling_tables_loop_inv None tables c md1 Hs' Hu') as (_ & _ & Hmono2 & _).
    apply Hmono2. rewrite (bowling_table_body_run _ _ _ _ Hs), Hh in E.
    cbn [skips_table] in E. cbv zeta in E.
    destruct (bowling_slots_lookup md table count Hs) as [l Hl].
    rewrite Hl in E. cbn [default from_option id] in E. injection E as <- _.
    exists (assigned_bowling_team table count). eexists.
    unfold set_bowling_stats; simpl. rewrite lookup_insert_eq. split; [reflexivity|].
    apply add_bowlers_names_parsed; [apply (Hu _ _ Hl)|].
    apply list_elem_of_omap. exists row. split; assumption.
  - apply (IH c md1 table hdr row b Hs' Hu' Ht Hh Hr Hb).
Qed.

Lemma any_bowling_true md :
  any_bowling md = true <-> exists key l, bowling_stats md !! key = Some l /\ l <> [].
Proof.
  unfold any_bowling. rewrite existsb_exists. split.
  - intros [[key l] [Hin Hl]]. exists key, l. split.
    + apply elem_of_map_to_list, list_elem_of_In, Hin.
    + simpl in Hl. destruct l; [discriminate | discriminate].
  - intros (key & l & Hk & Hl). exists (key, l). split.
    + apply list_elem_of_In, elem_of_map_to_list, Hk.
    + simpl. destruct l; [contradiction | reflexivity].
Qed.

Lemma has_bowler_any_bowling n md : has_bowler n md -> any_bowling md = true.
Proof.
  intros (key & l & Hk & Hn). apply any_bowling_true. exists key, l. split; [exact Hk|].
  intros ->. inversion Hn.
Qed.

Lemma infer_for_run batting_key bowling_key md :
  infer_for batting_key bowling_key md = (md, Ok tt)
  \/ infer_for batting_key bowling_key md =
       (set_bowling_stats (insert bowling_key [placeholder_bowler md batting_key]) md, Ok tt)
     /\ contains "yet to bat" (team_score_lower md batting_key) = false.
Proof.
  unfold infer_for, bind, get, when, modify, ret.
  destruct (nonempty (team_score_lower md batting_key)); [|left; reflexivity].
  destruct (contains "yet to bat" (team_score_lower md batting_key)); [left; reflexivity|].
  cbn [negb andb].
  destruct (default [] (batting_stats md !! batting_key)); [left; reflexivity|].
  right. split; reflexivity.
Qed.

Lemma infer_for_inv batting_key bowling_key md :
  bowling_slots md -> bowling_unique md ->
  let md' := exec (infer_for batting_key bowling_key) md in
  bowling_slots md' /\ bowling_unique md' /\ snd (infer_for batting_key bowling_key md) = Ok tt
  /\ teams md' = teams md /\ batting_stats md' = batting_stats md.
Proof.
  intros Hs Hu. unfold exec.
  destruct (infer_for_run batting_key bowling_key md) as [-> | [-> _]]; cbn [fst snd].
  - split; [exact Hs|]. split; [exact Hu|]. repeat split.
  - split; [apply bowling_slots_insert, Hs|].
    split; [apply bowling_unique_insert; [exact Hu | apply NoDup_singleton]|].
    repeat split.
Qed.

Lemma infer_missing_inv md :
  bowling_slots md -> bowling_unique md ->
  let md' := exec _infer_missing_bowling_stats md in
  bowling_slots md' /\ bowling_unique md'.
Proof.
  intros Hs Hu. unfold _infer_missing_bowling_stats, exec, try_except. cbn [fst].
  unfold bind.
  destruct (infer_for_inv "team1" "team2" md Hs Hu) as (Hs1 & Hu1 & Hr1 & _).
  unfold exec in *. destruct (infer_for "team1" "team2" md) as [md1 o1]. cbn [fst snd] in *.
  subst o1.
  destruct (infer_for_inv "team2" "team1" md1 Hs1 Hu1) as (Hs2 & Hu2 & _).
  split; assumption.
Qed.

Lemma bowling_cleared_slots md : bowling_slots (bowling_cleared md).
Proof. split; unfold bowling_cleared, set_bowling_stats; simpl; eexists; reflexivity. Qed.

Lemma bowling_cleared_unique md : bowling_unique (bowling_cleared md).
Proof.
  intros key l. unfold bowling_cleared, set_bowling_stats; simpl.
  rewrite !lookup_insert. repeat case_decide.
  - intros [= <-]. constructor.
  - intros [= <-]. constructor.
  - rewrite lookup_empty. discriminate.
Qed.

Lemma parse_bowling_stats_body_run soup md :
  parse_bowling_stats_body soup md =
    let start := bowling_cleared md in
    let after_loop :=
      exec (bowling_tables_loop (resolve_current_bowling_team start) 0
              (find_bowling_tables soup)) start in
    (if any_bowling after_loop then after_loop
     else exec _infer_missing_bowling_stats after_loop, Ok tt).
Proof.
  unfold parse_bowling_stats_body, bind, modify, get. cbn [fst snd].
  fold (bowling_cleared md). cbv zeta.
  destruct (bowling_tables_loop_inv (resolve_current_bowling_team (bowling_cleared md))
              (find_bowling_tables soup) 0 (bowling_cleared md)
              (bowling_cleared_slots md) (bowling_cleared_unique md)) as (_ & _ & _ & Hret).
  unfold exec in *.
  destruct (bowling_tables_loop _ 0 (find_bowling_tables soup) (bowling_cleared md))
    as [md1 o]. cbn [fst snd] in *. subst o.
  destruct (any_bowling md1); reflexivity.
Qed.

Lemma resolve_bowling_cleared md :
  resolve_current_bowling_team (bowling_cleared md) = resolve_current_bowling_team md.
Proof. reflexivity. Qed.

Lemma parse_bowling_stats_run' soup md :
  exec (parse_bowling_stats soup) md =
    let start := bowling_cleared md in
    let after_loop :=
      exec (bowling_tables_loop (resolve_current_bowling_team md) 0
              (find_bowling_tables soup)) start in
    if any_bowling after_loop then after_loop
    else exec _infer_missing_bowling_stats after_loop.
Proof.
  unfold parse_bowling_stats, exec at 1, try_except. cbn [fst]. unfold exec at 1.
  rewrite parse_bowling_stats_body_run. reflexivity.
Qed.

(** After the bowling extractor both slots exist and no list holds a name
    twice. *)
Lemma parse_bowling_stats_inv soup md :
  let md' := exec (parse_bowling_stats soup) md in
  bowling_slots md' /\ bowling_unique md'.
Proof.
  cbv zeta. rewrite parse_bowling_stats_run'. cbv zeta.
  destruct (bowling_tables_loop_inv (resolve_current_bowling_team md)
              (find_bowling_tables soup) 0 (bowling_cleared md)
              (bowling_cleared_slots md) (bowling_cleared_unique md)) as (Hs & Hu & _).
  destruct (any_bowling _); [split; assumption|].
  apply infer_missing_inv; assumption.
Qed.

Lemma parse_bowling_stats_processes soup md table header_row row b :
  resolve_current_bowling_team md = None ->
  table ∈ find_bowling_tables soup -> bowling_header table = Some header_row ->
  row ∈ select_bowler_rows table header_row -> bowler_of_row row = Some b ->
  has_bowler (bowl_name b) (exec (parse_bowling_stats soup) md).
Proof.
  intros Hnone Ht Hh Hr Hb. rewrite parse_bowling_stats_run'. cbv zeta. rewrite Hnone.
  pose proof (bowling_tables_loop_processes (find_bowling_tables soup) 0
                (bowling_cleared md) table header_row row b
                (bowling_cleared_slots md) (bowling_cleared_unique md) Ht Hh Hr Hb) as H.
  rewrite (has_bowler_any_bowling _ _ H). exact H.
Qed.

Lemma any_team_won_true md :
  any_team_won md = true <-> exists key t, teams md !! key = Some t /\ t_won t = Some true.
Proof.
  unfold any_team_won. rewrite existsb_exists. split.
  - intros [[key t] [Hin Hw]]. exists key, t. split.
    + apply elem_of_map_to_list, list_elem_of_In, Hin.
    + simpl in Hw. destruct (t_won t) as [[|]|]; [reflexivity | discriminate | discriminate].
  - intros (key & t & Hk & Hw). exists (key, t). split.
    + apply list_elem_of_In, elem_of_map_to_list, Hk.
    + simpl. rewrite Hw. reflexivity.
Qed.

(** C7: when neither score is "yet to bat" and the status text carries a
    completion marker or some team's won flag is set, the role resolver
    leaves the current bowling team unset, no table is skipped for its
    team, and the bowler of every row of every recognised bowling table is
    entered in a bowling list. *)
Theorem completed_match_processes_every_table soup md :
  contains "yet to bat" (team_score_lower md "team1") = false ->
  contains "yet to bat" (team_score_lower md "team2") = false ->
  (status_says_completed md = true
   \/ exists key t, teams md !! key = Some t /\ t_won t = Some true) ->
  resolve_current_bowling_team md = None
  /\ (forall team, skips_table (resolve_current_bowling_team md) team = false)
  /\ (forall table header_row row b,
        table ∈ find_bowling_tables soup ->
        bowling_header table = Some header_row ->
        row ∈ select_bowler_rows table header_row ->
        bowler_of_row row = Some b ->
        has_bowler (bowl_name b) (exec (parse_bowling_stats soup) md)).
Proof.
  intros H1 H2 Hdone.
  assert (Hnone : resolve_current_bowling_team md = None).
  { unfold resolve_current_bowling_team. rewrite H2, H1.
    assert (match_completed md = true) as ->; [|reflexivity].
    unfold match_completed. destruct Hdone as [Hst | Hwon].
    - unfold status_says_completed in Hst. cbv zeta in *. rewrite Hst. reflexivity.
    - apply any_team_won_true in Hwon. rewrite Hwon. apply orb_true_r. }
  split; [exact Hnone|]. split; [rewrite Hnone; reflexivity|].
  intros table header_row row b. apply parse_bowling_stats_processes, Hnone.
Qed.

Lemma completed_match_processes_every_table_witness :
  let md := exec (parse_batting_stats Samples.finished)
              (exec (parse_teams_and_scores Samples.finished)
                 (exec (parse_match_info Samples.finished) Samples.fresh)) in
  resolve_current_bowling_team md = None
  /\ has_bowler "Bumrah" (exec (parse_bowling_stats Samples.finished) md)
  /\ has_bowler "Chahar" (exec (parse_bowling_stats Samples.finished) md).
Proof.
  cbv zeta.
  set (md := exec (parse_batting_stats Samples.finished) _).
  assert (H1 : contains "yet to bat" (team_score_lower md "team1") = false)
    by (vm_compute; reflexivity).
  assert (H2 : contains "yet to bat" (team_score_lower md "team2") = false)
    by (vm_compute; reflexivity).
  assert (H3 : status_says_completed md = true
               \/ exists key t, teams md !! key = Some t /\ t_won t = Some true)
    by (left; vm_compute; reflexivity).
  destruct (completed_match_processes_every_table Samples.finished md H1 H2 H3)
    as (Hnone & _ & Hall).
  split; [exact Hnone|]. split.
  - apply (Hall (Samples.second_tab_table
                   [Samples.bowler "Bumrah" "4" "22" "3"; Samples.bowler "Boult" "3.2" "35" "0"])
                (Some Samples.bowling_header_row)
                (Samples.bowler "Bumrah" "4" "22" "3")
                (mkBowlingEntry "Bumrah" "4" "0" "22" "3" "7.50" None)).
    + apply list_elem_of_In. vm_compute. right. left. reflexivity.
    + vm_compute. reflexivity.
    + apply list_elem_of_In. vm_compute. left. reflexivity.
    + vm_compute. reflexivity.
  - apply (Hall (Samples.bowling_table
                   [Samples.bowler "Chahar" "4" "31" "2"; Samples.bowler "Pathirana" "4" "38" "1"])
                (Some Samples.bowling_header_row)
                (Samples.bowler "Chahar" "4" "31" "2")
                (mkBowlingEntry "Chahar" "4" "0" "31" "2" "7.50" None)).
    + apply list_elem_of_In. vm_compute. left. reflexivity.
    + vm_compute. reflexivity.
    + apply list_elem_of_In. vm_compute. left. reflexivity.
    + vm_compute. reflexivity.
Defined.

(** ** One bowling entry per name *)






(** ** The stable sorts *)

Lemma insert_asc_perm {A} (key : A -> Z) x l : insert_asc key x l ≡ₚ x :: l.
Proof.
  induction l as [|y l IH]; simpl; [reflexivity|].
  destruct (key x <=? key y); [reflexivity|].
  rewrite IH. apply Permutation_swap.
Qed.

Lemma sort_asc_perm {A} (key : A -> Z) l : sort_asc key l ≡ₚ l.
Proof.
  induction l as [|x l IH]; simpl; [reflexivity|].
  unfold sort_asc in *. simpl. rewrite insert_asc_perm, IH. reflexivity.
Qed.

Lemma insert_desc_perm {A} (key : A -> Z) x l : insert_desc key x l ≡ₚ x :: l.
Proof.
  induction l as [|y l IH]; simpl; [reflexivity|].
  destruct (key y <=? key x); [reflexivity|].
  rewrite IH. apply Permutation_swap.
Qed.

Lemma sort_desc_perm {A} (key : A -> Z) l : sort_desc key l ≡ₚ l.
Proof.
  induction l as [|x l IH]; simpl; [reflexivity|].
  unfold sort_desc in *. simpl. rewrite insert_desc_perm, IH. reflexivity.
Qed.

(** A list whose keys already ascend is left as it is. *)
Lemma sort_asc_sorted {A} (key : A -> Z) l :
  StronglySorted (fun a b => key a <= key b) l -> sort_asc key l = l.
Proof.
  induction 1 as [|x l Hs IH Hx]; [reflexivity|].
  unfold sort_asc in *. simpl. rewrite IH.
  destruct l as [|y l]; [reflexivity|]. simpl.
  apply Forall_cons in Hx as [Hxy _].
  apply Z.leb_le in Hxy. rewrite Hxy. reflexivity.
Qed.

Lemma insert_desc_sorted {A} (key : A -> Z) x l :
  StronglySorted (fun a b => key b <= key a) l ->
  StronglySorted (fun a b => key b <= key a) (insert_desc key x l).
Proof.
  induction 1 as [|y l Hs IH Hy]; simpl.
  - repeat constructor.
  - destruct (key y <=? key x) eqn:E.
    + apply Z.leb_le in E. constructor; [constructor; assumption|].
      constructor; [exact E|].
      eapply Forall_impl; [exact Hy|]. intros z Hz. simpl in Hz. lia.
    + apply Z.leb_gt in E. constructor; [exact IH|].
      rewrite insert_desc_perm. constructor; [lia | exact Hy].
Qed.

Lemma sort_desc_sorted {A} (key : A -> Z) l :
  StronglySorted (fun a b => key b <= key a) (sort_desc key l).
Proof.
  induction l as [|x l IH]; [constructor|].
  unfold sort_desc in *. simpl. apply insert_desc_sorted, IH.
Qed.

(** ** Inferring dismissals *)

Lemma count_out_outs l : count_out l = Z.of_nat (outs l).
Proof. reflexivity. Qed.

Lemma outs_cons b l : outs (b :: l) = ((if b_is_out b then 1 else 0) + outs l)%nat.
Proof.
  unfold outs. rewrite filter_cons. destruct (b_is_out b) eqn:E.
  - rewrite decide_True by reflexivity. reflexivity.
  - rewrite decide_False by discriminate. reflexivity.
Qed.

Lemma outs_perm l l' : l ≡ₚ l' -> outs l = outs l'.
Proof. intros H. unfold outs. rewrite H. reflexivity. Qed.

Lemma eligibles_cons current b l :
  eligibles current (b :: l) =
    ((if eligible current b then 1 else 0) + eligibles current l)%nat.
Proof.
  unfold eligibles. rewrite filter_cons. destruct (eligible current b) eqn:E.
  - rewrite decide_True by reflexivity. reflexivity.
  - rewrite decide_False by discriminate. reflexivity.
Qed.

Lemma mark_first_0 current l : mark_first current 0 l = l.
Proof. destruct l; reflexivity. Qed.

(** The loop of the code marks exactly the first [wickets_down - out_batsmen]
    eligible batsmen, in list order. *)
Lemma mark_loop_mark_first current wickets_down l : forall out_batsmen,
  out_batsmen < wickets_down ->
  mark_loop current wickets_down out_batsmen l =
    mark_first current (Z.to_nat (wickets_down - out_batsmen)) l.
Proof.
  induction l as [|b l IH]; intros out Hlt.
  - simpl. destruct (Z.to_nat (wickets_down - out)); reflexivity.
  - destruct (Z.to_nat (wickets_down - out)) as [|n] eqn:En; [lia|].
    cbn [mark_loop mark_first]. unfold eligible.
    destruct (b_is_out b || bool_decide (b ∈ current)) eqn:E.
    + rewrite <- negb_orb, E. cbn [negb]. rewrite (IH out Hlt), En. reflexivity.
    + rewrite <- negb_orb, E. cbn [negb].
      destruct (wickets_down <=? out + 1) eqn:Ew.
      * apply Z.leb_le in Ew. assert (n = 0%nat) as -> by lia.
        rewrite mark_first_0. reflexivity.
      * apply Z.leb_gt in Ew. rewrite (IH (out + 1)) by lia.
        replace (Z.to_nat (wickets_down - (out + 1))) with n by lia. reflexivity.
Qed.

Lemma eligible_not_out current b : eligible current b = true -> b_is_out b = false.
Proof. unfold eligible. destruct (b_is_out b); [discriminate | reflexivity]. Qed.

Lemma outs_mark_first current l : forall n,
  outs (mark_first current n l) = (outs l + Nat.min n (eligibles current l))%nat.
Proof.
  induction l as [|b l IH]; intros n.
  - destruct n; simpl; unfold outs, eligibles; simpl; lia.
  - destruct n as [|n]; [rewrite mark_first_0; simpl; lia|].
    cbn [mark_first]. rewrite eligibles_cons.
    destruct (eligible current b) eqn:E.
    + rewrite !outs_cons, IH. rewrite (eligible_not_out _ _ E). simpl. lia.
    + rewrite !outs_cons, IH. lia.
Qed.

(** What [mark_first] changes: only eligible batsmen, and only to the
    generic dismissal. *)
Lemma mark_first_Forall2 current l : forall n,
  Forall2 (fun b r => r = b \/ (eligible current b = true /\ r = mark_as_out b))
    l (mark_first current n l).
Proof.
  induction l as [|b l IH]; intros n.
  - destruct n; constructor.
  - destruct n as [|n].
    + rewrite mark_first_0. apply Forall2_same_length_lookup. split; [reflexivity|].
      intros i x y Hx Hy. left. congruence.
    + cbn [mark_first]. destruct (eligible current b) eqn:E.
      * constructor; [right; split; [exact E | reflexivity] | apply IH].
      * constructor; [left; reflexivity | apply IH].
Qed.

(** ** Position order *)

Lemma row_index_present rows : forall i p r,
  NoDup (row_tag <$> rows) -> rows !! p = Some r ->
  row_index (row_tag r) rows i = (i + p)%nat.
Proof.
  induction rows as [|r0 rows IH]; intros i p r Hnd Hp; [discriminate|].
  rewrite fmap_cons in Hnd. apply NoDup_cons in Hnd as [Hr0 Hnd].
  destruct p as [|p]; simpl in *.
  - injection Hp as ->. rewrite decide_True by reflexivity. lia.
  - rewrite decide_False.
    + rewrite (IH (S i) p r Hnd Hp). lia.
    + intros Heq. apply Hr0. rewrite Heq. apply list_elem_of_fmap.
      exists r. split; [reflexivity|]. apply list_elem_of_lookup. eauto.
Qed.

Lemma batsman_of_row_row row b : batsman_of_row row = Some b -> b_row b = row_tag row.
Proof.
  unfold batsman_of_row. destruct (row_first_td (row_tag row)); [|discriminate].
  destruct (_ || _); [discriminate|].
  destruct (row_tds (row_tag row)) as [|? [|? [|? [|? [|? [|? ?]]]]]]; try discriminate.
  intros [= <-]. reflexivity.
Qed.

Lemma collect_batsmen_ascending rows :
  NoDup (row_tag <$> rows) ->
  forall later earlier, rows = earlier ++ later ->
    StronglySorted
      (fun a b => Z.of_nat (row_index (b_row a) rows 0) <= Z.of_nat (row_index (b_row b) rows 0))
      (collect_batsmen later)
    /\ Forall (fun b => (length earlier <= row_index (b_row b) rows 0)%nat)
         (collect_batsmen later).
Proof.
  intros Hnd. induction later as [|r later IH]; intros earlier Hrows.
  - split; constructor.
  - destruct (IH (earlier ++ [r])) as [Hs Hall].
    { rewrite <- app_assoc. exact Hrows. }
    rewrite length_app in Hall. simpl in Hall.
    unfold collect_batsmen in *. cbn [omap list_omap].
    destruct (batsman_of_row r) as [b|] eqn:Eb.
    + assert (Hkey : row_index (b_row b) rows 0 = length earlier).
      { rewrite (batsman_of_row_row _ _ Eb).
        rewrite (row_index_present rows 0 (length earlier) r Hnd); [lia|].
        rewrite Hrows. rewrite lookup_app_r by lia.
        replace (length earlier - length earlier)%nat with 0%nat by lia. reflexivity. }
      split.
      * constructor; [exact Hs|].
        eapply Forall_impl; [exact Hall|]. intros x Hx. simpl in Hx. rewrite Hkey. lia.
      * constructor; [lia|].
        eapply Forall_impl; [exact Hall|]. intros x Hx. simpl in Hx. lia.
    + split; [exact Hs|].
      eapply Forall_impl; [exact Hall|]. intros x Hx. simpl in Hx. lia.
Qed.

(** When the rows of the table are pairwise different, the position sort
    leaves the collected batsmen in the order of the table. *)
Lemma in_batting_order_id rows :
  NoDup (row_tag <$> rows) ->
  in_batting_order rows (collect_batsmen rows) = collect_batsmen rows.
Proof.
  intros Hnd. unfold in_batting_order. apply sort_asc_sorted.
  apply (collect_batsmen_ascending rows Hnd rows []). reflexivity.
Qed.

Lemma in_batting_order_perm rows l : in_batting_order rows l ≡ₚ l.
Proof. apply sort_asc_perm. Qed.

(** ** The current batsmen *)

Lemma insert_desc_fmap {A} (key : A -> Z) x l :
  insert_desc fst (key x, x) ((fun b => (key b, b)) <$> l) =
  (fun b => (key b, b)) <$> insert_desc key x l.
Proof.
  induction l as [|y l IH]; [reflexivity|]. cbn [fmap list_fmap insert_desc fst].
  destruct (key y <=? key x); [reflexivity|].
  change (list_fmap _ _ (fun b => (key b, b)) l) with ((fun b => (key b, b)) <$> l).
  rewrite IH. reflexivity.
Qed.

Lemma sort_desc_fmap {A} (key : A -> Z) (l : list A) :
  snd <$> sort_desc fst ((fun b => (key b, b)) <$> l) = sort_desc key l.
Proof.
  assert (H : sort_desc fst ((fun b => (key b, b)) <$> l)
              = (fun b => (key b, b)) <$> sort_desc key l).
  { induction l as [|x l IH]; [reflexivity|].
    unfold sort_desc in *. cbn [fmap list_fmap foldr].
    change (list_fmap _ _ (fun b => (key b, b)) l) with ((fun b => (key b, b)) <$> l).
    rewrite IH. apply insert_desc_fmap. }
  rewrite H, <- list_fmap_compose. apply list_fmap_id.
Qed.

Lemma keyed_runs l :
  Forall (fun b => is_Some (py_int (b_runs b))) l ->
  mapM (fun b => (fun k => (k, b)) <$> py_int (b_runs b)) l =
    Some ((fun b => (int_runs b, b)) <$> l).
Proof.
  intros H. apply mapM_Some_2. apply Forall2_fmap_r.
  apply Forall_Forall2_diag. eapply Forall_impl; [exact H|].
  intros b [k Hk]. unfold int_runs. simpl. rewrite Hk. reflexivity.
Qed.

(** The current batsmen are the first two of the list in descending order
    of runs. *)
Lemma highest_scorers_run l :
  Forall (fun b => is_Some (py_int (b_runs b))) l ->
  highest_scorers l = Some (take 2 (sort_desc int_runs l)).
Proof.
  intros H. unfold highest_scorers. rewrite (keyed_runs l H). simpl.
  rewrite sort_desc_fmap. reflexivity.
Qed.

(** A row whose runs are no integer makes the cross-check raise. *)
Lemma highest_scorers_raises l :
  ~ Forall (fun b => is_Some (py_int (b_runs b))) l -> highest_scorers l = None.
Proof.
  intros H. unfold highest_scorers.
  destruct (mapM _ l) as [keyed|] eqn:E; [|reflexivity].
  exfalso. apply H.
  assert (Hs : is_Some (mapM (fun b => (fun k => (k, b)) <$> py_int (b_runs b)) l))
    by (rewrite E; eauto).
  apply mapM_is_Some_1 in Hs. eapply Forall_impl; [exact Hs|].
  intros b [kb Hb]. simpl in Hb. destruct (py_int (b_runs b)); [eauto | discriminate].
Qed.

Lemma cross_check_run rows all wickets_down :
  count_out all < wickets_down ->
  Forall (fun b => is_Some (py_int (b_runs b))) all ->
  let sorted := in_batting_order rows all in
  cross_check rows all wickets_down =
    Some (mark_first (take 2 (sort_desc int_runs sorted))
            (Z.to_nat (wickets_down - count_out all)) sorted).
Proof.
  intros Hlt Hint sorted. unfold cross_check.
  apply Z.ltb_lt in Hlt as Hlt'. rewrite Hlt'. fold sorted.
  rewrite highest_scorers_run.
  - simpl. rewrite mark_loop_mark_first by exact Hlt. reflexivity.
  - subst sorted. rewrite in_batting_order_perm. exact Hint.
Qed.

(** ** One batting table *)

Lemma append_batting_loop_run key bs : forall l md,
  batting_stats md !! key = Some l ->
  append_batting_loop key bs md =
    (set_batting_stats (insert key (l ++ (batting_entry <$> bs))) md, Ok tt).
Proof.
  induction bs as [|b bs IH]; intros l md Hl.
  - simpl. unfold ret, set_batting_stats. destruct md; simpl in *.
    rewrite app_nil_r, insert_id by exact Hl. reflexivity.
  - cbn [append_batting_loop]. unfold bind, append_batting at 1. rewrite Hl.
    rewrite (IH (l ++ [batting_entry b])).
    + unfold set_batting_stats; simpl. rewrite insert_insert_eq, <- app_assoc. reflexivity.
    + unfold set_batting_stats; simpl. apply lookup_insert_eq.
Qed.

(** What one iteration of the batting table loop does. *)
Lemma batting_table_body_run bf bs count table md :
  batting_table_body bf bs count table md =
    if negb (match bat_header table with
             | Some text => contains "BATTERS" text
             | None => false
             end)
    then (md, Ok count)
    else
      let team_key := match count with O => bf | _ => bs end in
      if yet_to_bat (team_get md team_key t_score "") then (md, Ok count)
      else
        let md1 := set_batting_stats (insert team_key []) md in
        match py_int (team_get md team_key t_wickets "0") with
        | None => (md1, Raise ValueError)
        | Some wickets_down =>
            match cross_check (bat_rows table) (collect_batsmen (bat_rows table))
                    wickets_down with
            | None => (md1, Raise ValueError)
            | Some all_batsmen =>
                let md2 := set_batting_stats
                             (insert team_key (batting_entry <$> all_batsmen)) md in
                let overs := team_get md team_key t_overs "" in
                (if nonempty overs && contains "20" overs
                 then set_match_info (set_innings_status (team_key +:+ "_complete")) md2
                 else md2,
                 Ok (match all_batsmen with [] => count | _ => S count end))
            end
        end.
Proof.
  unfold batting_table_body.
  destruct (negb _); [reflexivity|]. cbv zeta.
  unfold bind at 1. unfold get at 1. cbn [fst snd].
  destruct (yet_to_bat _); [reflexivity|].
  unfold bind at 1. unfold modify at 1. cbn [fst snd].
  unfold bind at 1.
  destruct (py_int (team_get md _ t_wickets "0")) as [wk|]; [|reflexivity].
  cbn [value_of ret fst snd]. unfold ret at 1.
  unfold bind at 1.
  destruct (cross_check _ _ wk) as [res|]; [|reflexivity].
  cbn [value_of]. unfold ret at 1.
  unfold bind at 1.
  rewrite (append_batting_loop_run _ res []).
  2:{ unfold set_batting_stats; simpl. apply lookup_insert_eq. }
  unfold bind at 1. unfold get at 1.
  unfold bind at 1. cbn [batting_stats set_batting_stats].
  rewrite insert_insert_eq, lookup_insert_eq. cbn [value_of_key app]. unfold ret at 1.
  unfold bind, when, modify, ret.
  destruct (nonempty _ && contains "20" _); cbn [fst snd];
    (f_equal; [|destruct res; reflexivity]).
  - unfold set_match_info, set_batting_stats; simpl. rewrite insert_insert_eq. reflexivity.
  - unfold set_batting_stats; simpl. rewrite insert_insert_eq. reflexivity.
Qed.

(** A batsman flagged out never carries the label "not out". *)
Lemma batsman_of_row_label row b :
  batsman_of_row row = Some b -> b_is_out b = true -> b_dismissal b <> "not out".
Proof.
  unfold batsman_of_row. destruct (row_first_td (row_tag row)) as [nc|]; [|discriminate].
  destruct (_ || _); [discriminate|].
  destruct (row_tds (row_tag row)) as [|? [|? [|? [|? [|? [|? ?]]]]]]; try discriminate.
  intros [= <-]. cbn [b_is_out b_dismissal].
  assert (Hnote : forall t, nonempty (strip t) && negb (contains "not out" (lower (strip t))) = true
                            -> strip t <> "not out").
  { intros t Ht Heq. rewrite Heq in Ht. vm_compute in Ht. discriminate Ht. }
  destruct (row_next_note row) as [t|];
    [destruct (nonempty (strip t) && negb (contains "not out" (lower (strip t)))) eqn:En|];
    destruct (elem_of_strb "bold" (nc_class nc) || elem_of_strb "ckt_dis" (nc_class nc));
    destruct (nc_strike nc); cbn [fst snd];
    try discriminate;
    repeat match goal with
           | |- context [String.eqb ?a ?b] => destruct (String.eqb a b) eqn:?
           end;
    try discriminate; intros _;
    try (apply Hnote; exact En);
    try (intros Heq; rewrite Heq in *; discriminate).
Qed.

Lemma collect_batsmen_labelled rows : Forall labelled (collect_batsmen rows).
Proof.
  apply Forall_forall. intros b Hb. apply list_elem_of_omap in Hb as [row [_ Hrow]].
  intros Hout. apply (batsman_of_row_label row b Hrow Hout).
Qed.

Lemma mark_first_labelled current l : forall n,
  Forall labelled l -> Forall labelled (mark_first current n l).
Proof.
  induction l as [|b l IH]; intros n Hl.
  - destruct n; constructor.
  - destruct n as [|n]; [rewrite mark_first_0; exact Hl|].
    apply Forall_cons in Hl as [Hb Hl]. cbn [mark_first].
    destruct (eligible current b).
    + constructor; [intros _; discriminate | apply IH, Hl].
    + constructor; [exact Hb | apply IH, Hl].
Qed.

(** The entries written for a table are flagged out exactly where the
    batsmen are. *)
Lemma out_entries_length l :
  Forall labelled l -> length (out_entries (batting_entry <$> l)) = outs l.
Proof.
  induction 1 as [|b l Hb Hl IH]; [reflexivity|].
  unfold out_entries, outs in *. rewrite fmap_cons, !filter_cons.
  destruct (decide (bat_dismissal (batting_entry b) <> "not out")) as [Hd|Hd];
    destruct (decide (b_is_out b = true)) as [Ho|Ho]; simpl; rewrite ?IH;
    try reflexivity; exfalso.
  - apply Hd. unfold batting_entry; simpl. destruct (b_is_out b); [contradiction | reflexivity].
  - apply Hd. unfold batting_entry; simpl. rewrite Ho. apply Hb, Ho.
Qed.

Lemma eligible_spec current b :
  eligible current b = true <-> b_is_out b = false /\ (b ∉ current).
Proof.
  unfold eligible. rewrite andb_true_iff, !negb_true_iff, bool_decide_eq_false. reflexivity.
Qed.

Lemma eligibles_all_not_out current l :
  Forall (fun b => b_is_out b = false -> b ∉ current) l ->
  (eligibles current l + outs l = length l)%nat.
Proof.
  induction 1 as [|b l Hb Hl IH]; [reflexivity|].
  rewrite eligibles_cons, outs_cons. simpl.
  destruct (b_is_out b) eqn:Eo.
  - assert (eligible current b = false) as ->.
    { unfold eligible. rewrite Eo. reflexivity. }
    lia.
  - assert (eligible current b = true) as ->.
    { apply eligible_spec. split; [exact Eo | apply Hb; reflexivity]. }
    lia.
Qed.

Lemma insert_asc_sorted {A} (key : A -> Z) x l :
  StronglySorted (fun a b => key a <= key b) l ->
  StronglySorted (fun a b => key a <= key b) (insert_asc key x l).
Proof.
  induction 1 as [|y l Hs IH Hy]; simpl.
  - repeat constructor.
  - destruct (key x <=? key y) eqn:E.
    + apply Z.leb_le in E. constructor; [constructor; assumption|].
      constructor; [exact E|].
      eapply Forall_impl; [exact Hy|]. intros z Hz. simpl in Hz. lia.
    + apply Z.leb_gt in E. constructor; [exact IH|].
      rewrite insert_asc_perm. constructor; [lia | exact Hy].
Qed.

Lemma in_batting_order_sorted rows l :
  StronglySorted
    (fun a b => (row_index (b_row a) rows 0 <= row_index (b_row b) rows 0)%nat)
    (in_batting_order rows l).
Proof.
  assert (H : StronglySorted
                (fun a b => Z.of_nat (row_index (b_row a) rows 0)
                            <= Z.of_nat (row_index (b_row b) rows 0))
                (in_batting_order rows l)).
  { unfold in_batting_order, sort_asc.
    induction l as [|x l IH]; [constructor|]. simpl. apply insert_asc_sorted, IH. }
  revert H. generalize (in_batting_order rows l). intros s H.
  induction H as [|x s Hs IH Hx]; constructor; [exact IH|].
  eapply Forall_impl; [exact Hx|]. intros z Hz. simpl in Hz. lia.
Qed.

(** C3 (amended): for a batting table whose team's recorded wicket count
    exceeds the number of rows detected as out, and whose runs cells all
    read as integers, the extractor writes the rows sorted by position,
    each row at the position of the first row of the table equal to it
    (the order of the table when its rows are pairwise different; a row
    equal to an earlier one moves up behind it), and marks out, with the
    label "out", the first rows in that order that are neither out already
    nor equal to one of the two first rows in descending order of runs,
    until the count of rows out reaches the wicket count or no such row is
    left: the rows out number the smaller of the wicket count and the
    detected count plus the rows that could be marked.  For six rows, four
    of them detected out, and a wicket count of 6, six rows end up out when
    neither of the two other rows is among those two highest scorers. *)
Theorem dismissals_inferred_in_table_order bf bs count table md wickets_down :
  let rows := bat_rows table in
  let team_key := match count with O => bf | _ => bs end in
  let detected := collect_batsmen rows in
  let sorted := in_batting_order rows detected in
  let current := take 2 (sort_desc int_runs sorted) in
  let marked := mark_first current (Z.to_nat (wickets_down - count_out detected)) sorted in
  is_batting_table table = true ->
  yet_to_bat (team_get md team_key t_score "") = false ->
  py_int (team_get md team_key t_wickets "0") = Some wickets_down ->
  count_out detected < wickets_down ->
  Forall (fun b => is_Some (py_int (b_runs b))) detected ->
  batting_stats (exec (batting_table_body bf bs count table) md) !! team_key
    = Some (batting_entry <$> marked)
  /\ cross_check rows detected wickets_down = Some marked
  /\ sorted ≡ₚ detected
  /\ StronglySorted
       (fun a b => (row_index (b_row a) rows 0 <= row_index (b_row b) rows 0)%nat) sorted
  /\ (NoDup (row_tag <$> rows) -> sorted = detected)
  /\ sort_desc int_runs sorted ≡ₚ detected
  /\ StronglySorted (fun a b => int_runs b <= int_runs a) (sort_desc int_runs sorted)
  /\ Forall2 (fun b r => r = b \/ (b_is_out b = false /\ (b ∉ current) /\ r = mark_as_out b))
       sorted marked
  /\ Z.of_nat (length (out_entries (batting_entry <$> marked)))
     = Z.min wickets_down (count_out detected + Z.of_nat (eligibles current sorted))
  /\ (length detected = 6%nat -> count_out detected = 4 -> wickets_down = 6 ->
      Forall (fun b => b_is_out b = false -> b ∉ current) sorted ->
      length (out_entries (batting_entry <$> marked)) = 6%nat).
Proof.
  intros rows team_key detected sorted current marked Hhdr Hyet Hwk Hlt Hint.
  assert (Hcc : cross_check rows detected wickets_down = Some marked)
    by (apply cross_check_run; assumption).
  assert (Hperm : sorted ≡ₚ detected) by apply in_batting_order_perm.
  assert (Hlab : Forall labelled marked).
  { apply mark_first_labelled. unfold sorted. rewrite in_batting_order_perm.
    apply collect_batsmen_labelled. }
  assert (Hcount : Z.of_nat (length (out_entries (batting_entry <$> marked)))
                   = Z.min wickets_down (count_out detected + Z.of_nat (eligibles current sorted))).
  { rewrite (out_entries_length _ Hlab). unfold marked. rewrite outs_mark_first.
    rewrite (outs_perm _ _ Hperm). rewrite count_out_outs in *. lia. }
  split.
  { unfold exec. rewrite batting_table_body_run. unfold is_batting_table in Hhdr.
    rewrite Hhdr. cbn [negb]. cbv zeta. fold team_key. rewrite Hyet, Hwk.
    fold rows. fold detected. rewrite Hcc.
    destruct (nonempty _ && contains "20" _); cbn [fst];
      unfold set_match_info, set_batting_stats; cbn [batting_stats];
      apply lookup_insert_eq. }
  split; [exact Hcc|]. split; [exact Hperm|].
  split; [apply in_batting_order_sorted|].
  split; [intros Hnd; apply in_batting_order_id, Hnd|].
  split; [rewrite sort_desc_perm; exact Hperm|].
  split; [apply sort_desc_sorted|].
  split.
  { eapply Forall2_impl; [apply mark_first_Forall2|].
    intros b r [->|[He ->]]; [left; reflexivity|].
    apply eligible_spec in He as [Ho Hc]. right. auto. }
  split; [exact Hcount|].
  intros Hlen H4 -> Hfree.
  pose proof (eligibles_all_not_out current sorted Hfree) as He.
  rewrite (outs_perm _ _ Hperm) in He.
  pose proof (Permutation_length Hperm) as Hsame.
  rewrite count_out_outs in *. lia.
Qed.

(** C3 (as stated, refuted): six rows, four of them dismissed by footnote,
    and a recorded wicket count of 6; the two other rows are the two highest
    scorers, so no row is marked and four rows, not six, end up out. *)
Lemma six_rows_four_out_stay_four :
  let md := exec (update "2025-04-01 20:41:07" (Some Samples.openers_still_in)) Samples.fresh in
  (t_wickets <$> teams md !! "team1") = Some (Some "6")
  /\ exists l, batting_stats md !! "team1" = Some l
              /\ length l = 6%nat /\ length (out_entries l) = 4%nat.
Proof.
  cbv zeta. split; [vm_compute; reflexivity|].
  eexists. split; [vm_compute; reflexivity|]. split; vm_compute; reflexivity.
Qed.

Lemma dismissals_inferred_in_table_order_witness :
  let table := Samples.scorecard
                 [Samples.batter "Rohit" "60" (Some "c Dhoni b Chahar");
                  Samples.batter "Kishan" "45" (Some "b Pathirana");
                  Samples.batter "Surya" "10" None;
                  Samples.batter "Tilak" "8" (Some "lbw b Jadeja");
                  Samples.batter "Hardik" "5" None;
                  Samples.batter "David" "1" (Some "run out (Gaikwad)")] in
  let md := exec (parse_teams_and_scores Samples.openers_gone) Samples.fresh in
  exists l, batting_stats (exec (batting_table_body "team1" "team2" 0 table) md) !! "team1"
            = Some l
            /\ length l = 6%nat /\ length (out_entries l) = 6%nat.
Proof.
  cbv zeta. eexists. split.
  - refine (proj1 (dismissals_inferred_in_table_order "team1" "team2" 0 _
                     (exec (parse_teams_and_scores Samples.openers_gone) Samples.fresh)
                     6 _ _ _ _ _)).
    + vm_compute; reflexivity.
    + vm_compute; reflexivity.
    + vm_compute; reflexivity.
    + vm_compute; reflexivity.
    + repeat constructor; vm_compute; eauto.
  - split; vm_compute; reflexivity.
Defined.

(** ** One team section *)

Lemma put_slot_same key md : put_slot key (teams md !! key) md = md.
Proof.
  unfold put_slot. destruct (teams md !! key) as [t|] eqn:E; [|reflexivity].
  unfold set_teams. destruct md; simpl in *. rewrite insert_id by exact E. reflexivity.
Qed.

Lemma put_slot_put key a b md :
  put_slot key (Some b) (put_slot key a md) = put_slot key (Some b) md.
Proof.
  destruct a as [a|]; [|reflexivity]. unfold put_slot, set_teams; simpl.
  rewrite insert_insert_eq. reflexivity.
Qed.

Lemma put_slot_lookup key t md : teams (put_slot key (Some t) md) !! key = Some t.
Proof. unfold put_slot, set_teams; simpl. apply lookup_insert_eq. Qed.

Lemma update_team_run key f md t :
  teams md !! key = Some t ->
  update_team key f md = (put_slot key (Some (f t)) md, Ok tt).
Proof. intros H. unfold update_team. rewrite H. reflexivity. Qed.

Lemma update_team_raises key f md :
  teams md !! key = None -> update_team key f md = (md, Raise KeyError).
Proof. intros H. unfold update_team. rewrite H. reflexivity. Qed.

(** The two steps that set the [won] flag, on a state whose slot is
    [slot]. *)
Lemma won_steps_run key section md slot :
  teams md !! key = slot ->
  (when (has_won_class (name_elem section)) (update_team key set_won) ;;
   when (has_won_class (score_elem section)) (update_team key set_won))%py md
  = (put_slot key (won_steps section slot).1 md, (won_steps section slot).2).
Proof.
  intros Hslot. unfold won_steps, won_step, bind, when, ret.
  destruct (has_won_class (name_elem section)), (has_won_class (score_elem section));
    destruct slot as [t|]; cbn [fst snd];
    rewrite ?(update_team_run _ _ _ _ Hslot), ?(update_team_raises _ _ _ Hslot);
    cbn [fst snd];
    rewrite ?(update_team_run _ _ _ _ (put_slot_lookup _ _ _)), ?put_slot_put;
    rewrite ?(update_team_run _ _ _ _ Hslot), ?(update_team_raises _ _ _ Hslot);
    try reflexivity;
    try (rewrite <- Hslot, put_slot_same; reflexivity).
Qed.

Lemma won_steps_some section t :
  exists t', won_steps section (Some t) = (Some t', Ok tt).
Proof.
  unfold won_steps, won_step.
  destruct (has_won_class (name_elem section)), (has_won_class (score_elem section)); eauto.
Qed.

(** What one iteration of the team loop does: it reads and writes the slot
    of its team only. *)
Lemma team_section_body_run i section md :
  team_section_body i section md =
    (put_slot (team_key i) (slot_step section (teams md !! team_key i)).1 md,
     (slot_step section (teams md !! team_key i)).2).
Proof.
  unfold team_section_body, slot_step. cbv zeta.
  set (key := team_key i).
  set (named := match name_elem section with
                | Some e => Some (new_team (strip (elem_text e)))
                | None => teams md !! key
                end).
  set (md1 := match name_elem section with
              | Some e => put_slot key (Some (new_team (strip (elem_text e)))) md
              | None => md
              end).
  assert (Hnamed : teams md1 !! key = named).
  { subst md1 named. destruct (name_elem section); [apply put_slot_lookup | reflexivity]. }
  assert (Hput : forall a, put_slot key (Some a) md1 = put_slot key (Some a) md).
  { intros a. subst md1. destruct (name_elem section); [apply put_slot_put | reflexivity]. }
  assert (Hsame : put_slot key named md = md1).
  { subst md1 named. destruct (name_elem section); [reflexivity | apply put_slot_same]. }
  assert (Hfirst : when_some (name_elem section)
                     (fun e => modify (set_teams (insert key (new_team (strip (elem_text e))))))
                     md = (md1, Ok tt)).
  { subst md1. destruct (name_elem section); reflexivity. }
  unfold bind at 1. rewrite Hfirst. clear Hfirst.
  destruct (score_elem section) as [e|] eqn:Escore.
  - destruct (yet_to_bat (strip (elem_text e))) eqn:Eyet.
    + unfold bind. destruct named as [t|] eqn:En.
      * rewrite (update_team_run _ _ _ _ Hnamed). cbn [fst snd when ret]. unfold ret.
        rewrite Hput. reflexivity.
      * rewrite (update_team_raises _ _ _ Hnamed). cbn [fst snd].
        rewrite <- Hsame. reflexivity.
    + unfold bind at 1. unfold bind at 1. unfold lift.
      destruct (score_fields (strip (elem_text e))) as [fields|ex]; cbn [fst snd].
      2:{ rewrite <- Hsame. reflexivity. }
      unfold bind at 1. destruct named as [t|] eqn:En.
      * rewrite (update_team_run _ _ _ _ Hnamed). cbn [fst snd ret when].
        rewrite <- Escore.
        rewrite (won_steps_run key section _ (Some (set_score fields t)));
          [|apply put_slot_lookup].
        destruct (won_steps_some section (set_score fields t)) as [w ->]. cbn [fst snd].
        rewrite put_slot_put, Hput. reflexivity.
      * rewrite (update_team_raises _ _ _ Hnamed). cbn [fst snd].
        rewrite <- Hsame. reflexivity.
  - unfold bind at 1. cbn [ret fst snd when]. rewrite <- Escore.
    rewrite (won_steps_run key section md1 named Hnamed).
    destruct named as [t|] eqn:En.
    + destruct (won_steps_some section t) as [w ->]. cbn [fst snd].
      rewrite Hput. reflexivity.
    + rewrite <- Hsame. unfold won_steps, won_step.
      destruct (has_won_class (name_elem section)), (has_won_class (score_elem section));
        reflexivity.
Qed.

(** ** Facts about the string operations *)

Lemma app_nil (b : string) : "" +:+ b = b.
Proof. reflexivity. Qed.

Lemma app_cons c (a b : string) : String c a +:+ b = String c (a +:+ b).
Proof. reflexivity. Qed.

(** Unfolds the appends whose left operand starts with a known character. *)
Ltac norm_app := rewrite ?app_cons, ?app_nil.

Lemma app_empty_r (s : string) : s +:+ "" = s.
Proof. induction s as [|c s IH]; norm_app; [reflexivity | rewrite IH; reflexivity]. Qed.

Lemma app_assoc_str (a b c : string) : (a +:+ b) +:+ c = a +:+ (b +:+ c).
Proof. induction a as [|x a IH]; norm_app; [reflexivity | rewrite IH; reflexivity]. Qed.

Lemma plain_char_spec c :
  plain_char c = true ->
  isspace c = false /\ Ascii.eqb c "/" = false /\ Ascii.eqb c "(" = false
  /\ Ascii.eqb c ")" = false.
Proof.
  unfold plain_char. rewrite !andb_true_iff, !negb_true_iff. tauto.
Qed.

Lemma startswith_app p s : startswith p s = true -> exists b, s = p +:+ b.
Proof.
  revert s. induction p as [|a p IH]; intros s H.
  - exists s. reflexivity.
  - destruct s as [|c s]; [discriminate|]. simpl in H.
    apply andb_true_iff in H as [Hac Hp]. apply Ascii.eqb_eq in Hac as ->.
    destruct (IH s Hp) as [b ->]. exists b. reflexivity.
Qed.

Lemma contains_app p s : contains p s = true -> exists a b, s = a +:+ p +:+ b.
Proof.
  induction s as [|c s IH]; simpl; intros H.
  - rewrite orb_false_r in H. apply startswith_app in H as [b Hb].
    exists "", b. exact Hb.
  - apply orb_true_iff in H as [H|H].
    + apply startswith_app in H as [b Hb]. exists "", b. exact Hb.
    + destruct (IH H) as (a & b & ->). exists (String c a), b. reflexivity.
Qed.

Lemma count_char_app c a b : count_char c (a +:+ b) = (count_char c a + count_char c b)%nat.
Proof. induction a as [|x a IH]; norm_app; simpl; [reflexivity | rewrite IH; lia]. Qed.

Lemma contains_count c p s : contains p s = true -> (count_char c p <= count_char c s)%nat.
Proof.
  intros H. apply contains_app in H as (a & b & ->). rewrite !count_char_app. lia.
Qed.

Lemma lower_char_space c : Ascii.eqb (lower_char c) " " = Ascii.eqb c " ".
Proof. destruct c as [[] [] [] [] [] [] [] []]; reflexivity. Qed.

Lemma count_space_lower s : count_char " " (lower s) = count_char " " s.
Proof.
  induction s as [|c s IH]; [reflexivity|]. simpl. rewrite lower_char_space, IH. reflexivity.
Qed.

Lemma isspace_space c : Ascii.eqb c " " = true -> isspace c = true.
Proof. intros H. apply Ascii.eqb_eq in H as ->. reflexivity. Qed.

Lemma plain_no_space s : plain s = true -> count_char " " s = 0%nat.
Proof.
  induction s as [|c s IH]; [reflexivity|]. simpl. intros H.
  apply andb_true_iff in H as [Hc Hs]. rewrite (IH Hs).
  apply plain_char_spec in Hc as (Hsp & _).
  destruct (Ascii.eqb c " ") eqn:E; [|reflexivity].
  apply isspace_space in E. congruence.
Qed.

Lemma plain_app a b : plain (a +:+ b) = plain a && plain b.
Proof.
  induction a as [|c a IH]; norm_app; simpl; [reflexivity | rewrite IH, andb_assoc; reflexivity].
Qed.

(** Splitting on a separator. *)
Lemma split_on_absent sep s : count_char sep s = 0%nat -> split_on sep s = [s].
Proof.
  induction s as [|c s IH]; [reflexivity|]. simpl.
  destruct (Ascii.eqb c sep); [discriminate|]. simpl. intros H. rewrite (IH H). reflexivity.
Qed.

Lemma split_on_app sep a b :
  count_char sep a = 0%nat -> split_on sep (a +:+ String sep b) = a :: split_on sep b.
Proof.
  induction a as [|c a IH]; norm_app; simpl.
  - intros _. rewrite Ascii.eqb_refl. reflexivity.
  - destruct (Ascii.eqb c sep); [discriminate|]. simpl. intros H. rewrite (IH H). reflexivity.
Qed.

Lemma mem_char_count c s : mem_char c s = negb (Nat.eqb (count_char c s) 0).
Proof.
  unfold mem_char. induction s as [|a s IH]; [reflexivity|].
  cbn [contains startswith count_char]. rewrite IH.
  destruct (Ascii.eqb c a) eqn:E.
  - apply Ascii.eqb_eq in E as ->. rewrite Ascii.eqb_refl. destruct s; reflexivity.
  - rewrite Ascii.eqb_sym, E. reflexivity.
Qed.

Lemma plain_count c s :
  plain s = true -> plain_char c = false -> count_char c s = 0%nat.
Proof.
  intros Hs Hc. induction s as [|a s IH]; [reflexivity|]. simpl in *.
  apply andb_true_iff in Hs as [Ha Hs]. rewrite (IH Hs).
  destruct (Ascii.eqb a c) eqn:E; [|reflexivity].
  apply Ascii.eqb_eq in E as ->. congruence.
Qed.

Lemma remove_char_absent c s : count_char c s = 0%nat -> remove_char c s = s.
Proof.
  induction s as [|a s IH]; [reflexivity|]. simpl.
  destruct (Ascii.eqb a c); [discriminate|]. simpl. intros H. rewrite (IH H). reflexivity.
Qed.

Lemma remove_char_app c a b : remove_char c (a +:+ b) = remove_char c a +:+ remove_char c b.
Proof.
  induction a as [|x a IH]; [reflexivity|]. norm_app. simpl.
  destruct (Ascii.eqb x c); norm_app; simpl; rewrite IH; reflexivity.
Qed.

(** Stripping. *)
Lemma plain_isspace s : plain s = true -> forall a b c, s = a +:+ String c b -> isspace c = false.
Proof.
  induction s as [|x s IH]; intros H a b c Heq.
  - destruct a; discriminate.
  - simpl in H. apply andb_true_iff in H as [Hx Hs].
    destruct a as [|y a]; rewrite ?app_cons, ?app_nil in Heq; injection Heq as -> ->.
    + apply plain_char_spec in Hx. tauto.
    + eapply IH; [exact Hs | reflexivity].
Qed.

Lemma lstrip_while_first f c s : f c = false -> lstrip_while f (String c s) = String c s.
Proof. intros H. simpl. rewrite H. reflexivity. Qed.

Lemma rstrip_while_plain s : plain s = true -> rstrip_while isspace s = s.
Proof.
  induction s as [|c s IH]; [reflexivity|]. simpl. intros H.
  apply andb_true_iff in H as [Hc Hs]. rewrite (IH Hs).
  apply plain_char_spec in Hc as (Hsp & _). rewrite Hsp. destruct s; reflexivity.
Qed.

Lemma lstrip_while_plain s : plain s = true -> lstrip_while isspace s = s.
Proof.
  destruct s as [|c s]; [reflexivity|]. simpl. intros H.
  apply andb_true_iff in H as [Hc _]. apply plain_char_spec in Hc as (Hsp & _).
  rewrite Hsp. reflexivity.
Qed.

Lemma strip_plain s : plain s = true -> strip s = s.
Proof. intros H. unfold strip. rewrite lstrip_while_plain, rstrip_while_plain; auto. Qed.

Lemma rstrip_while_nonempty f c a : f c = false -> rstrip_while f (String c a) <> "".
Proof.
  intros Hc. simpl. destruct (rstrip_while f a); [rewrite Hc|]; discriminate.
Qed.

(** A suffix that is not stripped away protects what stands before it. *)
Lemma rstrip_while_app f t : rstrip_while f t <> "" -> forall s,
  rstrip_while f (s +:+ t) = s +:+ rstrip_while f t.
Proof.
  intros Ht. remember (rstrip_while f t) as r eqn:Er.
  induction s as [|x s IH]; [norm_app; symmetry; exact Er|].
  norm_app. cbn [rstrip_while]. rewrite IH.
  destruct (s +:+ r) eqn:E; [|reflexivity].
  exfalso. destruct s; rewrite ?app_nil, ?app_cons in E; [contradiction | discriminate].
Qed.

Lemma rstrip_space_after s :
  plain s = true -> rstrip_while isspace (s +:+ " ") = s.
Proof.
  induction s as [|c s IH]; [reflexivity|]. norm_app. simpl. intros H.
  apply andb_true_iff in H as [Hc Hs]. rewrite (IH Hs).
  apply plain_char_spec in Hc as (Hsp & _). rewrite Hsp. destruct s; reflexivity.
Qed.

Lemma strip_space_after s : plain s = true -> strip (s +:+ " ") = s.
Proof.
  intros H. unfold strip. destruct s as [|c s]; [reflexivity|].
  assert (Hc : isspace c = false).
  { simpl in H. apply andb_true_iff in H as [Hc _]. apply plain_char_spec in Hc. tauto. }
  norm_app. rewrite lstrip_while_first by exact Hc.
  apply (rstrip_space_after (String c s) H).
Qed.

Lemma plain_nospace s : plain s = true -> nospace s = true.
Proof.
  induction s as [|c s IH]; [reflexivity|]. simpl. intros H.
  apply andb_true_iff in H as [Hc Hs]. rewrite (IH Hs).
  apply plain_char_spec in Hc as (-> & _). reflexivity.
Qed.

Lemma nospace_app a b : nospace (a +:+ b) = nospace a && nospace b.
Proof.
  induction a as [|c a IH]; norm_app; simpl; [reflexivity | rewrite IH, andb_assoc; reflexivity].
Qed.

Lemma nospace_count_space s : nospace s = true -> count_char " " s = 0%nat.
Proof.
  induction s as [|c s IH]; [reflexivity|]. simpl. intros H.
  apply andb_true_iff in H as [Hc Hs]. rewrite (IH Hs). apply negb_true_iff in Hc.
  destruct (Ascii.eqb c " ") eqn:E; [|reflexivity].
  apply isspace_space in E. congruence.
Qed.

Lemma rstrip_nospace s : nospace s = true -> rstrip_while isspace s = s.
Proof.
  induction s as [|c s IH]; [reflexivity|]. simpl. intros H.
  apply andb_true_iff in H as [Hc Hs]. rewrite (IH Hs). apply negb_true_iff in Hc.
  rewrite Hc. destruct s; reflexivity.
Qed.

Lemma lstrip_nospace s : nospace s = true -> lstrip_while isspace s = s.
Proof.
  destruct s as [|c s]; [reflexivity|]. simpl. intros H.
  apply andb_true_iff in H as [Hc _]. apply negb_true_iff in Hc. rewrite Hc. reflexivity.
Qed.

Lemma strip_nospace s : nospace s = true -> strip s = s.
Proof. intros H. unfold strip. rewrite lstrip_nospace, rstrip_nospace; auto. Qed.

Lemma rstrip_nospace_blank s : nospace s = true -> rstrip_while isspace (s +:+ " ") = s.
Proof.
  induction s as [|c s IH]; [reflexivity|]. norm_app. simpl. intros H.
  apply andb_true_iff in H as [Hc Hs]. rewrite (IH Hs). apply negb_true_iff in Hc.
  rewrite Hc. destruct s; reflexivity.
Qed.

Lemma strip_nospace_blank s : nospace s = true -> strip (s +:+ " ") = s.
Proof.
  intros H. unfold strip. destruct s as [|c s]; [reflexivity|].
  assert (Hc : isspace c = false).
  { simpl in H. apply andb_true_iff in H as [Hc _]. apply negb_true_iff in Hc. exact Hc. }
  norm_app. rewrite lstrip_while_first by exact Hc.
  apply (rstrip_nospace_blank (String c s) H).
Qed.

Lemma split_ws_nospace s :
  nospace s = true -> s <> "" -> split_ws_go s = ([s], true).
Proof.
  induction s as [|c s IH]; [contradiction|]. intros H _. simpl in H.
  apply andb_true_iff in H as [Hc Hs]. apply negb_true_iff in Hc.
  cbn [split_ws_go]. destruct s as [|d s].
  - simpl. rewrite Hc. reflexivity.
  - rewrite (IH Hs) by discriminate. rewrite Hc. reflexivity.
Qed.

(** ** Scores *)

(** The [won] steps change no other field. *)
Lemma won_steps_fields section t :
  exists t', won_steps section (Some t) = (Some t', Ok tt)
    /\ t_name t' = t_name t /\ t_score t' = t_score t /\ t_runs t' = t_runs t
    /\ t_wickets t' = t_wickets t /\ t_overs t' = t_overs t
    /\ t_innings_complete t' = t_innings_complete t.
Proof.
  unfold won_steps, won_step.
  destruct (has_won_class (name_elem section)), (has_won_class (score_elem section));
    eexists; (split; [reflexivity|]); repeat split.
Qed.

Lemma team_section_body_exec i section md :
  teams (exec (team_section_body i section) md) !! team_key i
    = match (slot_step section (teams md !! team_key i)).1 with
      | Some t => Some t
      | None => teams md !! team_key i
      end.
Proof.
  unfold exec. rewrite team_section_body_run. cbn [fst].
  destruct (slot_step section (teams md !! team_key i)).1 as [t|]; [|reflexivity].
  apply put_slot_lookup.
Qed.

Lemma team_section_body_returns i section md :
  returns (team_section_body i section) md <->
  (slot_step section (teams md !! team_key i)).2 = Ok tt.
Proof.
  unfold returns. rewrite team_section_body_run. cbn [snd]. split.
  - intros [[] H]. exact H.
  - intros H. exists tt. exact H.
Qed.

Lemma named_slot_some section old :
  is_Some (name_elem section) \/ is_Some old -> is_Some (named_slot section old).
Proof.
  unfold named_slot. intros [[e ->]|H]; [eauto|]. destruct (name_elem section); eauto.
Qed.

Lemma slot_step_score section e old t0 fields :
  score_elem section = Some e ->
  yet_to_bat (strip (elem_text e)) = false ->
  score_fields (strip (elem_text e)) = Ok fields ->
  named_slot section old = Some t0 ->
  slot_step section old = won_steps section (Some (set_score fields t0)).
Proof.
  intros He Hyet Hf Hn. unfold slot_step. fold (named_slot section old).
  rewrite He. cbv zeta. rewrite Hyet, Hf, Hn. reflexivity.
Qed.

Lemma count_slash_form R W :
  plain R = true -> plain W = true ->
  mem_char "/" (R +:+ "/" +:+ W) = true /\ split_on "/" (R +:+ "/" +:+ W) = [R; W].
Proof.
  intros HR HW. split.
  - rewrite mem_char_count, count_char_app, (plain_count _ _ HR) by reflexivity.
    reflexivity.
  - change ("/" +:+ W) with (String "/" W).
    rewrite split_on_app by (apply plain_count; [exact HR | reflexivity]).
    rewrite split_on_absent by (apply plain_count; [exact HW | reflexivity]). reflexivity.
Qed.

(** ** Innings completion *)

(** A literal whose decimal value is at least 20 compares [>= 20.0]. *)
Lemma float_ge_20_of_value x v :
  decimal_value x = Some v -> (20 <= v)%Q -> float_ge_20 x = true.
Proof.
  destruct x as [neg m e| |]; [|discriminate|discriminate].
  cbn [decimal_value float_ge_20]. intros [= <-] Hv.
  assert (Hp : 2 ^ 49 = 562949953421312) by reflexivity.
  destruct (0 <=? e) eqn:Ee.
  - apply Z.leb_le in Ee. pose proof (Z.pow_pos_nonneg 10 e ltac:(lia) Ee) as Hpos.
    unfold Qle in Hv. simpl in Hv. rewrite Z.mul_1_r in Hv.
    destruct neg; [nia|]. apply Z.leb_le. rewrite Hp. nia.
  - apply Z.leb_gt in Ee. pose proof (Z.pow_pos_nonneg 10 (- e) ltac:(lia) ltac:(lia)) as Hpos.
    unfold Qle in Hv. cbn [Qnum Qden] in Hv. rewrite Z2Pos.id in Hv by exact Hpos.
    destruct neg; [nia|]. apply Z.leb_le. rewrite Hp. nia.
Qed.

Lemma overs_value_first_token overs v :
  overs_value overs = Some v ->
  exists tok rest x, split_ws overs = tok :: rest /\ py_float tok = Some x
                     /\ decimal_value x = Some v.
Proof.
  unfold overs_value. destruct (split_ws overs) as [|tok rest]; [discriminate|].
  destruct (py_float tok) as [x|] eqn:Ex; [|discriminate]. cbn. intros H.
  exists tok, rest, x. auto.
Qed.

Lemma split_ws_empty : split_ws "" = [].
Proof. reflexivity. Qed.

(** What [score_fields] guarantees about the flag it computes. *)
Lemma score_fields_flag text score runs wickets overs innings_complete :
  score_fields text = Ok (score, runs, wickets, overs, innings_complete) ->
  (wickets = "10" -> innings_complete = true)
  /\ (forall v, overs_value overs = Some v -> (20 <= v)%Q -> innings_complete = true).
Proof.
  unfold score_fields. cbv zeta.
  set (ov := match split_on "(" text with
             | _ :: p :: _ => strip (remove_char ")" p)
             | _ => ""
             end).
  destruct (if mem_char "/" _ then _ else _) as [[r w]|ex]; [|discriminate].
  destruct (nonempty ov) eqn:En.
  - destruct (contains "20" ov) eqn:E20.
    + intros [= _ _ <- <- <-]. split.
      * intros ->. reflexivity.
      * intros _ _ _. destruct (String.eqb w "10"); reflexivity.
    + destruct (split_ws ov) as [|tok rest] eqn:Es; [discriminate|].
      destruct (py_float tok) as [x|] eqn:Ex; [|discriminate].
      intros [= _ _ <- <- <-]. split.
      * intros ->. reflexivity.
      * intros v Hv Hge. destruct (String.eqb w "10"); [reflexivity|].
        apply overs_value_first_token in Hv as (tok' & rest' & x' & Hs' & Hx' & Hd).
        rewrite Es in Hs'. injection Hs' as <- <-. rewrite Ex in Hx'. injection Hx' as <-.
        apply (float_ge_20_of_value x v Hd Hge).
  - intros [= _ _ <- <- <-]. split.
    + intros ->. reflexivity.
    + intros v Hv _. exfalso. destruct ov; [|discriminate].
      unfold overs_value in Hv. rewrite split_ws_empty in Hv. discriminate.
Qed.

(** One section's body on a score text that is not "yet to bat". *)
Lemma section_innings_flag i section e md :
  score_elem section = Some e ->
  yet_to_bat (strip (elem_text e)) = false ->
  returns (team_section_body i section) md ->
  exists t wickets overs,
    teams (exec (team_section_body i section) md) !! team_key i = Some t
    /\ t_wickets t = Some wickets /\ t_overs t = Some overs
    /\ (wickets = "10" \/ (exists v, overs_value overs = Some v /\ (20 <= v)%Q) ->
        t_innings_complete t = Some true).
Proof.
  intros He Hyet Hret. apply team_section_body_returns in Hret.
  rewrite team_section_body_exec.
  unfold slot_step in *. fold (named_slot section (teams md !! team_key i)) in *.
  rewrite He in *. cbv zeta in *. rewrite Hyet in *.
  destruct (score_fields (strip (elem_text e))) as [[[[[score runs] wickets] overs] ic]|ex]
    eqn:Ef; [|discriminate].
  destruct (named_slot section (teams md !! team_key i)) as [t0|]; [|discriminate].
  destruct (won_steps_fields section (set_score (score, runs, wickets, overs, ic) t0))
    as (t' & -> & _ & _ & _ & Hwk & Hov & Hic).
  cbn [fst]. exists t', wickets, overs.
  split; [reflexivity|]. split; [exact Hwk|]. split; [exact Hov|].
  rewrite Hic. cbn [set_score t_innings_complete].
  destruct (score_fields_flag _ _ _ _ _ _ Ef) as [H10 H20].
  intros [Hw | [v [Hv Hge]]]; f_equal; eauto.
Qed.

(** ** One team's section within the extractor *)

Lemma team_key_inj i j : team_key i = team_key j -> i = j.
Proof.
  unfold team_key. intros H. apply String.app_inj in H.
  apply (f_equal NilEmpty.uint_of_string) in H. rewrite !NilEmpty.usu in H.
  injection H as H. apply Unsigned.to_uint_inj in H. lia.
Qed.

Lemma put_slot_other key key' slot md :
  key' <> key -> teams (put_slot key slot md) !! key' = teams md !! key'.
Proof.
  intros Hne. destruct slot as [t|]; [|reflexivity].
  unfold put_slot, set_teams; simpl. apply lookup_insert_ne. congruence.
Qed.

Lemma put_slot_after key section md :
  teams (put_slot key (slot_step section (teams md !! key)).1 md) !! key
    = slot_after section (teams md !! key).
Proof.
  unfold slot_after. destruct (slot_step section (teams md !! key)).1 as [t|];
    [apply put_slot_lookup | reflexivity].
Qed.

Lemma team_sections_loop_other key sections : forall i md,
  (forall j, (i <= j)%nat -> team_key j <> key) ->
  teams (exec (team_sections_loop i sections) md) !! key = teams md !! key.
Proof.
  induction sections as [|section rest IH]; intros i md Hkey; [reflexivity|].
  unfold exec. cbn [team_sections_loop]. unfold bind. rewrite team_section_body_run.
  destruct (slot_step section (teams md !! team_key i)).2.
  - fold (exec (team_sections_loop (S i) rest)
            (put_slot (team_key i) (slot_step section (teams md !! team_key i)).1 md)).
    rewrite IH by (intros j Hj; apply Hkey; lia).
    apply put_slot_other. intros ->. apply (Hkey i); [lia | reflexivity].
  - cbn [fst]. apply put_slot_other. intros ->. apply (Hkey i); [lia | reflexivity].
Qed.

Lemma team_section_body_slot i section md :
  teams (exec (team_section_body i section) md) !! team_key i
    = slot_after section (teams md !! team_key i).
Proof. rewrite team_section_body_exec. reflexivity. Qed.

(** The loop leaves in the slot of its [j]-th section what that section's
    body leaves there, once the bodies before it have returned. *)
Lemma team_sections_loop_slot sections : forall i0 md j section,
  sections !! j = Some section ->
  (forall k s, (k < j)%nat -> sections !! k = Some s ->
               (slot_step s (teams md !! team_key (i0 + k))).2 = Ok tt) ->
  teams (exec (team_sections_loop i0 sections) md) !! team_key (i0 + j)
    = slot_after section (teams md !! team_key (i0 + j)).
Proof.
  induction sections as [|s rest IH]; intros i0 md j section Hj Hearlier; [discriminate|].
  destruct j as [|j].
  - injection Hj as ->. rewrite Nat.add_0_r.
    unfold exec. cbn [team_sections_loop]. unfold bind. rewrite team_section_body_run.
    destruct (slot_step section (teams md !! team_key i0)).2.
    + fold (exec (team_sections_loop (S i0) rest)
              (put_slot (team_key i0) (slot_step section (teams md !! team_key i0)).1 md)).
      rewrite team_sections_loop_other; [apply put_slot_after|].
      intros k Hk E. apply team_key_inj in E. lia.
    + cbn [fst]. apply put_slot_after.
  - cbn [lookup list_lookup] in Hj.
    pose proof (Hearlier 0%nat s ltac:(lia) eq_refl) as Hhead. rewrite Nat.add_0_r in Hhead.
    unfold exec. cbn [team_sections_loop]. unfold bind. rewrite team_section_body_run, Hhead.
    set (md1 := put_slot (team_key i0) (slot_step s (teams md !! team_key i0)).1 md).
    fold (exec (team_sections_loop (S i0) rest) md1).
    assert (Hother : forall k, teams md1 !! team_key (S i0 + k) = teams md !! team_key (S i0 + k)).
    { intros k. apply put_slot_other. intros E. apply team_key_inj in E. lia. }
    replace (i0 + S j)%nat with (S i0 + j)%nat by lia.
    rewrite (IH (S i0) md1 j section Hj).
    + rewrite Hother. reflexivity.
    + intros k s' Hk Hs'. rewrite Hother.
      replace (S i0 + k)%nat with (i0 + S k)%nat by lia.
      apply (Hearlier (S k) s'); [lia | exact Hs'].
Qed.

(** The extractor leaves in a team's slot what the body of that team's
    section leaves there. *)
Lemma parse_teams_and_scores_slot soup md j section :
  (j < 2)%nat -> team_sections soup !! j = Some section ->
  earlier_sections_return soup j md ->
  teams (exec (parse_teams_and_scores soup) md) !! team_key j
    = teams (exec (team_section_body j section) md) !! team_key j.
Proof.
  intros Hj Hsec Hearlier. rewrite team_section_body_slot.
  unfold parse_teams_and_scores, parse_teams_and_scores_body, exec, try_except. cbn [fst].
  apply (team_sections_loop_slot (take 2 (team_sections soup)) 0 md j section).
  - rewrite lookup_take_lt by exact Hj. exact Hsec.
  - intros k s Hk Hs. apply team_section_body_returns.
    apply lookup_take_Some in Hs as [Hs _]. apply (Hearlier k s Hk Hs).
Qed.

(** C10: for a team whose section the team loop gets to and whose score
    was numerically parsed and recorded (the section's body returned on a
    score text that is not "yet to bat"), the recorded wickets being "10",
    or the decimal value of the recorded overs being at least 20, makes the
    recorded innings_complete flag true. *)
Theorem innings_complete_flag soup i section e md :
  (i < 2)%nat -> team_sections soup !! i = Some section ->
  earlier_sections_return soup i md ->
  score_elem section = Some e ->
  yet_to_bat (strip (elem_text e)) = false ->
  returns (team_section_body i section) md ->
  exists t wickets overs,
    teams (exec (parse_teams_and_scores soup) md) !! team_key i = Some t
    /\ t_wickets t = Some wickets /\ t_overs t = Some overs
    /\ (wickets = "10" \/ (exists v, overs_value overs = Some v /\ (20 <= v)%Q) ->
        t_innings_complete t = Some true).
Proof.
  intros Hi Hsec Hearlier He Hyet Hret.
  rewrite (parse_teams_and_scores_slot soup md i section Hi Hsec Hearlier).
  apply (section_innings_flag i section e md He Hyet Hret).
Qed.

Lemma innings_complete_flag_witness :
  (exists t, teams (exec (parse_teams_and_scores Samples.finished) Samples.fresh) !! "team1"
             = Some t
             /\ t_innings_complete t = Some true)
  /\ (exists t, teams (exec (parse_teams_and_scores
                               (Samples.with_teams
                                  [Samples.team "Mumbai Indians" "185/6 (20.0)";
                                   Samples.team "Chennai Super Kings" "142/10 (18.4)"]
                                  Samples.blank)) Samples.fresh) !! "team2" = Some t
                /\ t_innings_complete t = Some true).
Proof.
  split.
  - assert (Hearlier : earlier_sections_return Samples.finished 0 Samples.fresh)
      by (intros k s Hk; lia).
    destruct (innings_complete_flag Samples.finished 0
                (Samples.team "Mumbai Indians" "185/6 (20.0)")
                (mkElem "185/6 (20.0)" []) Samples.fresh
                ltac:(lia) eq_refl Hearlier eq_refl eq_refl (ex_intro _ tt eq_refl))
      as (t & wickets & overs & Ht & Hw & Ho & Hflag).
    exists t. split; [exact Ht|]. apply Hflag. right.
    assert (overs = "20.0") as ->.
    { vm_compute in Ht. injection Ht as <-. vm_compute in Ho. injection Ho as <-. reflexivity. }
    exists (200 # 10)%Q. split; [reflexivity|]. unfold Qle. simpl. lia.
  - set (soup := Samples.with_teams
                   [Samples.team "Mumbai Indians" "185/6 (20.0)";
                    Samples.team "Chennai Super Kings" "142/10 (18.4)"] Samples.blank).
    assert (Hearlier : earlier_sections_return soup 1 Samples.fresh).
    { intros k s Hk Hs. destruct k as [|k]; [|lia].
      injection Hs as <-. exists tt. vm_compute. reflexivity. }
    destruct (innings_complete_flag soup 1
                (Samples.team "Chennai Super Kings" "142/10 (18.4)")
                (mkElem "142/10 (18.4)" []) Samples.fresh
                ltac:(lia) eq_refl Hearlier eq_refl eq_refl (ex_intro _ tt eq_refl))
      as (t & wickets & overs & Ht & Hw & Ho & Hflag).
    exists t. split; [exact Ht|]. apply Hflag. left.
    vm_compute in Ht. injection Ht as <-. vm_compute in Hw. injection Hw as <-. reflexivity.
Defined.

(** ** Teams that have not batted *)

(** The batting table loop never creates a list for a team whose recorded
    score says "yet to bat". *)
Lemma batting_table_body_skips key bf bs count table md :
  yet_to_bat (team_get md key t_score "") = true ->
  batting_stats (exec (batting_table_body bf bs count table) md) !! key
    = batting_stats md !! key.
Proof.
  intros Hyet. unfold exec. rewrite batting_table_body_run.
  destruct (negb _); [reflexivity|]. cbv zeta.
  set (k := match count with O => bf | S _ => bs end).
  destruct (yet_to_bat (team_get md k t_score "")) eqn:Ek; [reflexivity|].
  assert (Hne : k <> key) by (intros ->; congruence).
  destruct (py_int _) as [wk|]; cbn [fst].
  2:{ unfold set_batting_stats; simpl. apply lookup_insert_ne, Hne. }
  destruct (cross_check _ _ wk) as [res|]; cbn [fst].
  2:{ unfold set_batting_stats; simpl. apply lookup_insert_ne, Hne. }
  destruct (nonempty _ && contains "20" _);
    unfold set_match_info, set_batting_stats; simpl; apply lookup_insert_ne, Hne.
Qed.

Lemma batting_tables_loop_skips key bf bs tables : forall count md,
  yet_to_bat (team_get md key t_score "") = true ->
  batting_stats (exec (batting_tables_loop bf bs count tables) md) !! key
    = batting_stats md !! key.
Proof.
  induction tables as [|table tables IH]; intros count md Hyet; [reflexivity|].
  pose proof (batting_table_body_skips key bf bs count table md Hyet) as Hstep.
  pose proof (batting_table_body_keeps teams bf bs count table
                ltac:(reflexivity) ltac:(reflexivity) md) as Hteams.
  unfold exec in *. cbn [batting_tables_loop]. unfold bind.
  destruct (batting_table_body bf bs count table md) as [md1 [c|ex]]; cbn [fst snd] in *.
  - rewrite IH; [exact Hstep|]. unfold team_get in *. rewrite Hteams. exact Hyet.
  - exact Hstep.
Qed.

Lemma parse_batting_stats_skips key soup md :
  yet_to_bat (team_get md key t_score "") = true ->
  batting_stats (exec (parse_batting_stats soup) md) !! key = None.
Proof.
  intros Hyet. unfold parse_batting_stats, exec, try_except. cbn [fst].
  unfold parse_batting_stats_body, bind, modify, get. cbn [fst snd].
  match goal with
  | |- context [batting_tables_loop ?bf ?bs 0%nat _ ?m] =>
      pose proof (batting_tables_loop_skips key bf bs (batting_tables soup) 0 m Hyet) as H;
      unfold exec in H;
      destruct (batting_tables_loop bf bs 0 (batting_tables soup) m) as [md1 o]
  end.
  cbn [fst] in *. rewrite H. apply lookup_empty.
Qed.

(** With a designated bowling team the table loop leaves every other list
    alone. *)
Lemma bowling_tables_loop_other c other tables : forall count md,
  bowling_slots md -> other <> c ->
  bowling_stats (exec (bowling_tables_loop (Some c) count tables) md) !! other
    = bowling_stats md !! other.
Proof.
  induction tables as [|table tables IH]; intros count md Hs Hne; [reflexivity|].
  unfold exec. cbn [bowling_tables_loop]. unfold bind.
  rewrite (bowling_table_body_run _ _ _ _ Hs).
  destruct (bowling_header table) as [hdr|]; [|apply (IH count md Hs Hne)].
  cbv zeta. destruct (skips_table (Some c) (assigned_bowling_team table count)) eqn:Esk;
    [apply (IH count md Hs Hne)|].
  assert (Hteam : assigned_bowling_team table count = c).
  { unfold skips_table in Esk. apply negb_false_iff, string_eqb_true in Esk. exact Esk. }
  rewrite Hteam.
  match goal with
  | |- context [bowling_tables_loop _ ?n tables ?m] =>
      pose proof (IH n m (bowling_slots_insert md c _ Hs) Hne) as H
  end.
  unfold exec in H. rewrite H. unfold set_bowling_stats; simpl.
  apply lookup_insert_ne. congruence.
Qed.

(** The placeholder is never written for the opponent of a team that has
    not batted. *)
Lemma infer_for_skips batting_key bowling_key md :
  yet_to_bat (team_get md batting_key t_score "") = true ->
  infer_for batting_key bowling_key md = (md, Ok tt).
Proof.
  intros Hyet. destruct (infer_for_run batting_key bowling_key md) as [H | [_ H]]; [exact H|].
  unfold yet_to_bat in Hyet. unfold team_score_lower in H. congruence.
Qed.

Lemma infer_for_other batting_key bowling_key other md :
  other <> bowling_key ->
  bowling_stats (exec (infer_for batting_key bowling_key) md) !! other
    = bowling_stats md !! other.
Proof.
  intros Hne. unfold exec.
  destruct (infer_for_run batting_key bowling_key md) as [-> | [-> _]]; [reflexivity|].
  unfold set_bowling_stats; simpl. apply lookup_insert_ne. congruence.
Qed.

Lemma infer_for_teams batting_key bowling_key md :
  teams (exec (infer_for batting_key bowling_key) md) = teams md.
Proof.
  unfold exec.
  destruct (infer_for_run batting_key bowling_key md) as [-> | [-> _]]; reflexivity.
Qed.

Lemma infer_for_returns batting_key bowling_key md :
  infer_for batting_key bowling_key md = (exec (infer_for batting_key bowling_key) md, Ok tt).
Proof.
  unfold exec.
  destruct (infer_for_run batting_key bowling_key md) as [-> | [-> _]]; reflexivity.
Qed.

Lemma infer_missing_run md :
  exec _infer_missing_bowling_stats md
    = exec (infer_for "team2" "team1") (exec (infer_for "team1" "team2") md).
Proof.
  unfold _infer_missing_bowling_stats, exec at 1, try_except. cbn [fst].
  unfold exec at 1, bind. rewrite infer_for_returns. reflexivity.
Qed.

(** The list of the team bowling to a side that has not batted stays
    empty: [batting] has not batted, [bowling] is its opponent. *)
Lemma infer_missing_other batting bowling md :
  (batting = "team1" /\ bowling = "team2") \/ (batting = "team2" /\ bowling = "team1") ->
  yet_to_bat (team_get md batting t_score "") = true ->
  bowling_stats (exec _infer_missing_bowling_stats md) !! bowling
    = bowling_stats md !! bowling.
Proof.
  intros Hkeys Hyet. rewrite infer_missing_run.
  destruct Hkeys as [[-> ->] | [-> ->]].
  - rewrite infer_for_other by discriminate.
    unfold exec at 1. rewrite infer_for_skips by exact Hyet. reflexivity.
  - unfold exec at 1. rewrite infer_for_skips.
    + apply infer_for_other. discriminate.
    + unfold team_get. rewrite infer_for_teams. exact Hyet.
Qed.

Lemma parse_bowling_stats_other batting bowling soup md :
  (batting = "team1" /\ bowling = "team2") \/ (batting = "team2" /\ bowling = "team1") ->
  yet_to_bat (team_get md batting t_score "") = true ->
  resolve_current_bowling_team md = Some batting ->
  bowling_stats (exec (parse_bowling_stats soup) md) !! bowling = Some [].
Proof.
  intros Hkeys Hyet Hres. rewrite parse_bowling_stats_run'. cbv zeta. rewrite Hres.
  assert (Hne : bowling <> batting) by (destruct Hkeys as [[-> ->] | [-> ->]]; discriminate).
  pose proof (bowling_tables_loop_other batting bowling (find_bowling_tables soup) 0
                (bowling_cleared md) (bowling_cleared_slots md) Hne) as Hloop.
  pose proof (bowling_tables_loop_keeps teams (Some batting) (find_bowling_tables soup)
                ltac:(reflexivity) 0%nat (bowling_cleared md)) as Hteams.
  assert (Hstart : bowling_stats (bowling_cleared md) !! bowling = Some []).
  { destruct Hkeys as [[-> ->] | [-> ->]]; reflexivity. }
  destruct (any_bowling _).
  - rewrite Hloop. exact Hstart.
  - rewrite (infer_missing_other batting bowling _ Hkeys).
    + rewrite Hloop. exact Hstart.
    + unfold team_get. rewrite Hteams. exact Hyet.
Qed.

Lemma resolve_team2_yet_to_bat md :
  yet_to_bat (team_get md "team2" t_score "") = true ->
  resolve_current_bowling_team md = Some "team2".
Proof.
  intros H. unfold resolve_current_bowling_team, team_score_lower.
  unfold yet_to_bat in H. rewrite H. reflexivity.
Qed.

Lemma resolve_team1_yet_to_bat md :
  yet_to_bat (team_get md "team2" t_score "") = false ->
  yet_to_bat (team_get md "team1" t_score "") = true ->
  resolve_current_bowling_team md = Some "team1".
Proof.
  intros H2 H1. unfold resolve_current_bowling_team, team_score_lower.
  unfold yet_to_bat in *. rewrite H2, H1. reflexivity.
Qed.

Lemma slot_step_yet_to_bat section e old :
  score_elem section = Some e -> yet_to_bat (strip (elem_text e)) = true ->
  slot_step section old =
    match named_slot section old with
    | Some t => (Some (set_yet_to_bat t), Ok tt)
    | None => (None, Raise KeyError)
    end.
Proof.
  intros He Hyet. unfold slot_step. fold (named_slot section old).
  rewrite He. cbv zeta. rewrite Hyet. reflexivity.
Qed.

(** C4 (as stated, refuted): after five overs of the first innings the
    second team's score is "Yet to bat", and it is this team whose bowling
    list the bowling extractor fills; before the start both teams are yet to
    bat and the bowling figures against the first team are extracted all the
    same. *)
Lemma yet_to_bat_team_is_the_bowling_team :
  (t_score <$> teams (exec (parse_html Samples.five_overs) Samples.fresh) !! "team2")
    = Some (Some "Yet to bat")
  /\ ((fun l : list BowlingEntry => bowl_name <$> l) <$> bowling_stats (exec (parse_html Samples.five_overs) Samples.fresh) !! "team2")
    = Some ["Chahar"; "Pathirana"]
  /\ (t_score <$> teams (exec (parse_html Samples.before_start) Samples.fresh) !! "team1")
    = Some (Some "Yet to bat")
  /\ (t_score <$> teams (exec (parse_html Samples.before_start) Samples.fresh) !! "team2")
    = Some (Some "Yet to bat")
  /\ ((fun l : list BowlingEntry => bowl_name <$> l) <$> bowling_stats (exec (parse_html Samples.before_start) Samples.fresh) !! "team2")
    = Some ["Chahar"].
Proof. repeat split; vm_compute; reflexivity. Qed.

(** C4 (amended): for a team whose section the team loop gets to and whose
    score text contains "yet to bat" (in any case), provided the section has
    a name element or the team's slot exists, the team/score extractor
    records score "Yet to bat", runs "Yet to bat", wickets "0" and empty
    overs, and does not write the innings-completion flag (a slot created
    from the name element has none, a slot kept from before keeps its own).  The batting extractor creates no
    list for a team with such a recorded score.  The bowling extractor makes
    such a team the designated bowling team (the second team first): the
    tables skipped are those of its opponent, and it is the opponent's
    bowling list that stays empty. *)
Theorem yet_to_bat_team_is_skipped_as_batting_side :
  (forall soup i section e md,
      (i < 2)%nat -> team_sections soup !! i = Some section ->
      earlier_sections_return soup i md ->
      score_elem section = Some e -> yet_to_bat (strip (elem_text e)) = true ->
      is_Some (name_elem section) \/ is_Some (teams md !! team_key i) ->
      let md' := exec (parse_teams_and_scores soup) md in
      returns (team_section_body i section) md
      /\ yet_to_bat (team_get md' (team_key i) t_score "") = true
      /\ exists t, teams md' !! team_key i = Some t
           /\ t_score t = Some "Yet to bat" /\ t_runs t = Some "Yet to bat"
           /\ t_wickets t = Some "0" /\ t_overs t = Some ""
           /\ t_innings_complete t =
                match name_elem section with
                | Some _ => None
                | None => teams md !! team_key i ≫= t_innings_complete
                end)
  /\ (forall soup md key,
         yet_to_bat (team_get md key t_score "") = true ->
         batting_stats (exec (parse_batting_stats soup) md) !! key = None)
  /\ (forall soup md,
         yet_to_bat (team_get md "team2" t_score "") = true ->
         resolve_current_bowling_team md = Some "team2"
         /\ (forall team, skips_table (resolve_current_bowling_team md) team
                          = negb (String.eqb team "team2"))
         /\ bowling_stats (exec (parse_bowling_stats soup) md) !! "team1" = Some [])
  /\ (forall soup md,
         yet_to_bat (team_get md "team2" t_score "") = false ->
         yet_to_bat (team_get md "team1" t_score "") = true ->
         resolve_current_bowling_team md = Some "team1"
         /\ (forall team, skips_table (resolve_current_bowling_team md) team
                          = negb (String.eqb team "team1"))
         /\ bowling_stats (exec (parse_bowling_stats soup) md) !! "team2" = Some []).
Proof.
  split; [|split; [|split]].
  - intros soup i section e md Hi Hsec Hearlier He Hyet Hslot. cbv zeta.
    destruct (named_slot_some section _ Hslot) as [t0 Ht0].
    pose proof (slot_step_yet_to_bat section e (teams md !! team_key i) He Hyet) as Hstep.
    rewrite Ht0 in Hstep.
    split; [apply team_section_body_returns; rewrite Hstep; reflexivity|].
    assert (Hlook : teams (exec (parse_teams_and_scores soup) md) !! team_key i
                    = Some (set_yet_to_bat t0)).
    { rewrite (parse_teams_and_scores_slot soup md i section Hi Hsec Hearlier).
      rewrite team_section_body_exec, Hstep. reflexivity. }
    split.
    + unfold team_get. rewrite Hlook. reflexivity.
    + exists (set_yet_to_bat t0). split; [exact Hlook|]. repeat (split; [reflexivity|]).
      cbn [set_yet_to_bat t_innings_complete].
      unfold named_slot in Ht0. destruct (name_elem section).
      * injection Ht0 as <-. reflexivity.
      * rewrite Ht0. reflexivity.
  - intros soup md key. apply parse_batting_stats_skips.
  - intros soup md H. pose proof (resolve_team2_yet_to_bat md H) as Hres.
    split; [exact Hres|]. split; [rewrite Hres; reflexivity|].
    apply (parse_bowling_stats_other "team2" "team1"); auto.
  - intros soup md H2 H1. pose proof (resolve_team1_yet_to_bat md H2 H1) as Hres.
    split; [exact Hres|]. split; [rewrite Hres; reflexivity|].
    apply (parse_bowling_stats_other "team1" "team2"); auto.
Qed.

Lemma yet_to_bat_team_is_skipped_as_batting_side_witness :
  (exists t, teams (exec (parse_teams_and_scores Samples.five_overs) Samples.fresh) !! "team2"
             = Some t
             /\ t_score t = Some "Yet to bat" /\ t_innings_complete t = None)
  /\ batting_stats (exec (parse_batting_stats Samples.five_overs)
                      (exec (parse_teams_and_scores Samples.five_overs) Samples.fresh))
       !! "team2" = None
  /\ bowling_stats (exec (parse_bowling_stats Samples.five_overs)
                      (exec (parse_teams_and_scores Samples.five_overs) Samples.fresh))
       !! "team1" = Some []
  /\ bowling_stats (exec (parse_bowling_stats Samples.five_overs)
                      (exec (team_section_body 1 (Samples.team "Chennai Super Kings" "45/1 (5.0)"))
                         (exec (team_section_body 0 (Samples.team "Mumbai Indians" "yet to bat"))
                            Samples.fresh)))
       !! "team2" = Some [].
Proof.
  destruct yet_to_bat_team_is_skipped_as_batting_side as (Hteams & Hbat & Hbowl2 & Hbowl1).
  split; [|split; [|split]].
  - assert (Hearlier : earlier_sections_return Samples.five_overs 1 Samples.fresh).
    { intros k s Hk Hs. destruct k as [|k]; [|lia].
      injection Hs as <-. exists tt. vm_compute. reflexivity. }
    destruct (Hteams Samples.five_overs 1%nat (Samples.team "Chennai Super Kings" "Yet to bat")
                (mkElem "Yet to bat" []) Samples.fresh ltac:(lia) eq_refl Hearlier
                eq_refl eq_refl
                (or_introl (ex_intro _ (mkElem "Chennai Super Kings" []) eq_refl)))
      as (_ & _ & t & Ht & Hs & _ & _ & _ & Hic).
    exists t. split; [exact Ht|]. split; [exact Hs | exact Hic].
  - apply Hbat. vm_compute. reflexivity.
  - apply (Hbowl2 Samples.five_overs). vm_compute. reflexivity.
  - apply (Hbowl1 Samples.five_overs); vm_compute; reflexivity.
Defined.

(** ** Running the extraction twice *)

(** *** Match information *)

Lemma parse_match_info_status soup md :
  mi_status (match_info (exec (parse_match_info soup) md))
    = match status_elem soup with
      | Some text => strip text
      | None => mi_status (match_info md)
      end.
Proof.
  unfold parse_match_info, parse_match_info_body, exec, try_except, bind, when_some.
  destruct (tournament_elem soup), (status_elem soup), (date_elem soup) as [[? []]|],
    (mom_elem soup), (venue_elem soup); reflexivity.
Qed.

(** *** Teams *)

(** A section's body reaches a fixed point at once: run on the slot it
    left, it leaves the slot as it is and ends the same way. *)
Lemma slot_step_idempotent section old :
  slot_after section (slot_after section old) = slot_after section old
  /\ (slot_step section (slot_after section old)).2 = (slot_step section old).2.
Proof.
  unfold slot_after, slot_step, won_steps, won_step.
  destruct (name_elem section) as [n|], (score_elem section) as [e|]; cbv zeta.
  - destruct (yet_to_bat _); [split; reflexivity|].
    destruct (score_fields _) as [fields|ex]; [|split; reflexivity].
    destruct (has_won_class (Some n)), (has_won_class (Some e)); split; reflexivity.
  - destruct (has_won_class (Some n)), (has_won_class None); split; reflexivity.
  - destruct (yet_to_bat _).
    { destruct old as [t|]; split; reflexivity. }
    destruct (score_fields _) as [[[[[score runs] wickets] overs] ic]|ex].
    2:{ destruct old as [t|]; split; reflexivity. }
    destruct old as [t|]; [|split; reflexivity].
    destruct (has_won_class None), (has_won_class (Some e)); split; reflexivity.
  - destruct old as [t|]; destruct (has_won_class None); split; reflexivity.
Qed.

(** The team loop run on a state whose teams are those of an earlier run
    leaves the teams as they are. *)
Lemma team_sections_loop_idempotent sections : forall i md md2,
  teams md2 = teams (exec (team_sections_loop i sections) md) ->
  teams (exec (team_sections_loop i sections) md2) = teams md2.
Proof.
  induction sections as [|section rest IH]; intros i md md2 Hsame; [reflexivity|].
  assert (Hslot : teams md2 !! team_key i = slot_after section (teams md !! team_key i)).
  { rewrite Hsame. unfold exec. cbn [team_sections_loop]. unfold bind.
    rewrite team_section_body_run.
    destruct (slot_step section (teams md !! team_key i)).2.
    - fold (exec (team_sections_loop (S i) rest)
              (put_slot (team_key i) (slot_step section (teams md !! team_key i)).1 md)).
      rewrite team_sections_loop_other; [apply put_slot_after|].
      intros j Hj E. apply team_key_inj in E. lia.
    - cbn [fst]. apply put_slot_after. }
  destruct (slot_step_idempotent section (teams md !! team_key i)) as [Hfix Hout].
  assert (Hput : put_slot (team_key i) (slot_step section (teams md2 !! team_key i)).1 md2
                 = md2).
  { rewrite Hslot. pose proof Hfix as Hfix'. unfold slot_after at 1 in Hfix'.
    destruct (slot_step section (slot_after section (teams md !! team_key i))).1 as [t|];
      [|reflexivity].
    rewrite Hfix', <- Hslot. apply put_slot_same. }
  unfold exec in *. cbn [team_sections_loop] in *. unfold bind in *.
  rewrite team_section_body_run in *. rewrite Hput.
  rewrite Hslot, Hout.
  destruct (slot_step section (teams md !! team_key i)).2; [|reflexivity].
  apply (IH (S i) _ md2 Hsame).
Qed.

Lemma parse_teams_and_scores_idempotent soup md md2 :
  teams md2 = teams (exec (parse_teams_and_scores soup) md) ->
  teams (exec (parse_teams_and_scores soup) md2) = teams md2.
Proof.
  unfold parse_teams_and_scores, parse_teams_and_scores_body, exec, try_except. cbn [fst].
  apply team_sections_loop_idempotent.
Qed.

(** *** Batting *)

(** One iteration of the batting table loop reads the teams and writes the
    batting section: two states that agree on both still agree afterwards,
    and the iteration ends the same way in both. *)
Lemma batting_table_body_determined bf bs count table md1 md2 :
  teams md1 = teams md2 -> batting_stats md1 = batting_stats md2 ->
  teams (exec (batting_table_body bf bs count table) md1)
    = teams (exec (batting_table_body bf bs count table) md2)
  /\ batting_stats (exec (batting_table_body bf bs count table) md1)
    = batting_stats (exec (batting_table_body bf bs count table) md2)
  /\ snd (batting_table_body bf bs count table md1)
    = snd (batting_table_body bf bs count table md2).
Proof.
  intros Ht Hb. unfold exec. rewrite !batting_table_body_run. unfold team_get.
  rewrite Ht. destruct (negb _); [auto|]. cbv zeta.
  destruct (yet_to_bat _); [auto|].
  destruct (py_int _) as [wk|]; cbn [fst snd].
  2:{ unfold set_batting_stats; simpl. rewrite Hb. auto. }
  destruct (cross_check _ _ wk) as [res|]; cbn [fst snd].
  2:{ unfold set_batting_stats; simpl. rewrite Hb. auto. }
  destruct (nonempty _ && contains "20" _);
    unfold set_match_info, set_batting_stats; simpl; rewrite Hb; auto.
Qed.

Lemma batting_tables_loop_determined bf bs tables : forall count md1 md2,
  teams md1 = teams md2 -> batting_stats md1 = batting_stats md2 ->
  batting_stats (exec (batting_tables_loop bf bs count tables) md1)
    = batting_stats (exec (batting_tables_loop bf bs count tables) md2).
Proof.
  induction tables as [|table tables IH]; intros count md1 md2 Ht Hb; [exact Hb|].
  destruct (batting_table_body_determined bf bs count table md1 md2 Ht Hb)
    as (Ht' & Hb' & Ho).
  unfold exec in *. cbn [batting_tables_loop]. unfold bind.
  destruct (batting_table_body bf bs count table md1) as [md1' o1].
  destruct (batting_table_body bf bs count table md2) as [md2' o2].
  cbn [fst snd] in *. subst o2. destruct o1 as [c|ex]; [|exact Hb'].
  apply IH; assumption.
Qed.

(** The batting section the extractor leaves is determined by the teams and
    the status text. *)
Lemma parse_batting_stats_determined soup md1 md2 :
  teams md1 = teams md2 ->
  mi_status (match_info md1) = mi_status (match_info md2) ->
  batting_stats (exec (parse_batting_stats soup) md1)
    = batting_stats (exec (parse_batting_stats soup) md2).
Proof.
  intros Ht Hs. unfold parse_batting_stats, exec, try_except. cbn [fst].
  unfold parse_batting_stats_body, bind, modify, get. cbn [fst snd].
  cbn [set_batting_stats teams match_info]. rewrite Ht, Hs.
  match goal with
  | |- batting_stats (fst (batting_tables_loop ?bf ?bs 0%nat _ ?m1)) =
       batting_stats (fst (batting_tables_loop _ _ _ _ ?m2)) =>
      apply (batting_tables_loop_determined bf bs (batting_tables soup) 0 m1 m2)
  end; [exact Ht | reflexivity].
Qed.

(** The batting extractor writes the innings status, never the status
    text. *)
Lemma batting_table_body_status bf bs count table md :
  mi_status (match_info (exec (batting_table_body bf bs count table) md))
    = mi_status (match_info md).
Proof.
  unfold exec. rewrite batting_table_body_run.
  destruct (negb _); [reflexivity|]. cbv zeta.
  destruct (yet_to_bat _); [reflexivity|].
  destruct (py_int _) as [wk|]; [|reflexivity].
  destruct (cross_check _ _ wk) as [res|]; [|reflexivity].
  destruct (nonempty _ && contains "20" _); reflexivity.
Qed.

Lemma batting_tables_loop_status bf bs tables : forall count md,
  mi_status (match_info (exec (batting_tables_loop bf bs count tables) md))
    = mi_status (match_info md).
Proof.
  induction tables as [|table tables IH]; intros count md; [reflexivity|].
  pose proof (batting_table_body_status bf bs count table md) as Hstep.
  unfold exec in *. cbn [batting_tables_loop]. unfold bind.
  destruct (batting_table_body bf bs count table md) as [md1 [c|ex]]; cbn [fst snd] in *.
  - rewrite IH. exact Hstep.
  - exact Hstep.
Qed.

Lemma parse_batting_stats_status soup md :
  mi_status (match_info (exec (parse_batting_stats soup) md)) = mi_status (match_info md).
Proof.
  unfold parse_batting_stats, exec, try_except. cbn [fst].
  unfold parse_batting_stats_body, bind, modify, get. cbn [fst snd].
  match goal with
  | |- context [batting_tables_loop ?bf ?bs 0%nat _ ?m] =>
      apply (batting_tables_loop_status bf bs (batting_tables soup) 0 m)
  end.
Qed.

(** *** Bowling *)

Lemma resolve_determined md1 md2 :
  teams md1 = teams md2 ->
  mi_status (match_info md1) = mi_status (match_info md2) ->
  resolve_current_bowling_team md1 = resolve_current_bowling_team md2.
Proof.
  intros Ht Hs.
  unfold resolve_current_bowling_team, match_completed, any_team_won,
    team_innings_complete, team_score_lower, team_get.
  rewrite Ht, Hs. reflexivity.
Qed.

Lemma bowling_slots_same md1 md2 :
  bowling_stats md1 = bowling_stats md2 -> bowling_slots md1 -> bowling_slots md2.
Proof. unfold bowling_slots. intros <-. auto. Qed.

Lemma bowling_tables_loop_determined cbt tables : forall count md1 md2,
  bowling_slots md1 -> bowling_stats md1 = bowling_stats md2 ->
  bowling_stats (exec (bowling_tables_loop cbt count tables) md1)
    = bowling_stats (exec (bowling_tables_loop cbt count tables) md2).
Proof.
  induction tables as [|table tables IH]; intros count md1 md2 Hs Hb; [exact Hb|].
  pose proof (bowling_slots_same _ _ Hb Hs) as Hs2.
  unfold exec. cbn [bowling_tables_loop]. unfold bind.
  rewrite (bowling_table_body_run _ _ _ _ Hs), (bowling_table_body_run _ _ _ _ Hs2).
  destruct (bowling_header table) as [hdr|]; [|apply (IH count md1 md2 Hs Hb)].
  cbv zeta. destruct (skips_table cbt _); [apply (IH count md1 md2 Hs Hb)|].
  rewrite <- Hb. apply IH.
  - apply bowling_slots_insert, Hs.
  - unfold set_bowling_stats; simpl. rewrite Hb. reflexivity.
Qed.

Lemma any_bowling_determined md1 md2 :
  bowling_stats md1 = bowling_stats md2 -> any_bowling md1 = any_bowling md2.
Proof. unfold any_bowling. intros ->. reflexivity. Qed.

Lemma infer_for_determined batting_key bowling_key md1 md2 :
  teams md1 = teams md2 -> batting_stats md1 = batting_stats md2 ->
  bowling_stats md1 = bowling_stats md2 ->
  teams (exec (infer_for batting_key bowling_key) md1)
    = teams (exec (infer_for batting_key bowling_key) md2)
  /\ batting_stats (exec (infer_for batting_key bowling_key) md1)
    = batting_stats (exec (infer_for batting_key bowling_key) md2)
  /\ bowling_stats (exec (infer_for batting_key bowling_key) md1)
    = bowling_stats (exec (infer_for batting_key bowling_key) md2).
Proof.
  intros Ht Hba Hbo.
  unfold exec, infer_for, bind, get, when, modify, ret, placeholder_bowler,
    team_score_lower, team_get.
  rewrite Ht, Hba. cbn [fst snd].
  destruct (nonempty _ && negb _); [|auto].
  destruct (default [] (batting_stats md2 !! batting_key)); [auto|].
  unfold set_bowling_stats; simpl. rewrite Hbo. auto.
Qed.

(** The bowling section the extractor leaves is determined by the teams,
    the status text and the batting section. *)
Lemma parse_bowling_stats_determined soup md1 md2 :
  teams md1 = teams md2 ->
  mi_status (match_info md1) = mi_status (match_info md2) ->
  batting_stats md1 = batting_stats md2 ->
  bowling_stats (exec (parse_bowling_stats soup) md1)
    = bowling_stats (exec (parse_bowling_stats soup) md2).
Proof.
  intros Ht Hs Hba. rewrite !parse_bowling_stats_run'. cbv zeta.
  rewrite (resolve_determined md1 md2 Ht Hs).
  set (cbt := resolve_current_bowling_team md2).
  set (tables := find_bowling_tables soup).
  pose proof (bowling_tables_loop_determined cbt tables 0
                (bowling_cleared md1) (bowling_cleared md2)
                (bowling_cleared_slots md1) eq_refl) as Hloop.
  pose proof (bowling_tables_loop_keeps teams cbt tables ltac:(reflexivity) 0%nat) as Kt.
  pose proof (bowling_tables_loop_keeps batting_stats cbt tables ltac:(reflexivity) 0%nat)
    as Kb.
  rewrite (any_bowling_determined _ _ Hloop).
  destruct (any_bowling _); [exact Hloop|].
  rewrite !infer_missing_run.
  set (a1 := exec (bowling_tables_loop cbt 0 tables) (bowling_cleared md1)) in *.
  set (a2 := exec (bowling_tables_loop cbt 0 tables) (bowling_cleared md2)) in *.
  assert (Ht' : teams a1 = teams a2).
  { subst a1 a2. rewrite !Kt. exact Ht. }
  assert (Hba' : batting_stats a1 = batting_stats a2).
  { subst a1 a2. rewrite !Kb. exact Hba. }
  destruct (infer_for_determined "team1" "team2" a1 a2 Ht' Hba' Hloop) as (H1 & H2 & H3).
  apply (infer_for_determined "team2" "team1" _ _ H1 H2 H3).
Qed.

(** *** The whole pass *)

Lemma parse_html_exec soup md :
  exec (parse_html soup) md =
    exec (parse_commentary soup)
      (exec (parse_bowling_stats soup)
         (exec (parse_batting_stats soup)
            (exec (parse_teams_and_scores soup)
               (exec (parse_match_info soup) md)))).
Proof. reflexivity. Qed.

Lemma put_slot_teams key slot x y :
  teams x = teams y -> teams (put_slot key slot x) = teams (put_slot key slot y).
Proof.
  intros H. destruct slot as [t|]; [|exact H].
  unfold put_slot, set_teams; simpl. rewrite H. reflexivity.
Qed.

Lemma team_sections_loop_determined sections : forall i x y,
  teams x = teams y ->
  teams (exec (team_sections_loop i sections) x)
    = teams (exec (team_sections_loop i sections) y).
Proof.
  induction sections as [|section rest IH]; intros i x y H; [exact H|].
  unfold exec. cbn [team_sections_loop]. unfold bind. rewrite !team_section_body_run.
  rewrite H. destruct (slot_step section (teams y !! team_key i)).2.
  - apply IH, put_slot_teams, H.
  - cbn [fst]. apply put_slot_teams, H.
Qed.

(** What the pass leaves in the four sections is determined by the teams,
    the status text and the commentary it starts from. *)
Lemma parse_html_determined soup x y :
  teams x = teams y ->
  mi_status (match_info x) = mi_status (match_info y) ->
  commentary x = commentary y ->
  teams (exec (parse_html soup) x) = teams (exec (parse_html soup) y)
  /\ batting_stats (exec (parse_html soup) x) = batting_stats (exec (parse_html soup) y)
  /\ bowling_stats (exec (parse_html soup) x) = bowling_stats (exec (parse_html soup) y)
  /\ commentary (exec (parse_html soup) x) = commentary (exec (parse_html soup) y).
Proof.
  intros Ht Hs Hc. rewrite !parse_html_exec.
  set (x1 := exec (parse_match_info soup) x). set (y1 := exec (parse_match_info soup) y).
  assert (T1 : teams x1 = teams y1).
  { subst x1 y1. rewrite !(parse_match_info_keeps teams soup ltac:(reflexivity)). exact Ht. }
  assert (S1 : mi_status (match_info x1) = mi_status (match_info y1)).
  { subst x1 y1. rewrite !parse_match_info_status. destruct (status_elem soup); auto. }
  assert (C1 : commentary x1 = commentary y1).
  { subst x1 y1. rewrite !(parse_match_info_keeps commentary soup ltac:(reflexivity)).
    exact Hc. }
  set (x2 := exec (parse_teams_and_scores soup) x1).
  set (y2 := exec (parse_teams_and_scores soup) y1).
  assert (T2 : teams x2 = teams y2).
  { subst x2 y2. unfold parse_teams_and_scores, parse_teams_and_scores_body, exec,
      try_except. cbn [fst]. apply team_sections_loop_determined, T1. }
  assert (S2 : mi_status (match_info x2) = mi_status (match_info y2)).
  { subst x2 y2.
    rewrite !(parse_teams_and_scores_keeps (fun md => mi_status (match_info md)) soup
                ltac:(reflexivity)).
    exact S1. }
  assert (C2 : commentary x2 = commentary y2).
  { subst x2 y2. rewrite !(parse_teams_and_scores_keeps commentary soup ltac:(reflexivity)).
    exact C1. }
  set (x3 := exec (parse_batting_stats soup) x2).
  set (y3 := exec (parse_batting_stats soup) y2).
  assert (B3 : batting_stats x3 = batting_stats y3)
    by (apply parse_batting_stats_determined; assumption).
  assert (T3 : teams x3 = teams y3).
  { subst x3 y3.
    rewrite !(parse_batting_stats_keeps teams soup ltac:(reflexivity) ltac:(reflexivity)).
    exact T2. }
  assert (S3 : mi_status (match_info x3) = mi_status (match_info y3)).
  { subst x3 y3. rewrite !parse_batting_stats_status. exact S2. }
  assert (C3 : commentary x3 = commentary y3).
  { subst x3 y3.
    rewrite !(parse_batting_stats_keeps commentary soup ltac:(reflexivity) ltac:(reflexivity)).
    exact C2. }
  set (x4 := exec (parse_bowling_stats soup) x3).
  set (y4 := exec (parse_bowling_stats soup) y3).
  assert (B4 : bowling_stats x4 = bowling_stats y4)
    by (apply parse_bowling_stats_determined; assumption).
  assert (T4 : teams x4 = teams y4).
  { subst x4 y4. rewrite !(parse_bowling_stats_keeps teams soup ltac:(reflexivity)).
    exact T3. }
  assert (Ba4 : batting_stats x4 = batting_stats y4).
  { subst x4 y4. rewrite !(parse_bowling_stats_keeps batting_stats soup ltac:(reflexivity)).
    exact B3. }
  assert (C4 : commentary x4 = commentary y4).
  { subst x4 y4. rewrite !(parse_bowling_stats_keeps commentary soup ltac:(reflexivity)).
    exact C3. }
  split; [|split; [|split]].
  - rewrite !(parse_commentary_keeps teams soup ltac:(reflexivity)). exact T4.
  - rewrite !(parse_commentary_keeps batting_stats soup ltac:(reflexivity)). exact Ba4.
  - rewrite !(parse_commentary_keeps bowling_stats soup ltac:(reflexivity)). exact B4.
  - rewrite !parse_commentary_commentary. rewrite C4. reflexivity.
Qed.

Lemma parse_html_idempotent soup md :
  let once := exec (parse_html soup) md in
  let twice := exec (parse_html soup) once in
  teams twice = teams once
  /\ batting_stats twice = batting_stats once
  /\ bowling_stats twice = bowling_stats once
  /\ commentary twice = commentary once.
Proof.
  cbv zeta.
  set (once := exec (parse_html soup) md).
  (* the first run, extractor by extractor *)
  set (a1 := exec (parse_match_info soup) md).
  set (a2 := exec (parse_teams_and_scores soup) a1).
  set (a3 := exec (parse_batting_stats soup) a2).
  set (a4 := exec (parse_bowling_stats soup) a3).
  assert (Honce : once = exec (parse_commentary soup) a4) by reflexivity.
  (* the second run *)
  rewrite (parse_html_exec soup once).
  set (b1 := exec (parse_match_info soup) once).
  set (b2 := exec (parse_teams_and_scores soup) b1).
  set (b3 := exec (parse_batting_stats soup) b2).
  set (b4 := exec (parse_bowling_stats soup) b3).
  (* what the first run left *)
  assert (Tonce : teams once = teams a2).
  { rewrite Honce. subst a4 a3.
    rewrite (parse_commentary_keeps teams soup ltac:(reflexivity)).
    rewrite (parse_bowling_stats_keeps teams soup ltac:(reflexivity)).
    apply (parse_batting_stats_keeps teams soup); reflexivity. }
  assert (Sonce : mi_status (match_info once) = mi_status (match_info a1)).
  { rewrite Honce. subst a4 a3 a2.
    rewrite (parse_commentary_keeps (fun md => mi_status (match_info md)) soup
               ltac:(reflexivity)).
    rewrite (parse_bowling_stats_keeps (fun md => mi_status (match_info md)) soup
               ltac:(reflexivity)).
    rewrite parse_batting_stats_status.
    apply (parse_teams_and_scores_keeps (fun md => mi_status (match_info md)) soup).
    reflexivity. }
  assert (Baonce : batting_stats once = batting_stats a3).
  { rewrite Honce. subst a4.
    rewrite (parse_commentary_keeps batting_stats soup ltac:(reflexivity)).
    apply (parse_bowling_stats_keeps batting_stats soup). reflexivity. }
  assert (Boonce : bowling_stats once = bowling_stats a4).
  { rewrite Honce. apply (parse_commentary_keeps bowling_stats soup). reflexivity. }
  (* the status text *)
  assert (S1 : mi_status (match_info b1) = mi_status (match_info a1)).
  { subst b1. rewrite (parse_match_info_status soup once).
    destruct (status_elem soup) eqn:E; [|exact Sonce].
    subst a1. rewrite parse_match_info_status, E. reflexivity. }
  (* the teams *)
  assert (T1 : teams b1 = teams once).
  { apply (parse_match_info_keeps teams soup). reflexivity. }
  assert (T2 : teams b2 = teams a2).
  { subst b2. rewrite (parse_teams_and_scores_idempotent soup a1 b1).
    - rewrite T1. exact Tonce.
    - rewrite T1. exact Tonce. }
  assert (S2 : mi_status (match_info b2) = mi_status (match_info a2)).
  { subst b2 a2.
    rewrite !(parse_teams_and_scores_keeps (fun md => mi_status (match_info md)) soup
                ltac:(reflexivity)).
    exact S1. }
  (* the batting section *)
  assert (B3 : batting_stats b3 = batting_stats a3).
  { apply parse_batting_stats_determined; assumption. }
  assert (T3 : teams b3 = teams a3).
  { subst b3 a3.
    rewrite !(parse_batting_stats_keeps teams soup ltac:(reflexivity) ltac:(reflexivity)).
    exact T2. }
  assert (S3 : mi_status (match_info b3) = mi_status (match_info a3)).
  { subst b3 a3. rewrite !parse_batting_stats_status. exact S2. }
  (* the bowling section *)
  assert (B4 : bowling_stats b4 = bowling_stats a4).
  { apply parse_bowling_stats_determined; assumption. }
  split; [|split; [|split]].
  - rewrite (parse_commentary_keeps teams soup ltac:(reflexivity)). subst b4.
    rewrite (parse_bowling_stats_keeps teams soup ltac:(reflexivity)).
    rewrite T3, Tonce. subst a3.
    apply (parse_batting_stats_keeps teams soup); reflexivity.
  - rewrite (parse_commentary_keeps batting_stats soup ltac:(reflexivity)). subst b4.
    rewrite (parse_bowling_stats_keeps batting_stats soup ltac:(reflexivity)).
    rewrite B3, Baonce. reflexivity.
  - rewrite (parse_commentary_keeps bowling_stats soup ltac:(reflexivity)).
    rewrite B4, Boonce. reflexivity.
  - rewrite parse_commentary_commentary.
    assert (C4 : commentary b4 = commentary once).
    { subst b4 b3 b2 b1.
      rewrite (parse_bowling_stats_keeps commentary soup ltac:(reflexivity)).
      rewrite (parse_batting_stats_keeps commentary soup ltac:(reflexivity)
                 ltac:(reflexivity)).
      rewrite (parse_teams_and_scores_keeps commentary soup ltac:(reflexivity)).
      apply (parse_match_info_keeps commentary soup). reflexivity. }
    destruct (find_commentary_items soup) as [|item items] eqn:E; [exact C4|].
    change (commentary once) with (commentary (exec (parse_commentary soup) a4)).
    rewrite parse_commentary_commentary, E. reflexivity.
Qed.

Lemma update_exec now soup md :
  exec (update now (Some soup)) md
    = exec validate_data (set_last_updated now (exec (parse_html soup) md)).
Proof. reflexivity. Qed.

(** C8: run a second time on the same document, the extraction pass leaves
    the teams, the batting section, the bowling section and the commentary
    exactly as the first run left them, entry for entry and in the same
    order; and so does a second update cycle on the same document, whose
    validation step runs after the pass and whose timestamp alone may
    differ. *)
Theorem re_extraction_is_idempotent soup md now now' :
  (let once := exec (parse_html soup) md in
   let twice := exec (parse_html soup) once in
   teams twice = teams once
   /\ batting_stats twice = batting_stats once
   /\ bowling_stats twice = bowling_stats once
   /\ commentary twice = commentary once)
  /\ (let once := exec (update now (Some soup)) md in
      let twice := exec (update now' (Some soup)) once in
      teams twice = teams once
      /\ batting_stats twice = batting_stats once
      /\ bowling_stats twice = bowling_stats once
      /\ commentary twice = commentary once).
Proof.
  split; [apply parse_html_idempotent|]. cbv zeta.
  rewrite !update_exec.
  set (h := exec (parse_html soup) md).
  set (once := exec validate_data (set_last_updated now h)).
  destruct (parse_html_idempotent soup md) as (It & Iba & Ibo & Ic). fold h in It, Iba, Ibo, Ic.
  destruct (parse_html_determined soup once h eq_refl eq_refl eq_refl)
    as (Dt & Dba & Dbo & Dc).
  assert (Vt : forall m s, teams (exec validate_data (set_last_updated s m)) = teams m)
    by reflexivity.
  assert (Vc : forall m s, commentary (exec validate_data (set_last_updated s m))
                           = commentary m) by reflexivity.
  assert (Vba : forall m s, batting_stats (exec validate_data (set_last_updated s m))
                = (fun batsmen : list BattingEntry => fix_name <$> batsmen)
                    <$> batting_stats m) by reflexivity.
  assert (Vbo : forall m s, bowling_stats (exec validate_data (set_last_updated s m))
                = dedupe_bowlers <$> bowling_stats m) by reflexivity.
  split; [|split; [|split]].
  - rewrite Vt, Dt, It. subst once. rewrite Vt. reflexivity.
  - rewrite Vba, Dba, Iba. subst once. rewrite Vba. reflexivity.
  - rewrite Vbo, Dbo, Ibo. subst once. rewrite Vbo. reflexivity.
  - rewrite Vc, Dc, Ic. subst once. rewrite Vc. reflexivity.
Qed.

(** * Further properties of the scraper *)

(** ** The match information across update cycles *)

(** What [parse_match_info] leaves in [match_info], field by field. *)
Lemma parse_match_info_fields soup md :
  match_info (exec (parse_match_info soup) md) =
    let mi := match_info md in
    {| mi_title := match tournament_elem soup with
                   | Some text => strip text | None => mi_title mi end;
       mi_venue := match venue_elem soup with
                   | Some text => strip text | None => mi_venue mi end;
       mi_date := match date_elem soup with
                  | Some (text, false) => strip text | _ => mi_date mi end;
       mi_status := match status_elem soup with
                    | Some text => strip text | None => mi_status mi end;
       mi_result := mi_result mi;
       mi_match_id := mi_match_id mi;
       mi_tournament_id := mi_tournament_id mi;
       mi_player_of_match := match mom_elem soup with
                             | Some text => Some (strip text)
                             | None => mi_player_of_match mi end;
       mi_innings_status := mi_innings_status mi |}.
Proof.
  unfold parse_match_info, parse_match_info_body, exec, try_except, bind, when_some.
  destruct md as [mi ? ? ? ? ?], mi.
  destruct (tournament_elem soup), (status_elem soup), (date_elem soup) as [[? []]|],
    (mom_elem soup), (venue_elem soup); reflexivity.
Qed.

(** The batting extractor touches [match_info] through
    [set_innings_status] only. *)
Lemma batting_table_body_info (Q : MatchInfo -> Prop) bf bs count table md :
  (forall v mi, Q mi -> Q (set_innings_status v mi)) ->
  Q (match_info md) -> Q (match_info (exec (batting_table_body bf bs count table) md)).
Proof.
  intros HQ H. unfold exec. rewrite batting_table_body_run.
  destruct (negb _); [exact H|]. cbv zeta.
  destruct (yet_to_bat _); [exact H|].
  destruct (py_int _) as [wk|]; [|exact H].
  destruct (cross_check _ _ wk) as [res|]; [|exact H].
  destruct (nonempty _ && contains "20" _); [|exact H].
  cbn. apply HQ, H.
Qed.

Lemma batting_tables_loop_info (Q : MatchInfo -> Prop) bf bs tables :
  (forall v mi, Q mi -> Q (set_innings_status v mi)) ->
  forall count md,
  Q (match_info md) -> Q (match_info (exec (batting_tables_loop bf bs count tables) md)).
Proof.
  intros HQ. induction tables as [|table tables IH]; intros count md H; [exact H|].
  pose proof (batting_table_body_info Q bf bs count table md HQ H) as Hstep.
  unfold exec in *. cbn [batting_tables_loop]. unfold bind.
  destruct (batting_table_body bf bs count table md) as [md1 [c|ex]]; cbn [fst snd] in *.
  - apply IH, Hstep.
  - exact Hstep.
Qed.

Lemma parse_batting_stats_info (Q : MatchInfo -> Prop) soup md :
  (forall v mi, Q mi -> Q (set_innings_status v mi)) ->
  Q (match_info md) -> Q (match_info (exec (parse_batting_stats soup) md)).
Proof.
  intros HQ H. unfold parse_batting_stats, exec, try_except. cbn [fst].
  unfold parse_batting_stats_body, bind, modify, get. cbn [fst snd].
  match goal with
  | |- context [batting_tables_loop ?bf ?bs 0%nat _ ?m] =>
      apply (batting_tables_loop_info Q bf bs (batting_tables soup) HQ 0%nat m)
  end.
  exact H.
Qed.

(** A property of [match_info] that the two writers keep is kept by a whole
    update cycle. *)
Lemma update_info (Q : MatchInfo -> Prop) now fetched md :
  (forall soup md, Q (match_info md) -> Q (match_info (exec (parse_match_info soup) md))) ->
  (forall v mi, Q mi -> Q (set_innings_status v mi)) ->
  Q (match_info md) -> Q (match_info (exec (update now fetched) md)).
Proof.
  intros HI HQ H. destruct fetched as [soup|]; [|exact H].
  rewrite update_exec.
  change (Q (match_info (exec (parse_html soup) md))).
  rewrite parse_html_exec.
  rewrite (parse_commentary_keeps match_info soup ltac:(reflexivity)).
  rewrite (parse_bowling_stats_keeps match_info soup ltac:(reflexivity)).
  apply parse_batting_stats_info; [exact HQ|].
  rewrite (parse_teams_and_scores_keeps match_info soup ltac:(reflexivity)).
  apply HI, H.
Qed.

Lemma updates_info (Q : MatchInfo -> Prop) cycles :
  (forall soup md, Q (match_info md) -> Q (match_info (exec (parse_match_info soup) md))) ->
  (forall v mi, Q mi -> Q (set_innings_status v mi)) ->
  forall md, Q (match_info md) -> Q (match_info (updates cycles md)).
Proof.
  intros HI HQ. induction cycles as [|[now fetched] rest IH]; intros md H; [exact H|].
  cbn [updates]. apply IH, update_info; assumption.
Qed.

(** X1: whatever documents the update cycles see, the [result] field of the
    match information stays the empty string and the [match_id] and
    [tournament_id] fields stay the constructor's arguments; and a cycle never
    clears a player of the match or an innings status once one is set. *)
Theorem match_info_fields_never_written match_id tournament_id cycles :
  (let md := updates cycles (init_match_data match_id tournament_id) in
   mi_result (match_info md) = ""
   /\ mi_match_id (match_info md) = match_id
   /\ mi_tournament_id (match_info md) = tournament_id)
  /\ (forall now fetched md,
        let md' := exec (update now fetched) md in
        (is_Some (mi_player_of_match (match_info md)) ->
         is_Some (mi_player_of_match (match_info md')))
        /\ (is_Some (mi_innings_status (match_info md)) ->
            is_Some (mi_innings_status (match_info md')))).
Proof.
  split.
  - cbv zeta.
    apply (updates_info (fun mi => mi_result mi = "" /\ mi_match_id mi = match_id
                                   /\ mi_tournament_id mi = tournament_id)).
    + intros soup md H. rewrite parse_match_info_fields. exact H.
    + intros v mi H. exact H.
    + repeat split.
  - intros now fetched md. cbv zeta. split.
    + apply (update_info (fun mi => is_Some (mi_player_of_match mi))).
      * intros soup md0 H. rewrite parse_match_info_fields. cbn.
        destruct (mom_elem soup); [eauto | exact H].
      * intros v mi H. exact H.
    + apply (update_info (fun mi => is_Some (mi_innings_status mi))).
      * intros soup md0 H. rewrite parse_match_info_fields. exact H.
      * intros v mi H. cbn. eauto.
Qed.

(** ** The keys of the three dictionaries *)

(** The team loop writes the slots of its own sections only. *)
Lemma team_sections_loop_range key sections : forall i md,
  (forall j, (i <= j < i + length sections)%nat -> team_key j <> key) ->
  teams (exec (team_sections_loop i sections) md) !! key = teams md !! key.
Proof.
  induction sections as [|section rest IH]; intros i md Hkey; [reflexivity|].
  cbn [length] in Hkey.
  assert (Hput : forall slot, teams (put_slot (team_key i) slot md) !! key = teams md !! key).
  { intros slot. apply put_slot_other. intros ->. apply (Hkey i); [lia | reflexivity]. }
  unfold exec. cbn [team_sections_loop]. unfold bind. rewrite team_section_body_run.
  destruct (slot_step section (teams md !! team_key i)).2; [|apply Hput].
  fold (exec (team_sections_loop (S i) rest)
          (put_slot (team_key i) (slot_step section (teams md !! team_key i)).1 md)).
  rewrite IH by (intros j Hj; apply Hkey; lia). apply Hput.
Qed.

Lemma parse_teams_and_scores_other key soup md :
  key <> "team1" -> key <> "team2" ->
  teams (exec (parse_teams_and_scores soup) md) !! key = teams md !! key.
Proof.
  intros H1 H2. unfold parse_teams_and_scores, parse_teams_and_scores_body, exec,
    try_except. cbn [fst]. apply team_sections_loop_range.
  intros j Hj.
  assert (length (take 2 (team_sections soup)) <= 2)%nat as Hle.
  { rewrite length_take. lia. }
  destruct j as [|[|j]]; [intros E; apply H1; symmetry; exact E
                         | intros E; apply H2; symmetry; exact E | lia].
Qed.

(** A batting table is written to one of the two teams of the batting
    order. *)
Lemma batting_table_body_other key bf bs count table md :
  key <> bf -> key <> bs ->
  batting_stats (exec (batting_table_body bf bs count table) md) !! key
    = batting_stats md !! key.
Proof.
  intros Hf Hs. unfold exec. rewrite batting_table_body_run.
  destruct (negb _); [reflexivity|]. cbv zeta.
  set (k := match count with O => bf | S _ => bs end).
  assert (Hne : k <> key) by (subst k; destruct count; congruence).
  destruct (yet_to_bat _); [reflexivity|].
  destruct (py_int _) as [wk|]; cbn [fst].
  2:{ unfold set_batting_stats; simpl. apply lookup_insert_ne, Hne. }
  destruct (cross_check _ _ wk) as [res|]; cbn [fst].
  2:{ unfold set_batting_stats; simpl. apply lookup_insert_ne, Hne. }
  destruct (nonempty _ && contains "20" _);
    unfold set_match_info, set_batting_stats; simpl; apply lookup_insert_ne, Hne.
Qed.

Lemma batting_tables_loop_other key bf bs tables : forall count md,
  key <> bf -> key <> bs ->
  batting_stats (exec (batting_tables_loop bf bs count tables) md) !! key
    = batting_stats md !! key.
Proof.
  induction tables as [|table tables IH]; intros count md Hf Hs; [reflexivity|].
  pose proof (batting_table_body_other key bf bs count table md Hf Hs) as Hstep.
  unfold exec in *. cbn [batting_tables_loop]. unfold bind.
  destruct (batting_table_body bf bs count table md) as [md1 [c|ex]]; cbn [fst snd] in *.
  - rewrite IH by assumption. exact Hstep.
  - exact Hstep.
Qed.

Lemma parse_batting_stats_other key soup md :
  key <> "team1" -> key <> "team2" ->
  batting_stats (exec (parse_batting_stats soup) md) !! key = None.
Proof.
  intros H1 H2. unfold parse_batting_stats, exec, try_except. cbn [fst].
  unfold parse_batting_stats_body, bind, modify, get. cbn [fst snd].
  match goal with
  | |- context [batting_tables_loop ?bf ?bs 0%nat _ ?m] =>
      pose proof (batting_tables_loop_other key bf bs (batting_tables soup) 0 m) as H
  end.
  unfold exec in H. rewrite H; [apply lookup_empty| |];
    match goal with |- key <> (if ?c then _ else _) => destruct c; assumption end.
Qed.

(** The bowling table loop writes the lists of the two teams only. *)
Lemma bowling_tables_loop_third cbt key tables : forall count md,
  bowling_slots md -> key <> "team1" -> key <> "team2" ->
  bowling_stats (exec (bowling_tables_loop cbt count tables) md) !! key
    = bowling_stats md !! key.
Proof.
  induction tables as [|table tables IH]; intros count md Hs H1 H2; [reflexivity|].
  unfold exec. cbn [bowling_tables_loop]. unfold bind.
  rewrite (bowling_table_body_run _ _ _ _ Hs).
  destruct (bowling_header table) as [hdr|]; [|apply (IH count md Hs H1 H2)].
  cbv zeta. destruct (skips_table cbt _); [apply (IH count md Hs H1 H2)|].
  match goal with
  | |- context [bowling_tables_loop _ ?n tables ?m] =>
      pose proof (IH n m (bowling_slots_insert md _ _ Hs) H1 H2) as H
  end.
  unfold exec in H. rewrite H. unfold set_bowling_stats; simpl.
  apply lookup_insert_ne.
  destruct (assigned_bowling_team_cases table count) as [-> | ->]; congruence.
Qed.

Lemma parse_bowling_stats_third key soup md :
  key <> "team1" -> key <> "team2" ->
  bowling_stats (exec (parse_bowling_stats soup) md) !! key = None.
Proof.
  intros H1 H2. rewrite parse_bowling_stats_run'. cbv zeta.
  pose proof (bowling_tables_loop_third (resolve_current_bowling_team md) key
                (find_bowling_tables soup) 0 (bowling_cleared md)
                (bowling_cleared_slots md) H1 H2) as Hloop.
  assert (Hstart : bowling_stats (bowling_cleared md) !! key = None).
  { unfold bowling_cleared, set_bowling_stats; simpl.
    rewrite !lookup_insert_ne by congruence. apply lookup_empty. }
  destruct (any_bowling _).
  - rewrite Hloop. exact Hstart.
  - rewrite infer_missing_run, !infer_for_other by congruence.
    rewrite Hloop. exact Hstart.
Qed.

(** The dictionaries after a cycle that had a document. *)
Lemma update_teams now soup md :
  teams (exec (update now (Some soup)) md)
    = teams (exec (parse_teams_and_scores soup) (exec (parse_match_info soup) md)).
Proof.
  rewrite update_exec.
  change (teams (exec (parse_html soup) md) = teams
            (exec (parse_teams_and_scores soup) (exec (parse_match_info soup) md))).
  rewrite parse_html_exec.
  rewrite (parse_commentary_keeps teams soup ltac:(reflexivity)).
  rewrite (parse_bowling_stats_keeps teams soup ltac:(reflexivity)).
  apply (parse_batting_stats_keeps teams soup); reflexivity.
Qed.

Lemma update_batting_stats now soup md :
  batting_stats (exec (update now (Some soup)) md)
    = (fun batsmen : list BattingEntry => fix_name <$> batsmen)
        <$> batting_stats (exec (parse_batting_stats soup)
                             (exec (parse_teams_and_scores soup)
                                (exec (parse_match_info soup) md))).
Proof.
  rewrite update_exec.
  change (batting_stats (exec validate_data (set_last_updated now (exec (parse_html soup) md))))
    with ((fun batsmen : list BattingEntry => fix_name <$> batsmen)
            <$> batting_stats (exec (parse_html soup) md)).
  f_equal. rewrite parse_html_exec.
  rewrite (parse_commentary_keeps batting_stats soup ltac:(reflexivity)).
  apply (parse_bowling_stats_keeps batting_stats soup); reflexivity.
Qed.

Lemma update_bowling_stats now soup md :
  bowling_stats (exec (update now (Some soup)) md)
    = dedupe_bowlers
        <$> bowling_stats (exec (parse_bowling_stats soup)
                             (exec (parse_batting_stats soup)
                                (exec (parse_teams_and_scores soup)
                                   (exec (parse_match_info soup) md)))).
Proof.
  rewrite update_exec.
  change (bowling_stats (exec validate_data (set_last_updated now (exec (parse_html soup) md))))
    with (dedupe_bowlers <$> bowling_stats (exec (parse_html soup) md)).
  f_equal. rewrite parse_html_exec.
  apply (parse_commentary_keeps bowling_stats soup); reflexivity.
Qed.

(** X2: in every state a scraper can reach, the teams, the batting
    statistics and the bowling statistics have no key other than "team1"
    and "team2"; and after a cycle that had a document both bowling lists
    exist. *)
Theorem state_keys_are_team_slots md :
  reachable md ->
  team_slots_only md
  /\ (forall now soup st, bowling_slots (exec (update now (Some soup)) st)).
Proof.
  intros Hr. split.
  - induction Hr as [mid tid|now fetched md Hr IH].
    + intros key _ _. repeat split; apply lookup_empty.
    + destruct fetched as [soup|]; [|exact IH].
      intros key H1 H2. split; [|split].
      * rewrite update_teams, parse_teams_and_scores_other by assumption.
        rewrite (parse_match_info_keeps teams soup ltac:(reflexivity)).
        apply (IH key H1 H2).
      * rewrite update_batting_stats, lookup_fmap.
        rewrite parse_batting_stats_other by assumption. reflexivity.
      * rewrite update_bowling_stats, lookup_fmap.
        rewrite parse_bowling_stats_third by assumption. reflexivity.
  - intros now soup st. unfold bowling_slots. rewrite update_bowling_stats, !lookup_fmap.
    destruct (parse_bowling_stats_inv soup
                (exec (parse_batting_stats soup)
                   (exec (parse_teams_and_scores soup) (exec (parse_match_info soup) st))))
      as [[[l1 ->] [l2 ->]] _].
    split; eexists; reflexivity.
Qed.

Lemma state_keys_are_team_slots_witness :
  team_slots_only (exec (update "2025-04-01 19:52:10" (Some Samples.five_overs)) Samples.fresh).
Proof.
  apply (state_keys_are_team_slots
           (exec (update "2025-04-01 19:52:10" (Some Samples.five_overs)) Samples.fresh)).
  apply reachable_update, reachable_init.
Defined.

(** ** A failing team section *)

Lemma length_split_on sep s : length (split_on sep s) = S (count_char sep s).
Proof.
  induction s as [|c s IH]; [reflexivity|]. cbn [split_on count_char].
  destruct (Ascii.eqb c sep).
  - cbn [length]. rewrite IH. reflexivity.
  - destruct (split_on sep s) as [|w ws]; [discriminate|]. exact IH.
Qed.

(** A score with two slashes cannot be unpacked into runs and wickets. *)
Lemma score_fields_two_slashes text :
  (2 <= count_char "/" (strip (hd "" (split_on "(" text))))%nat ->
  score_fields text = Raise ValueError.
Proof.
  intros H. unfold score_fields. cbv zeta.
  set (score := strip (hd "" (split_on "(" text))) in *.
  rewrite mem_char_count.
  destruct (Nat.eqb_spec (count_char "/" score) 0) as [E|_]; [lia|]. cbn [negb].
  pose proof (length_split_on "/" score) as Hlen.
  destruct (split_on "/" score) as [|r [|w [|x rest]]]; cbn [length] in Hlen;
    [reflexivity | reflexivity | lia | reflexivity].
Qed.

Lemma section_raises i section md :
  ~ returns (team_section_body i section) md ->
  exists e, (slot_step section (teams md !! team_key i)).2 = Raise e.
Proof.
  intros H. destruct (slot_step section (teams md !! team_key i)).2 as [[]|e] eqn:E.
  - exfalso. apply H, team_section_body_returns, E.
  - eauto.
Qed.

(** X3: the team loop has one [try] around both sections: when the body of
    the first section fails, the second section is not processed and every
    slot but the first team's is left as it was before the cycle.  A score
    with two slashes is such a failure. *)
Theorem failing_first_section_stops_the_team_loop soup md section :
  team_sections soup !! 0%nat = Some section ->
  ~ returns (team_section_body 0 section) md ->
  (forall key, key <> "team1" ->
     teams (exec (parse_teams_and_scores soup) md) !! key = teams md !! key)
  /\ (forall i s e st,
        score_elem s = Some e -> yet_to_bat (strip (elem_text e)) = false ->
        (2 <= count_char "/" (strip (hd "" (split_on "(" (strip (elem_text e))))))%nat ->
        ~ returns (team_section_body i s) st).
Proof.
  intros Hsec Hfail. split.
  - intros key Hkey. destruct (section_raises 0 section md Hfail) as [ex Hex].
    unfold parse_teams_and_scores, parse_teams_and_scores_body, exec, try_except. cbn [fst].
    destruct (team_sections soup) as [|s0 rest]; [discriminate|].
    injection Hsec as ->. cbn [take team_sections_loop]. unfold bind.
    rewrite team_section_body_run, Hex. cbn [fst].
    apply put_slot_other. exact Hkey.
  - intros i s e st He Hyet Hcount Hret. apply team_section_body_returns in Hret.
    unfold slot_step in Hret. rewrite He in Hret. cbv zeta in Hret. rewrite Hyet in Hret.
    rewrite (score_fields_two_slashes _ Hcount) in Hret. discriminate.
Qed.

Lemma failing_first_section_stops_the_team_loop_witness :
  teams (exec (parse_teams_and_scores
                 (Samples.with_teams [Samples.team "Mumbai Indians" "45/1/0 (5.0)";
                                      Samples.team "Chennai Super Kings" "Yet to bat"]
                    Samples.blank)) Samples.fresh) !! "team2" = None.
Proof.
  set (soup := Samples.with_teams [Samples.team "Mumbai Indians" "45/1/0 (5.0)";
                                   Samples.team "Chennai Super Kings" "Yet to bat"]
                 Samples.blank).
  assert (Hfail : ~ returns (team_section_body 0 (Samples.team "Mumbai Indians" "45/1/0 (5.0)"))
                      Samples.fresh).
  { intros [a Ha]. vm_compute in Ha. discriminate. }
  apply (proj1 (failing_first_section_stops_the_team_loop soup Samples.fresh
                  (Samples.team "Mumbai Indians" "45/1/0 (5.0)") eq_refl Hfail) "team2").
  discriminate.
Defined.

(** ** The validation pass *)

(** *** Unclosed parentheses in batting names *)

Lemma mem_char_app_last c s : mem_char c (s +:+ String c "") = true.
Proof.
  rewrite mem_char_count, count_char_app. cbn [count_char]. rewrite Ascii.eqb_refl.
  destruct (Nat.eqb_spec (count_char c s + (1 + 0)) 0); [lia | reflexivity].
Qed.

Lemma fix_name_closed e : closed_parens (bat_name (fix_name e)) = true.
Proof.
  unfold fix_name, closed_parens. cbv zeta.
  destruct (mem_char "(" (bat_name e)) eqn:Eo, (mem_char ")" (bat_name e)) eqn:Ec;
    cbn [andb negb orb bat_name]; rewrite ?Eo, ?Ec; try reflexivity.
  rewrite (mem_char_app_last ")" (bat_name e)). apply orb_true_r.
Qed.

(** X4: in every state a scraper can reach, no batting entry has a name
    with an opening parenthesis and no closing one: the validation pass that
    ends a cycle closes the ones the batting extractor leaves open. *)
Theorem batting_names_have_closed_parentheses md :
  reachable md ->
  forall key l e, batting_stats md !! key = Some l -> e ∈ l ->
                  closed_parens (bat_name e) = true.
Proof.
  induction 1 as [mid tid|now fetched md Hr IH]; intros key l e Hl He.
  - cbn in Hl. rewrite lookup_empty in Hl. discriminate.
  - destruct fetched as [soup|]; [|apply (IH key l e Hl He)].
    rewrite update_batting_stats, lookup_fmap in Hl.
    destruct (batting_stats _ !! key) as [l0|]; [|discriminate].
    injection Hl as <-. apply list_elem_of_fmap in He as (e0 & -> & _).
    apply fix_name_closed.
Qed.

Lemma batting_names_have_closed_parentheses_witness :
  let md := exec (update "2025-04-01 19:52:10" (Some Samples.with_summary_rows))
              Samples.fresh in
  exists l e, batting_stats md !! "team1" = Some l /\ l !! 0%nat = Some e
              /\ bat_name e = "Rohit Sharma (c)" /\ closed_parens (bat_name e) = true.
Proof.
  cbv zeta. eexists. eexists. split; [vm_compute; reflexivity|].
  split; [reflexivity|]. split; [reflexivity|].
  eapply (batting_names_have_closed_parentheses
            (exec (update "2025-04-01 19:52:10" (Some Samples.with_summary_rows))
               Samples.fresh)
            (reachable_update _ _ _ (reachable_init _ _)) "team1").
  - vm_compute. reflexivity.
  - apply list_elem_of_here.
Defined.

(** *** Duplicate bowlers *)

Lemma elem_of_strb_spec x l : elem_of_strb x l = true <-> x ∈ l.
Proof.
  unfold elem_of_strb. rewrite existsb_exists. split.
  - intros (y & Hin & Heq). apply String.eqb_eq in Heq as ->. apply list_elem_of_In, Hin.
  - intros H. exists x. split; [apply list_elem_of_In, H | apply String.eqb_refl].
Qed.

Lemma dedupe_bowlers_kept l : dedupe_bowlers l = (unique_bowlers [] l).1.
Proof.
  unfold dedupe_bowlers. pose proof (unique_bowlers_spec [] l) as H.
  destruct (unique_bowlers [] l) as [kept [|dup]]; [|reflexivity].
  destruct H as (_ & _ & H). rewrite (H eq_refl). reflexivity.
Qed.

Lemma unique_bowlers_sublist l : forall seen, (unique_bowlers seen l).1 `sublist_of` l.
Proof.
  induction l as [|b l IH]; intros seen; cbn [unique_bowlers]; [constructor|].
  destruct (elem_of_strb (bowl_name b) seen).
  - specialize (IH seen). destruct (unique_bowlers seen l) as [kept dup]. cbn [fst] in *.
    apply sublist_cons, IH.
  - specialize (IH (bowl_name b :: seen)).
    destruct (unique_bowlers (bowl_name b :: seen) l) as [kept dup]. cbn [fst] in *.
    apply sublist_skip, IH.
Qed.

(** The first entry of every name not seen so far is kept. *)
Lemma unique_bowlers_first l : forall seen pre e post,
  l = pre ++ e :: post -> bowl_name e ∉ names pre -> bowl_name e ∉ seen ->
  e ∈ (unique_bowlers seen l).1.
Proof.
  induction l as [|b l IH]; intros seen pre e post Hl Hpre Hseen.
  - destruct pre; discriminate.
  - cbn [unique_bowlers]. destruct pre as [|p pre].
    + injection Hl as -> ->.
      destruct (elem_of_strb (bowl_name e) seen) eqn:E.
      { apply elem_of_strb_spec in E. contradiction. }
      destruct (unique_bowlers (bowl_name e :: seen) post) as [kept dup]. cbn [fst]. left.
    + injection Hl as -> ->. rewrite fmap_cons in Hpre.
      apply not_elem_of_cons in Hpre as [Hne Hpre].
      destruct (elem_of_strb (bowl_name p) seen).
      * specialize (IH seen pre e post eq_refl Hpre Hseen).
        destruct (unique_bowlers seen (pre ++ e :: post)) as [kept dup]. exact IH.
      * assert (Hseen' : bowl_name e ∉ bowl_name p :: seen).
        { apply not_elem_of_cons. split; assumption. }
        specialize (IH (bowl_name p :: seen) pre e post eq_refl Hpre Hseen').
        destruct (unique_bowlers (bowl_name p :: seen) (pre ++ e :: post)) as [kept dup].
        cbn [fst] in *. right. exact IH.
Qed.

(** A list without a repeated name passes unchanged. *)
Lemma unique_bowlers_id l : forall seen,
  NoDup (names l) -> (forall n, n ∈ names l -> n ∉ seen) ->
  unique_bowlers seen l = (l, 0%nat).
Proof.
  induction l as [|b l IH]; intros seen Hnd Hseen; [reflexivity|].
  cbn [unique_bowlers]. rewrite fmap_cons in Hnd. apply NoDup_cons in Hnd as [Hb Hnd].
  destruct (elem_of_strb (bowl_name b) seen) eqn:E.
  { apply elem_of_strb_spec in E. exfalso. apply (Hseen (bowl_name b)); [|exact E].
    rewrite fmap_cons. left. }
  rewrite (IH (bowl_name b :: seen) Hnd); [reflexivity|].
  intros n Hn. apply not_elem_of_cons. split.
  - intros ->. contradiction.
  - apply Hseen. rewrite fmap_cons. right. exact Hn.
Qed.

Lemma dedupe_bowlers_id l : NoDup (names l) -> dedupe_bowlers l = l.
Proof.
  intros H. rewrite dedupe_bowlers_kept, unique_bowlers_id; [reflexivity | exact H|].
  intros n _ Hn. inversion Hn.
Qed.

Lemma first_entry_of_name (l : list BowlingEntry) e :
  e ∈ l ->
  exists pre e' post, l = pre ++ e' :: post /\ bowl_name e' = bowl_name e
                      /\ bowl_name e' ∉ names pre.
Proof.
  induction l as [|b l IH]; intros He; [inversion He|].
  destruct (decide (bowl_name b = bowl_name e)) as [Heq|Hne].
  - exists [], b, l. split; [reflexivity|]. split; [exact Heq|]. intros H. inversion H.
  - apply elem_of_cons in He as [->|He]; [contradiction|].
    destruct (IH He) as (pre & e' & post & -> & Hn & Hpre).
    exists (b :: pre), e', post. split; [reflexivity|]. split; [exact Hn|].
    rewrite fmap_cons. apply not_elem_of_cons. split; [congruence | exact Hpre].
Qed.

(** X5: the duplicate removal of the validation pass keeps, of the entries
    of one name, the first (the upsert of the bowling extractor keeps the
    last parse): its result has no name twice, is the list with entries
    dropped but none moved, holds every entry that is the first of its name,
    and is the list itself when no name repeats. *)
Theorem duplicate_removal_keeps_first_entries l :
  NoDup (names (dedupe_bowlers l))
  /\ dedupe_bowlers l `sublist_of` l
  /\ (forall pre e post, l = pre ++ e :: post -> bowl_name e ∉ names pre ->
                         e ∈ dedupe_bowlers l)
  /\ (forall e, e ∈ l -> bowl_name e ∈ names (dedupe_bowlers l))
  /\ (NoDup (names l) -> dedupe_bowlers l = l).
Proof.
  split; [apply dedupe_bowlers_NoDup|].
  split; [rewrite dedupe_bowlers_kept; apply unique_bowlers_sublist|].
  assert (Hfirst : forall pre e post, l = pre ++ e :: post -> bowl_name e ∉ names pre ->
                                      e ∈ dedupe_bowlers l).
  { intros pre e post Hl Hpre. rewrite dedupe_bowlers_kept.
    apply (unique_bowlers_first l [] pre e post Hl Hpre). intros Hin. inversion Hin. }
  split; [exact Hfirst|].
  split; [|apply dedupe_bowlers_id].
  intros e He. destruct (first_entry_of_name l e He) as (pre & e' & post & Hl & Hn & Hpre).
  rewrite <- Hn. apply list_elem_of_fmap. exists e'. split; [reflexivity|].
  apply (Hfirst pre e' post Hl Hpre).
Qed.

(** The bowling section after a cycle is the one the extraction pass left. *)
Lemma update_bowling_stats_unchanged now soup md :
  bowling_stats (exec (update now (Some soup)) md)
    = bowling_stats (exec (parse_html soup) md).
Proof.
  rewrite update_exec.
  change (bowling_stats (exec validate_data (set_last_updated now (exec (parse_html soup) md))))
    with (dedupe_bowlers <$> bowling_stats (exec (parse_html soup) md)).
  assert (Hu : bowling_unique (exec (parse_html soup) md)).
  { intros key l. rewrite parse_html_exec.
    rewrite (parse_commentary_keeps bowling_stats soup ltac:(reflexivity)).
    apply parse_bowling_stats_inv. }
  apply map_eq. intros key. rewrite lookup_fmap.
  destruct (bowling_stats (exec (parse_html soup) md) !! key) as [l|] eqn:E; [|reflexivity].
  cbn. rewrite (dedupe_bowlers_id l (Hu key l E)). reflexivity.
Qed.

(** X6: within an update cycle the duplicate removal never changes
    anything: the bowling extractor enters every bowler by upsert, so the
    bowling section after the cycle is the one the extraction pass left, and
    of the validation pass only the closing of parentheses in batting names
    has an effect. *)
Theorem validation_never_removes_a_bowler now soup md :
  let parsed := exec (parse_html soup) md in
  let validated := exec (update now (Some soup)) md in
  bowling_stats validated = bowling_stats parsed
  /\ teams validated = teams parsed
  /\ commentary validated = commentary parsed
  /\ match_info validated = match_info parsed
  /\ batting_stats validated
     = (fun batsmen : list BattingEntry => fix_name <$> batsmen) <$> batting_stats parsed.
Proof.
  cbv zeta. split; [apply update_bowling_stats_unchanged|]. repeat split.
Qed.

(** ** The entries of the bowling lists *)

Lemma add_bowler_entries b l e : e ∈ add_bowler b l -> e = b \/ e ∈ l.
Proof.
  unfold add_bowler. destruct (existing_index (bowl_name b) l 0 None) as [i|].
  - intros He. apply list_elem_of_lookup in He as [j Hj].
    apply list_lookup_insert_Some in Hj as [(_ & -> & _) | (_ & Hj)]; [left; reflexivity|].
    right. apply list_elem_of_lookup. eauto.
  - intros He. apply elem_of_app in He as [He|He]; [right; exact He|].
    apply list_elem_of_singleton in He. left. exact He.
Qed.

Lemma add_bowlers_entries ps : forall l e, e ∈ add_bowlers l ps -> e ∈ ps \/ e ∈ l.
Proof.
  induction ps as [|p ps IH]; intros l e He; [right; exact He|].
  cbn in He. apply IH in He as [He|He]; [left; right; exact He|].
  apply add_bowler_entries in He as [->|He]; [left; left | right; exact He].
Qed.

Lemma all_bowlers_insert P md team l :
  all_bowlers P md -> (forall e, e ∈ l -> P e) ->
  all_bowlers P (set_bowling_stats (insert team l) md).
Proof.
  intros Hall Hl key l' e. unfold set_bowling_stats; simpl.
  rewrite lookup_insert_Some. intros [[_ <-] | [_ Hk]] He; [apply Hl, He|].
  apply (Hall key l' e Hk He).
Qed.

(** A property of every parsed row is a property of every entry the table
    loop leaves. *)
Lemma bowling_table_body_all P cbt count table md :
  (forall row b, bowler_of_row row = Some b -> P b) ->
  bowling_slots md -> all_bowlers P md ->
  all_bowlers P (exec (bowling_table_body cbt count table) md).
Proof.
  intros Hrow Hs Hall. unfold exec. rewrite (bowling_table_body_run _ _ _ _ Hs).
  destruct (bowling_header table) as [hdr|]; [|exact Hall].
  cbv zeta. destruct (skips_table cbt _); [exact Hall|]. cbn [fst].
  apply all_bowlers_insert; [exact Hall|].
  intros e He. apply add_bowlers_entries in He as [He|He].
  - apply list_elem_of_omap in He as (row & _ & Hb). apply (Hrow row e Hb).
  - destruct (bowling_slots_lookup md table count Hs) as [l Hl]. rewrite Hl in He.
    apply (Hall _ l e Hl He).
Qed.

Lemma bowling_tables_loop_all P cbt tables :
  (forall row b, bowler_of_row row = Some b -> P b) ->
  forall count md,
  bowling_slots md -> all_bowlers P md ->
  all_bowlers P (exec (bowling_tables_loop cbt count tables) md).
Proof.
  intros Hrow. induction tables as [|table tables IH]; intros count md Hs Hall; [exact Hall|].
  pose proof (bowling_table_body_all P cbt count table md Hrow Hs Hall) as Hstep.
  assert (Hs' : bowling_slots (exec (bowling_table_body cbt count table) md)).
  { unfold exec. rewrite (bowling_table_body_run _ _ _ _ Hs).
    destruct (bowling_header table) as [hdr|]; [|exact Hs].
    cbv zeta. destruct (skips_table cbt _); [exact Hs|]. apply bowling_slots_insert, Hs. }
  unfold exec in *. cbn [bowling_tables_loop]. unfold bind.
  destruct (bowling_table_body cbt count table md) as [md1 [c|ex]]; cbn [fst snd] in *.
  - apply IH; assumption.
  - exact Hstep.
Qed.

Lemma all_bowlers_cleared P md : all_bowlers P (bowling_cleared md).
Proof.
  intros key l e. unfold bowling_cleared, set_bowling_stats; simpl.
  rewrite !lookup_insert_Some, lookup_empty.
  intros [[_ <-] | [_ [[_ <-] | [_ H]]]] He; [inversion He | inversion He | discriminate].
Qed.

Lemma any_bowling_false md :
  any_bowling md = false -> forall key l, bowling_stats md !! key = Some l -> l = [].
Proof.
  intros H key l Hl. destruct l as [|e l]; [reflexivity|].
  assert (any_bowling md = true); [|congruence].
  apply any_bowling_true. exists key, (e :: l). split; [exact Hl | discriminate].
Qed.

Lemma placeholder_bowler_teams md md' key :
  teams md = teams md' -> placeholder_bowler md key = placeholder_bowler md' key.
Proof. intros H. unfold placeholder_bowler, team_get. rewrite H. reflexivity. Qed.

Lemma bowler_of_row_parsed row b : bowler_of_row row = Some b -> bowl_inferred b = None.
Proof.
  unfold bowler_of_row. destruct (tr_first_td row) as [[link text]|]; [|discriminate].
  cbv zeta. destruct (_ || _); [discriminate|].
  destruct (tr_tds row) as [|? [|? [|? [|? [|? [|? ?]]]]]]; try discriminate.
  intros [= <-]. reflexivity.
Qed.

(** The state the table loop leaves, and what it keeps of the state it
    started from. *)
Lemma after_bowling_loop soup md :
  let after_loop :=
    exec (bowling_tables_loop (resolve_current_bowling_team md) 0
            (find_bowling_tables soup)) (bowling_cleared md) in
  bowling_slots after_loop
  /\ all_bowlers (fun e => bowl_inferred e = None) after_loop
  /\ teams after_loop = teams md
  /\ batting_stats after_loop = batting_stats md.
Proof.
  cbv zeta.
  destruct (bowling_tables_loop_inv (resolve_current_bowling_team md)
              (find_bowling_tables soup) 0 (bowling_cleared md)
              (bowling_cleared_slots md) (bowling_cleared_unique md)) as (Hs & _).
  split; [exact Hs|]. split.
  - apply bowling_tables_loop_all;
      [apply bowler_of_row_parsed | apply bowling_cleared_slots | apply all_bowlers_cleared].
  - split.
    + apply (bowling_tables_loop_keeps teams _ _ ltac:(reflexivity) 0%nat (bowling_cleared md)).
    + apply (bowling_tables_loop_keeps batting_stats _ _ ltac:(reflexivity) 0%nat
               (bowling_cleared md)).
Qed.

(** What [infer_for] writes, and when. *)
Lemma infer_for_cases batting_key bowling_key md :
  infer_for batting_key bowling_key md = (md, Ok tt)
  \/ infer_for batting_key bowling_key md =
       (set_bowling_stats (insert bowling_key [placeholder_bowler md batting_key]) md, Ok tt)
     /\ nonempty (team_score_lower md batting_key) = true
     /\ contains "yet to bat" (team_score_lower md batting_key) = false
     /\ default [] (batting_stats md !! batting_key) <> [].
Proof.
  unfold infer_for, bind, get, when, modify, ret.
  destruct (nonempty (team_score_lower md batting_key)); [|left; reflexivity].
  destruct (contains "yet to bat" (team_score_lower md batting_key)); [left; reflexivity|].
  cbn [negb andb].
  destruct (default [] (batting_stats md !! batting_key)); [left; reflexivity|].
  right. repeat split. discriminate.
Qed.

Lemma batted_with_entries_same md md' key :
  teams md = teams md' -> batting_stats md = batting_stats md' ->
  batted_with_entries md key -> batted_with_entries md' key.
Proof.
  intros Ht Hb. unfold batted_with_entries, team_score_lower, team_get.
  rewrite Ht, Hb. auto.
Qed.

(** The inference on a state without any bowler. *)
Lemma infer_missing_lists md :
  (forall key l, bowling_stats md !! key = Some l -> l = []) ->
  forall key l, bowling_stats (exec _infer_missing_bowling_stats md) !! key = Some l ->
    l = []
    \/ ((key = "team1" \/ key = "team2")
        /\ l = [placeholder_bowler md (opposing_team key)]
        /\ batted_with_entries md (opposing_team key)).
Proof.
  intros Hempty key l. rewrite infer_missing_run. unfold exec.
  destruct (infer_for_cases "team1" "team2" md) as [-> | (-> & H1)]; cbn [fst].
  - destruct (infer_for_cases "team2" "team1" md) as [-> | (-> & H2)]; cbn [fst].
    + intros Hl. left. apply (Hempty key l Hl).
    + unfold set_bowling_stats; simpl. rewrite lookup_insert_Some.
      intros [[<- <-] | [_ Hl]]; [|left; apply (Hempty key l Hl)].
      right. split; [left; reflexivity|]. split; [reflexivity | exact H2].
  - set (md1 := set_bowling_stats (insert "team2" [placeholder_bowler md "team1"]) md).
    assert (Ht : teams md1 = teams md) by reflexivity.
    assert (Hb : batting_stats md1 = batting_stats md) by reflexivity.
    assert (Hfirst : forall l', bowling_stats md1 !! key = Some l' ->
              l' = [] \/ ((key = "team1" \/ key = "team2")
                          /\ l' = [placeholder_bowler md (opposing_team key)]
                          /\ batted_with_entries md (opposing_team key))).
    { intros l'. unfold md1, set_bowling_stats; simpl. rewrite lookup_insert_Some.
      intros [[<- <-] | [_ Hl]]; [|left; apply (Hempty key l' Hl)].
      right. split; [right; reflexivity|]. split; [reflexivity | exact H1]. }
    destruct (infer_for_cases "team2" "team1" md1) as [-> | (-> & H2)]; cbn [fst].
    + apply Hfirst.
    + unfold set_bowling_stats at 1; simpl. rewrite lookup_insert_Some.
      intros [[<- <-] | [_ Hl]]; [|apply (Hfirst l Hl)].
      right. split; [left; reflexivity|]. split.
      * rewrite (placeholder_bowler_teams md1 md "team2" Ht). reflexivity.
      * apply (batted_with_entries_same md1 md "team2" Ht Hb H2).
Qed.

(** The lists the bowling extractor leaves: parsed rows only, or, when not
    one row was parsed, what the inference writes. *)
Lemma parse_bowling_stats_lists soup md :
  let after_loop :=
    exec (bowling_tables_loop (resolve_current_bowling_team md) 0
            (find_bowling_tables soup)) (bowling_cleared md) in
  let md' := exec (parse_bowling_stats soup) md in
  (md' = after_loop /\ all_bowlers (fun e => bowl_inferred e = None) md')
  \/ (forall key l, bowling_stats md' !! key = Some l ->
        l = []
        \/ ((key = "team1" \/ key = "team2")
            /\ l = [placeholder_bowler md (opposing_team key)]
            /\ batted_with_entries md (opposing_team key))).
Proof.
  cbv zeta. rewrite parse_bowling_stats_run'. cbv zeta.
  destruct (after_bowling_loop soup md) as (Hs & Hparsed & Ht & Hb).
  set (after_loop := exec (bowling_tables_loop (resolve_current_bowling_team md) 0
                             (find_bowling_tables soup)) (bowling_cleared md)) in *.
  destruct (any_bowling after_loop) eqn:Eany; [left; split; [reflexivity | exact Hparsed]|].
  right. intros key l Hl.
  destruct (infer_missing_lists after_loop (any_bowling_false after_loop Eany) key l Hl)
    as [-> | (Hk & -> & Hbat)]; [left; reflexivity|].
  right. split; [exact Hk|]. split.
  - apply f_equal2; [|reflexivity]. apply placeholder_bowler_teams, Ht.
  - apply (batted_with_entries_same after_loop md _ Ht Hb Hbat).
Qed.

Lemma placeholder_lists_inferred md md' :
  (forall key l, bowling_stats md' !! key = Some l ->
     l = []
     \/ ((key = "team1" \/ key = "team2")
         /\ l = [placeholder_bowler md (opposing_team key)]
         /\ batted_with_entries md (opposing_team key))) ->
  all_bowlers (fun e => bowl_inferred e = Some true) md'.
Proof.
  intros Hlists key l e Hl He.
  destruct (Hlists key l Hl) as [-> | (_ & -> & _)]; [inversion He|].
  apply list_elem_of_singleton in He as ->. reflexivity.
Qed.

(** X7: a placeholder entry (the one marked as inferred) is written only
    when the tables gave not a single bowler: then it is the only entry of
    its list, it stands in the list of the team that bowled to a side that
    has a score other than "yet to bat" and has batting entries, and it
    carries that side's overs, runs and wickets; and no list holds a parsed
    bowler beside a placeholder. *)
Theorem placeholder_only_without_parsed_bowlers soup md :
  let md' := exec (parse_bowling_stats soup) md in
  (forall key l e,
      bowling_stats md' !! key = Some l -> e ∈ l -> bowl_inferred e = Some true ->
      (key = "team1" \/ key = "team2")
      /\ l = [placeholder_bowler md (opposing_team key)]
      /\ batted_with_entries md (opposing_team key)
      /\ all_bowlers (fun e' => bowl_inferred e' = Some true) md')
  /\ (forall key, bowl_name (placeholder_bowler md key) = "Bowling data not available"
                  /\ bowl_overs (placeholder_bowler md key) = team_get md key t_overs "0.0"
                  /\ bowl_runs (placeholder_bowler md key) = team_get md key t_runs "0"
                  /\ bowl_wickets (placeholder_bowler md key) = team_get md key t_wickets "0").
Proof.
  cbv zeta. split; [|intros key; repeat split].
  intros key l e Hl He Hinf.
  destruct (parse_bowling_stats_lists soup md) as [[_ Hparsed] | Hlists].
  - rewrite (Hparsed key l e Hl He) in Hinf. discriminate.
  - destruct (Hlists key l Hl) as [-> | (Hk & -> & Hbat)]; [inversion He|].
    split; [exact Hk|]. split; [reflexivity|]. split; [exact Hbat|].
    apply (placeholder_lists_inferred md), Hlists.
Qed.

(** X8: whenever the role resolver designates a bowling team, whichever of
    its rules does, the list of the other team holds no parsed bowler after
    the bowling extractor: it is empty, or it is the placeholder (when no
    table gave a bowler at all). *)
Theorem designated_team_alone_has_parsed_bowlers soup md c key :
  resolve_current_bowling_team md = Some c -> key <> c ->
  key = "team1" \/ key = "team2" ->
  let md' := exec (parse_bowling_stats soup) md in
  bowling_stats md' !! key = Some []
  \/ (bowling_stats md' !! key = Some [placeholder_bowler md (opposing_team key)]
      /\ batted_with_entries md (opposing_team key)
      /\ all_bowlers (fun e => bowl_inferred e = Some true) md').
Proof.
  intros Hres Hne Hkey. cbv zeta.
  assert (Hsome : is_Some (bowling_stats (exec (parse_bowling_stats soup) md) !! key)).
  { destruct (parse_bowling_stats_inv soup md) as [[H1 H2] _].
    destruct Hkey as [-> | ->]; assumption. }
  destruct Hsome as [l Hl].
  destruct (parse_bowling_stats_lists soup md) as [[Hsame _] | Hlists].
  - left. rewrite Hl. f_equal. rewrite Hsame, Hres in Hl.
    rewrite (bowling_tables_loop_other c key (find_bowling_tables soup) 0
               (bowling_cleared md) (bowling_cleared_slots md) Hne) in Hl.
    revert Hl. unfold bowling_cleared, set_bowling_stats; simpl.
    rewrite !lookup_insert_Some, lookup_empty.
    intros [[_ <-] | [_ [[_ <-] | [_ H]]]]; [reflexivity | reflexivity | discriminate].
  - destruct (Hlists key l Hl) as [-> | (_ & -> & Hbat)]; [left; exact Hl|].
    right. split; [exact Hl|]. split; [exact Hbat|].
    apply (placeholder_lists_inferred md), Hlists.
Qed.

Lemma designated_team_alone_has_parsed_bowlers_witness :
  let md := exec (parse_teams_and_scores Samples.chase) Samples.fresh in
  let md' := exec (parse_bowling_stats Samples.chase) md in
  resolve_current_bowling_team md = Some "team1"
  /\ (bowling_stats md' !! "team2" = Some []
      \/ (bowling_stats md' !! "team2" = Some [placeholder_bowler md (opposing_team "team2")]
          /\ batted_with_entries md (opposing_team "team2")
          /\ all_bowlers (fun e => bowl_inferred e = Some true) md')).
Proof.
  cbv zeta. split; [vm_compute; reflexivity|].
  apply (designated_team_alone_has_parsed_bowlers Samples.chase
           (exec (parse_teams_and_scores Samples.chase) Samples.fresh) "team1" "team2").
  - vm_compute. reflexivity.
  - discriminate.
  - right. reflexivity.
Defined.

(** ** The names in the lists *)

(** *** Stripping *)

Lemma lstrip_while_head f s c :
  head_char (lstrip_while f s) = Some c -> f c = false.
Proof.
  induction s as [|a s IH]; [discriminate|]. cbn [lstrip_while].
  destruct (f a) eqn:E; [exact IH|]. intros [= <-]. exact E.
Qed.

Lemma rstrip_while_head f s c :
  head_char (rstrip_while f s) = Some c -> head_char s = Some c.
Proof.
  destruct s as [|a s]; [discriminate|]. cbn [rstrip_while].
  destruct (rstrip_while f s); [destruct (f a); [discriminate|]|]; intros H; exact H.
Qed.

Lemma rstrip_while_last f s c :
  last_char (rstrip_while f s) = Some c -> f c = false.
Proof.
  induction s as [|a s IH]; [discriminate|]. cbn [rstrip_while].
  destruct (rstrip_while f s) as [|b r] eqn:E.
  - destruct (f a) eqn:Ea; [discriminate|]. intros [= <-]. exact Ea.
  - intros H. apply IH. exact H.
Qed.

Lemma clean_player_name_clean raw : clean_name (clean_player_name raw).
Proof.
  unfold clean_name, clean_player_name. cbv zeta. split.
  - intros c Hc. apply rstrip_while_head, lstrip_while_head in Hc.
    apply negb_false_iff in Hc. exact Hc.
  - intros c Hc. apply rstrip_while_last in Hc.
    destruct (isalpha c); [left; reflexivity|]. right.
    cbn [negb andb] in Hc. apply negb_false_iff, Ascii.eqb_eq in Hc. exact Hc.
Qed.

(** *** A pattern at the end of a text *)

Lemma lower_app a b : lower (a +:+ b) = lower a +:+ lower b.
Proof.
  induction a as [|c a IH]; [reflexivity|]. norm_app. cbn [lower]. norm_app.
  rewrite IH. reflexivity.
Qed.

Lemma startswith_app_last p c : count_char c p = 0%nat -> forall t,
  startswith p (t +:+ String c "") = startswith p t.
Proof.
  induction p as [|a p IH]; intros Hc t; [destruct t; reflexivity|].
  cbn [count_char] in Hc. destruct (Ascii.eqb a c) eqn:Eac; [discriminate|].
  destruct t as [|b t]; norm_app; cbn [startswith].
  - rewrite Eac. reflexivity.
  - rewrite (IH Hc t). reflexivity.
Qed.

Lemma contains_app_last p c s :
  p <> "" -> count_char c p = 0%nat ->
  contains p (s +:+ String c "") = contains p s.
Proof.
  intros Hp Hc. induction s as [|a s IH].
  - norm_app. destruct p as [|b p]; [contradiction|].
    cbn [count_char] in Hc. destruct (Ascii.eqb b c) eqn:Ebc; [discriminate|].
    cbn. rewrite Ebc. destruct p; reflexivity.
  - norm_app. cbn [contains].
    change (String a (s +:+ String c "")) with (String a s +:+ String c "").
    rewrite (startswith_app_last p c Hc (String a s)), IH. reflexivity.
Qed.

Lemma summary_name_closing name : summary_name (name +:+ ")") = summary_name name.
Proof.
  unfold summary_name. rewrite lower_app. change (lower ")") with ")".
  rewrite !contains_app_last by (discriminate || reflexivity). reflexivity.
Qed.

(** *** Rows *)

Lemma bowler_of_row_name row b :
  bowler_of_row row = Some b ->
  summary_name (bowl_name b) = false /\ clean_name (bowl_name b).
Proof.
  unfold bowler_of_row. destruct (tr_first_td row) as [[link text]|]; [|discriminate].
  cbv zeta. fold (summary_name (clean_player_name (default text link))).
  destruct (summary_name _) eqn:E; [discriminate|].
  destruct (tr_tds row) as [|? [|? [|? [|? [|? [|? ?]]]]]]; try discriminate.
  intros [= <-]. cbn [bowl_name]. split; [exact E | apply clean_player_name_clean].
Qed.

Lemma batsman_of_row_name row b :
  batsman_of_row row = Some b -> summary_name (b_name b) = false.
Proof.
  unfold batsman_of_row. destruct (row_first_td (row_tag row)) as [cell|]; [|discriminate].
  cbv zeta.
  set (player_name := match nc_link cell with
                      | Some t => strip t | None => strip (nc_text cell) end).
  fold (summary_name player_name). destruct (summary_name player_name) eqn:E; [discriminate|].
  destruct (row_tds (row_tag row)) as [|? [|? [|? [|? [|? [|? ?]]]]]]; try discriminate.
  intros [= <-]. exact E.
Qed.

(** The inference changes flags and labels, never a name. *)
Lemma mark_loop_names cur w : forall l o b,
  b ∈ mark_loop cur w o l -> exists b0, b0 ∈ l /\ b_name b = b_name b0.
Proof.
  induction l as [|x l IH]; intros o b Hb; [inversion Hb|].
  cbn [mark_loop] in Hb. destruct (b_is_out x || bool_decide (x ∈ cur)).
  - apply elem_of_cons in Hb as [->|Hb]; [exists x; split; [left | reflexivity]|].
    destruct (IH _ _ Hb) as (b0 & H0 & Hn). exists b0. split; [right; exact H0 | exact Hn].
  - destruct (w <=? o + 1).
    + apply elem_of_cons in Hb as [->|Hb]; [exists x; split; [left | reflexivity]|].
      exists b. split; [right; exact Hb | reflexivity].
    + apply elem_of_cons in Hb as [->|Hb]; [exists x; split; [left | reflexivity]|].
      destruct (IH _ _ Hb) as (b0 & H0 & Hn). exists b0. split; [right; exact H0 | exact Hn].
Qed.

Lemma cross_check_names rows all wk res b :
  cross_check rows all wk = Some res -> b ∈ res ->
  exists b0, b0 ∈ all /\ b_name b = b_name b0.
Proof.
  unfold cross_check. cbv zeta. destruct (count_out all <? wk).
  - destruct (highest_scorers (in_batting_order rows all)) as [cur|]; [|discriminate].
    cbn. intros [= <-] Hb. destruct (mark_loop_names _ _ _ _ _ Hb) as (b0 & H0 & Hn).
    exists b0. split; [|exact Hn].
    rewrite <- (in_batting_order_perm rows all). exact H0.
  - intros [= <-] Hb. exists b. split; [exact Hb | reflexivity].
Qed.

(** *** The lists *)

Lemma all_batters_insert P md team l :
  all_batters P md -> (forall e, e ∈ l -> P e) ->
  all_batters P (set_batting_stats (insert team l) md).
Proof.
  intros Hall Hl key l' e. unfold set_batting_stats; simpl.
  rewrite lookup_insert_Some. intros [[_ <-] | [_ Hk]] He; [apply Hl, He|].
  apply (Hall key l' e Hk He).
Qed.

(** A property of the names of the rows is a property of the names in the
    lists. *)
Lemma batting_table_body_names (Q : string -> Prop) bf bs count table md :
  (forall row b, batsman_of_row row = Some b -> Q (b_name b)) ->
  all_batters (fun e => Q (bat_name e)) md ->
  all_batters (fun e => Q (bat_name e)) (exec (batting_table_body bf bs count table) md).
Proof.
  intros Hrow Hall. unfold exec. rewrite batting_table_body_run.
  destruct (negb _); [exact Hall|]. cbv zeta.
  destruct (yet_to_bat _); [exact Hall|].
  destruct (py_int _) as [wk|]; cbn [fst].
  2:{ apply all_batters_insert; [exact Hall | intros e He; inversion He]. }
  destruct (cross_check _ _ wk) as [res|] eqn:Ecc; cbn [fst].
  2:{ apply all_batters_insert; [exact Hall | intros e He; inversion He]. }
  assert (Hres : forall e, e ∈ batting_entry <$> res -> Q (bat_name e)).
  { intros e He. apply list_elem_of_fmap in He as (b & -> & Hb).
    destruct (cross_check_names _ _ _ _ _ Ecc Hb) as (b0 & H0 & Hn).
    apply list_elem_of_omap in H0 as (row & _ & Hrowb).
    cbn [batting_entry bat_name]. rewrite Hn. apply (Hrow row b0 Hrowb). }
  destruct (nonempty _ && contains "20" _).
  - intros key l e. cbn [batting_stats set_match_info].
    apply (all_batters_insert _ md _ _ Hall Hres).
  - apply (all_batters_insert _ md _ _ Hall Hres).
Qed.

Lemma batting_tables_loop_names (Q : string -> Prop) bf bs tables :
  (forall row b, batsman_of_row row = Some b -> Q (b_name b)) ->
  forall count md,
  all_batters (fun e => Q (bat_name e)) md ->
  all_batters (fun e => Q (bat_name e)) (exec (batting_tables_loop bf bs count tables) md).
Proof.
  intros Hrow. induction tables as [|table tables IH]; intros count md Hall; [exact Hall|].
  pose proof (batting_table_body_names Q bf bs count table md Hrow Hall) as Hstep.
  unfold exec in *. cbn [batting_tables_loop]. unfold bind.
  destruct (batting_table_body bf bs count table md) as [md1 [c|ex]]; cbn [fst snd] in *.
  - apply IH, Hstep.
  - exact Hstep.
Qed.

Lemma parse_batting_stats_names (Q : string -> Prop) soup md :
  (forall row b, batsman_of_row row = Some b -> Q (b_name b)) ->
  all_batters (fun e => Q (bat_name e)) (exec (parse_batting_stats soup) md).
Proof.
  intros Hrow. unfold parse_batting_stats, exec, try_except. cbn [fst].
  unfold parse_batting_stats_body, bind, modify, get. cbn [fst snd].
  match goal with
  | |- context [batting_tables_loop ?bf ?bs 0%nat _ ?m] =>
      apply (batting_tables_loop_names Q bf bs (batting_tables soup) Hrow 0%nat m)
  end.
  intros key l e. cbn. rewrite lookup_empty. discriminate.
Qed.

(** A property of every parsed row and of the placeholder is a property of
    every entry the bowling extractor leaves. *)
Lemma parse_bowling_stats_all P soup md :
  (forall row b, bowler_of_row row = Some b -> P b) ->
  (forall key, P (placeholder_bowler md key)) ->
  all_bowlers P (exec (parse_bowling_stats soup) md).
Proof.
  intros Hrow Hplace.
  destruct (parse_bowling_stats_lists soup md) as [[Hsame _] | Hlists].
  - rewrite Hsame. apply bowling_tables_loop_all;
      [exact Hrow | apply bowling_cleared_slots | apply all_bowlers_cleared].
  - intros key l e Hl He.
    destruct (Hlists key l Hl) as [-> | (_ & -> & _)]; [inversion He|].
    apply list_elem_of_singleton in He as ->. apply Hplace.
Qed.

Lemma update_all_bowlers P now soup md :
  (forall row b, bowler_of_row row = Some b -> P b) ->
  (forall st key, P (placeholder_bowler st key)) ->
  all_bowlers P (exec (update now (Some soup)) md).
Proof.
  intros Hrow Hplace key l e. rewrite update_bowling_stats_unchanged, parse_html_exec.
  rewrite (parse_commentary_keeps bowling_stats soup ltac:(reflexivity)).
  apply parse_bowling_stats_all; [exact Hrow | apply Hplace].
Qed.

(** X9: in every state a scraper can reach, no batting entry and no
    bowling entry is a summary row of its table: no name contains "total" or
    "extras", in any case. *)
Theorem summary_rows_are_never_entered md :
  reachable md ->
  all_batters (fun e => summary_name (bat_name e) = false) md
  /\ all_bowlers (fun e => summary_name (bowl_name e) = false) md.
Proof.
  induction 1 as [mid tid|now fetched md Hr [IHbat IHbowl]].
  - split; intros key l e Hl; cbn in Hl; rewrite lookup_empty in Hl; discriminate.
  - destruct fetched as [soup|]; [|split; assumption]. split.
    + intros key l e. rewrite update_batting_stats, lookup_fmap.
      destruct (batting_stats _ !! key) as [l0|] eqn:E; [|discriminate].
      intros [= <-] He. apply list_elem_of_fmap in He as (e0 & -> & He0).
      pose proof (parse_batting_stats_names (fun n => summary_name n = false) soup _
                    batsman_of_row_name key l0 e0 E He0) as Hn. cbn beta in Hn.
      unfold fix_name. cbv zeta. destruct (_ && _); [|exact Hn].
      cbn [bat_name]. rewrite summary_name_closing. exact Hn.
    + apply update_all_bowlers.
      * intros row b Hb. apply (bowler_of_row_name row b Hb).
      * intros st key. reflexivity.
Qed.

Lemma summary_rows_are_never_entered_witness :
  let md := exec (update "2025-04-01 19:52:10" (Some Samples.with_summary_rows))
              Samples.fresh in
  (exists l, batting_stats md !! "team1" = Some l /\ length l = 2%nat)
  /\ all_batters (fun e => summary_name (bat_name e) = false) md
  /\ all_bowlers (fun e => summary_name (bowl_name e) = false) md.
Proof.
  cbv zeta. split; [eexists; split; [vm_compute; reflexivity | reflexivity]|].
  apply (summary_rows_are_never_entered
           (exec (update "2025-04-01 19:52:10" (Some Samples.with_summary_rows))
              Samples.fresh)).
  apply reachable_update, reachable_init.
Defined.

(** X10: in every state a scraper can reach, a bowler's name is empty or
    runs from a letter to a letter or a closing parenthesis: the cleaning of
    the name cell leaves no digit, blank or punctuation at either end. *)
Theorem bowler_names_are_clean md :
  reachable md -> all_bowlers (fun e => clean_name (bowl_name e)) md.
Proof.
  induction 1 as [mid tid|now fetched md Hr IH].
  - intros key l e Hl; cbn in Hl; rewrite lookup_empty in Hl; discriminate.
  - destruct fetched as [soup|]; [|exact IH].
    apply update_all_bowlers.
    + intros row b Hb. apply (bowler_of_row_name row b Hb).
    + intros st key. split; intros c [= <-]; [reflexivity | left; reflexivity].
Qed.

Lemma bowler_names_are_clean_witness :
  let md := exec (update "2025-04-01 19:52:10" (Some Samples.with_summary_rows))
              Samples.fresh in
  (exists l, bowling_stats md !! "team2" = Some l
             /\ names l = ["Chahar"; "Pathirana (vc)"])
  /\ all_bowlers (fun e => clean_name (bowl_name e)) md.
Proof.
  cbv zeta. split; [eexists; split; [vm_compute; reflexivity | reflexivity]|].
  apply (bowler_names_are_clean
           (exec (update "2025-04-01 19:52:10" (Some Samples.with_summary_rows))
              Samples.fresh)).
  apply reachable_update, reachable_init.
Defined.

(** ** Parsing the same rows again *)

Lemma last_entry_of_name (ps : list BowlingEntry) p :
  p ∈ ps ->
  exists before b after, ps = before ++ b :: after /\ bowl_name b = bowl_name p
                         /\ Forall (fun q => bowl_name q <> bowl_name b) after.
Proof.
  revert p. induction ps as [|x ps IH]; intros p Hp; [inversion Hp|].
  destruct (decide (bowl_name p ∈ names ps)) as [Hin|Hout].
  - apply list_elem_of_fmap in Hin as (q & Hq & Hqin).
    destruct (IH q Hqin) as (before & b & after & -> & Hb & Hafter).
    exists (x :: before), b, after. split; [reflexivity|]. split; [congruence | exact Hafter].
  - apply elem_of_cons in Hp as [->|Hp].
    + exists [], x, ps. split; [reflexivity|]. split; [reflexivity|].
      apply Forall_forall. intros q Hq Heq. apply Hout.
      apply list_elem_of_fmap. exists q. split; [congruence | exact Hq].
    + exfalso. apply Hout. apply list_elem_of_fmap. exists p. split; [reflexivity | exact Hp].
Qed.

Lemma add_bowlers_names_covered ps : forall l,
  NoDup (names l) -> (forall p, p ∈ ps -> bowl_name p ∈ names l) ->
  names (add_bowlers l ps) = names l.
Proof.
  induction ps as [|p ps IH]; intros l Hnd Hcov; [reflexivity|]. cbn.
  assert (Hp : bowl_name p ∈ names l) by (apply Hcov; left).
  assert (Hn : names (add_bowler p l) = names l).
  { rewrite (add_bowler_names p l Hnd). destruct (decide _); [reflexivity | contradiction]. }
  rewrite IH; [exact Hn | apply add_bowler_NoDup, Hnd|].
  intros q Hq. rewrite Hn. apply Hcov. right. exact Hq.
Qed.

Lemma same_names_same_list (A : list BowlingEntry) : forall B,
  names A = names B -> NoDup (names A) -> (forall e, e ∈ A -> e ∈ B) -> A = B.
Proof.
  induction A as [|a A IH]; intros [|b B] Hn Hnd Hsub; try discriminate; [reflexivity|].
  rewrite !fmap_cons in Hn. injection Hn as Hab Hn.
  rewrite fmap_cons in Hnd. apply NoDup_cons in Hnd as [Ha Hnd].
  assert (a = b) as ->.
  { pose proof (Hsub a ltac:(left)) as Hin. apply elem_of_cons in Hin as [Hin|Hin];
      [exact Hin|].
    exfalso. apply Ha. rewrite Hn. apply list_elem_of_fmap. eauto. }
  f_equal. apply IH; [exact Hn | exact Hnd|].
  intros e He. pose proof (Hsub e ltac:(right; exact He)) as Hin.
  apply elem_of_cons in Hin as [->|Hin]; [|exact Hin].
  exfalso. apply Ha. apply list_elem_of_fmap. eauto.
Qed.

(** Applying a run of parses a second time changes nothing. *)
Lemma add_bowlers_twice l ps :
  NoDup (names l) -> add_bowlers (add_bowlers l ps) ps = add_bowlers l ps.
Proof.
  intros Hnd. set (L := add_bowlers l ps).
  assert (HL : NoDup (names L)) by apply add_bowlers_NoDup, Hnd.
  assert (Hcov : forall p, p ∈ ps -> bowl_name p ∈ names L).
  { intros p Hp. apply add_bowlers_names_parsed; assumption. }
  symmetry. apply same_names_same_list; [|exact HL|].
  - symmetry. apply add_bowlers_names_covered; assumption.
  - intros e He. destruct (decide (bowl_name e ∈ names ps)) as [Hin|Hout].
    + apply list_elem_of_fmap in Hin as (p & Hp & Hpin).
      destruct (last_entry_of_name ps p Hpin) as (before & b & after & Hps & Hb & Hafter).
      assert (e = b) as ->.
      { destruct (add_bowlers_last_wins l before b after Hnd Hafter) as (_ & _ & Huniq & _).
        apply Huniq; [rewrite <- Hps; exact He | congruence]. }
      destruct (add_bowlers_last_wins L before b after HL Hafter) as (_ & Hin & _).
      rewrite <- Hps in Hin. exact Hin.
    + apply add_bowlers_other; [exact HL | exact He|].
      apply Forall_forall. intros q Hq Heq. apply Hout.
      apply list_elem_of_fmap. exists q. split; [congruence | exact Hq].
Qed.

Lemma unique_bowlers_seen l : forall seen seen',
  (forall x, x ∈ seen <-> x ∈ seen') -> unique_bowlers seen l = unique_bowlers seen' l.
Proof.
  induction l as [|b l IH]; intros seen seen' H; [reflexivity|]. cbn [unique_bowlers].
  assert (E : elem_of_strb (bowl_name b) seen = elem_of_strb (bowl_name b) seen').
  { destruct (elem_of_strb (bowl_name b) seen) eqn:E1, (elem_of_strb (bowl_name b) seen') eqn:E2;
      try reflexivity.
    - apply elem_of_strb_spec, H, elem_of_strb_spec in E1. congruence.
    - apply elem_of_strb_spec, H, elem_of_strb_spec in E2. congruence. }
  rewrite E. destruct (elem_of_strb (bowl_name b) seen').
  - rewrite (IH seen seen' H). reflexivity.
  - rewrite (IH (bowl_name b :: seen) (bowl_name b :: seen')); [reflexivity|].
    intros x. rewrite !elem_of_cons, H. reflexivity.
Qed.

(** The upsert lists the names in the order of their first parses, as the
    duplicate removal would. *)
Lemma add_bowlers_names_first ps : forall l,
  NoDup (names l) ->
  names (add_bowlers l ps) = names l ++ names (unique_bowlers (names l) ps).1.
Proof.
  induction ps as [|p ps IH]; intros l Hnd; [cbn; rewrite app_nil_r; reflexivity|].
  cbn [add_bowlers foldl]. fold (add_bowlers (add_bowler p l) ps).
  rewrite (IH _ (add_bowler_NoDup p l Hnd)), (add_bowler_names p l Hnd).
  cbn [unique_bowlers]. destruct (decide (bowl_name p ∈ names l)) as [Hin|Hout].
  - apply elem_of_strb_spec in Hin. rewrite Hin.
    destruct (unique_bowlers (names l) ps) as [kept dup]. reflexivity.
  - destruct (elem_of_strb (bowl_name p) (names l)) eqn:E.
    { apply elem_of_strb_spec in E. contradiction. }
    rewrite (unique_bowlers_seen ps (names l ++ [bowl_name p]) (bowl_name p :: names l)).
    + destruct (unique_bowlers (bowl_name p :: names l) ps) as [kept dup]. cbn [fst].
      rewrite fmap_cons, <- app_assoc. reflexivity.
    + intros x. split; intros Hx.
      * apply elem_of_app in Hx as [Hx|Hx]; [right; exact Hx|].
        apply list_elem_of_singleton in Hx as ->. left.
      * apply elem_of_app. apply elem_of_cons in Hx as [->|Hx]; [right | left; exact Hx].
        apply list_elem_of_singleton. reflexivity.
Qed.

(** X11: running the row loop of a bowling table a second time on the same
    rows, as happens when overlapping selectors list a table twice, leaves
    the state as the first run left it.  Starting from an empty list, the
    names come in the order of their first parses, the order the duplicate
    removal of the validation pass would give, while each entry is the last
    parse of its name. *)
Theorem reparsing_rows_changes_nothing team rows md :
  is_Some (bowling_stats md !! team) -> bowling_unique md ->
  exec (bowler_rows_loop team rows) (exec (bowler_rows_loop team rows) md)
    = exec (bowler_rows_loop team rows) md
  /\ (bowling_stats md !! team = Some [] ->
      exists l, bowling_stats (exec (bowler_rows_loop team rows) md) !! team = Some l
                /\ names l = names (dedupe_bowlers (omap bowler_of_row rows))
                /\ (forall e, e ∈ l ->
                      exists before after,
                        omap bowler_of_row rows = before ++ e :: after
                        /\ Forall (fun later => bowl_name later <> bowl_name e) after)).
Proof.
  intros [l Hl] Hu. unfold exec. rewrite (bowler_rows_loop_run team rows md l Hl). cbn [fst].
  split.
  - rewrite (bowler_rows_loop_run team rows _ (add_bowlers l (omap bowler_of_row rows))).
    + cbn [fst]. rewrite (add_bowlers_twice l _ (Hu team l Hl)).
      unfold set_bowling_stats; simpl. rewrite insert_insert_eq. reflexivity.
    + unfold set_bowling_stats; simpl. apply lookup_insert_eq.
  - intros Hempty. rewrite Hl in Hempty. injection Hempty as ->.
    eexists. split; [unfold set_bowling_stats; simpl; apply lookup_insert_eq|]. split.
    + rewrite (add_bowlers_names_first _ [] (NoDup_nil_2)), dedupe_bowlers_kept. reflexivity.
    + intros e He.
      assert (Hparsed : e ∈ omap bowler_of_row rows).
      { destruct (add_bowlers_entries _ _ _ He) as [H|H]; [exact H | inversion H]. }
      destruct (last_entry_of_name _ e Hparsed) as (before & b & after & Hps & Hb & Hafter).
      destruct (add_bowlers_last_wins [] before b after (NoDup_nil_2) Hafter)
        as (_ & _ & Hlast & _).
      rewrite <- Hps in Hlast. rewrite (Hlast e He (eq_sym Hb)).
      exists before, after. split; [exact Hps | exact Hafter].
Qed.

Lemma reparsing_rows_changes_nothing_witness :
  let once := exec (bowler_rows_loop "team2" Samples.repeated_rows)
                (bowling_cleared Samples.fresh) in
  exec (bowler_rows_loop "team2" Samples.repeated_rows) once = once
  /\ exists l, bowling_stats once !! "team2" = Some l
               /\ names l = ["Chahar"; "Pathirana"]
               /\ (bowl_overs <$> l) = ["4"; "2"]
               /\ names l = names (dedupe_bowlers (omap bowler_of_row Samples.repeated_rows)).
Proof.
  cbv zeta.
  pose proof (reparsing_rows_changes_nothing "team2" Samples.repeated_rows
                (bowling_cleared Samples.fresh)
                (proj2 (bowling_cleared_slots Samples.fresh))
                (bowling_cleared_unique Samples.fresh)) as [Hagain Hnames].
  split; [exact Hagain|].
  destruct (Hnames eq_refl) as (l & Hl & Hn & _).
  exists l. split; [exact Hl|].
  assert (El : l = [mkBowlingEntry "Chahar" "4" "0" "31" "2" "7.50" None;
                    mkBowlingEntry "Pathirana" "2" "0" "19" "0" "7.50" None]).
  { assert (Hc : bowling_stats
                   (exec (bowler_rows_loop "team2" Samples.repeated_rows)
                      (bowling_cleared Samples.fresh)) !! "team2"
                 = Some [mkBowlingEntry "Chahar" "4" "0" "31" "2" "7.50" None;
                         mkBowlingEntry "Pathirana" "2" "0" "19" "0" "7.50" None])
      by (vm_compute; reflexivity).
    rewrite Hc in Hl. injection Hl as <-. reflexivity. }
  split; [rewrite El; reflexivity|]. split; [rewrite El; reflexivity | exact Hn].
Defined.

(** ** A batting table without inference, and one that fails *)

Lemma cross_check_raises rows all wk :
  count_out all < wk ->
  ~ Forall (fun b => is_Some (py_int (b_runs b))) all ->
  cross_check rows all wk = None.
Proof.
  intros Hlt Hbad. unfold cross_check. cbv zeta.
  destruct (Z.ltb_spec (count_out all) wk) as [_|]; [|lia].
  rewrite highest_scorers_raises; [reflexivity|].
  intros H. apply Hbad. rewrite <- (in_batting_order_perm rows all). exact H.
Qed.

(** X12: when the recorded wickets do not exceed the rows detected as out
    (as when the team has no recorded wickets at all), nothing is inferred
    and nothing can fail: the team's list is the rows of the table in table
    order, each with the dismissal detected for it, whatever the runs cells
    hold. *)
Theorem batting_rows_kept_without_inference bf bs count table md wickets_down :
  let team_key := match count with O => bf | _ => bs end in
  let detected := collect_batsmen (bat_rows table) in
  is_batting_table table = true ->
  yet_to_bat (team_get md team_key t_score "") = false ->
  py_int (team_get md team_key t_wickets "0") = Some wickets_down ->
  wickets_down <= count_out detected ->
  returns (batting_table_body bf bs count table) md
  /\ batting_stats (exec (batting_table_body bf bs count table) md) !! team_key
     = Some (batting_entry <$> detected).
Proof.
  intros team_key detected Htable Hyet Hwk Hle.
  unfold returns, exec. rewrite batting_table_body_run.
  unfold is_batting_table in Htable. rewrite Htable. cbn [negb]. cbv zeta.
  fold team_key. rewrite Hyet, Hwk. fold detected.
  assert (Hcc : cross_check (bat_rows table) detected wickets_down = Some detected).
  { unfold cross_check. cbv zeta.
    destruct (Z.ltb_spec (count_out detected) wickets_down); [lia | reflexivity]. }
  rewrite Hcc. cbn [fst snd]. split; [eexists; reflexivity|].
  destruct (nonempty _ && contains "20" _);
    unfold set_match_info, set_batting_stats; simpl; apply lookup_insert_eq.
Qed.

Lemma batting_rows_kept_without_inference_witness :
  let md := exec (parse_teams_and_scores Samples.five_overs) Samples.fresh in
  let table := Samples.scorecard [Samples.batter "Rohit" "30" None;
                                  Samples.batter "Kishan" "12" (Some "c Dhoni b Chahar");
                                  Samples.batter "Surya" "3" None] in
  returns (batting_table_body "team1" "team2" 0 table) md
  /\ batting_stats (exec (batting_table_body "team1" "team2" 0 table) md) !! "team1"
     = Some (batting_entry <$> collect_batsmen (bat_rows table)).
Proof.
  cbv zeta.
  apply (batting_rows_kept_without_inference "team1" "team2" 0%nat
           (Samples.scorecard [Samples.batter "Rohit" "30" None;
                               Samples.batter "Kishan" "12" (Some "c Dhoni b Chahar");
                               Samples.batter "Surya" "3" None])
           (exec (parse_teams_and_scores Samples.five_overs) Samples.fresh) 1).
  - reflexivity.
  - reflexivity.
  - reflexivity.
  - vm_compute. discriminate.
Defined.

(** X13: when the recorded wickets are not an integer, or dismissals have to
    be inferred and a runs cell is not an integer, the batting extractor
    fails with [ValueError] at this table: the team's list is left empty
    (it was reset just before) and the tables after it are not processed. *)
Theorem batting_table_failure_empties_the_list bf bs count table md :
  let team_key := match count with O => bf | _ => bs end in
  let detected := collect_batsmen (bat_rows table) in
  is_batting_table table = true ->
  yet_to_bat (team_get md team_key t_score "") = false ->
  (py_int (team_get md team_key t_wickets "0") = None
   \/ exists wickets_down,
        py_int (team_get md team_key t_wickets "0") = Some wickets_down
        /\ count_out detected < wickets_down
        /\ ~ Forall (fun b => is_Some (py_int (b_runs b))) detected) ->
  snd (batting_table_body bf bs count table md) = Raise ValueError
  /\ batting_stats (exec (batting_table_body bf bs count table) md) !! team_key = Some []
  /\ (forall rest,
        exec (batting_tables_loop bf bs count (table :: rest)) md
          = exec (batting_table_body bf bs count table) md).
Proof.
  intros team_key detected Htable Hyet Hfail.
  assert (Hrun : batting_table_body bf bs count table md
                 = (set_batting_stats (insert team_key []) md, Raise ValueError)).
  { rewrite batting_table_body_run.
    unfold is_batting_table in Htable. rewrite Htable. cbn [negb]. cbv zeta.
    fold team_key. rewrite Hyet.
    destruct Hfail as [-> | (wk & -> & Hlt & Hbad)]; [reflexivity|].
    fold detected. rewrite (cross_check_raises _ _ _ Hlt Hbad). reflexivity. }
  unfold exec. rewrite Hrun. cbn [fst snd]. split; [reflexivity|]. split.
  - unfold set_batting_stats; simpl. apply lookup_insert_eq.
  - intros rest. cbn [batting_tables_loop]. unfold bind. rewrite Hrun. reflexivity.
Qed.

Lemma batting_table_failure_empties_the_list_witness :
  let md := exec (parse_teams_and_scores Samples.six_overs) Samples.fresh in
  let table := Samples.scorecard [Samples.batter "Rohit" "35" None;
                                  Samples.batter "Kishan" "12" (Some "c Dhoni b Chahar");
                                  Samples.batter "Surya" "5" None;
                                  Samples.batter "Tilak" "-" None] in
  snd (batting_table_body "team1" "team2" 0 table md) = Raise ValueError
  /\ batting_stats (exec (batting_table_body "team1" "team2" 0 table) md) !! "team1" = Some []
  /\ (forall rest,
        exec (batting_tables_loop "team1" "team2" 0 (table :: rest)) md
          = exec (batting_table_body "team1" "team2" 0 table) md).
Proof.
  cbv zeta.
  apply (batting_table_failure_empties_the_list "team1" "team2" 0%nat
           (Samples.scorecard [Samples.batter "Rohit" "35" None;
                               Samples.batter "Kishan" "12" (Some "c Dhoni b Chahar");
                               Samples.batter "Surya" "5" None;
                               Samples.batter "Tilak" "-" None])
           (exec (parse_teams_and_scores Samples.six_overs) Samples.fresh)).
  - reflexivity.
  - reflexivity.
  - right. exists 2. split; [reflexivity|]. split; [reflexivity|].
    intros Hall.
    assert (Hrow : exists b,
               collect_batsmen
                 (bat_rows
                    (Samples.scorecard
                       [Samples.batter "Rohit" "35" None;
                        Samples.batter "Kishan" "12" (Some "c Dhoni b Chahar");
                        Samples.batter "Surya" "5" None;
                        Samples.batter "Tilak" "-" None])) !! 3%nat = Some b
               /\ py_int (b_runs b) = None).
    { eexists. split; [vm_compute; reflexivity | reflexivity]. }
    destruct Hrow as (b & Hb & Hnone).
    destruct (Forall_lookup_1 _ _ _ _ Hall Hb) as [x Hx].
    rewrite Hnone in Hx. discriminate.
Defined.

(** ** The scores the team extractor records *)

(** *** A pattern inside a part of a text *)

Lemma startswith_append p s y : startswith p s = true -> startswith p (s +:+ y) = true.
Proof.
  revert s. induction p as [|a p IH]; intros s H; [destruct (s +:+ y); reflexivity|].
  destruct s as [|b s]; [discriminate|]. norm_app. cbn [startswith] in *.
  apply andb_true_iff in H as [-> H]. rewrite (IH s H). reflexivity.
Qed.

Lemma contains_append p s y : contains p s = true -> contains p (s +:+ y) = true.
Proof.
  induction s as [|c s IH]; intros H.
  - cbn [contains] in H. rewrite orb_false_r in H.
    destruct p; [|discriminate]. destruct ("" +:+ y); reflexivity.
  - norm_app. cbn [contains] in *. apply orb_true_iff in H as [H|H].
    + change (String c (s +:+ y)) with (String c s +:+ y).
      rewrite (startswith_append _ _ y H). reflexivity.
    + rewrite (IH H). apply orb_true_r.
Qed.

Lemma contains_prepend p x s : contains p s = true -> contains p (x +:+ s) = true.
Proof.
  intros H. induction x as [|c x IH]; [exact H|].
  norm_app. cbn [contains]. rewrite IH. apply orb_true_r.
Qed.

Lemma lstrip_while_suffix f s : exists x, s = x +:+ lstrip_while f s.
Proof.
  induction s as [|c s [x IH]]; [exists ""; reflexivity|]. cbn [lstrip_while].
  destruct (f c); [|exists ""; reflexivity].
  exists (String c x). norm_app. rewrite <- IH. reflexivity.
Qed.

Lemma rstrip_while_prefix f s : exists y, s = rstrip_while f s +:+ y.
Proof.
  induction s as [|c s [y IH]]; [exists ""; reflexivity|]. cbn [rstrip_while].
  destruct (rstrip_while f s) as [|b r] eqn:E.
  - destruct (f c).
    + exists (String c s). reflexivity.
    + exists s. reflexivity.
  - exists y. rewrite app_cons. f_equal. exact IH.
Qed.

Lemma contains_strip p s : contains p (lower (strip s)) = true -> contains p (lower s) = true.
Proof.
  unfold strip. intros H.
  destruct (lstrip_while_suffix isspace s) as [x Hx].
  destruct (rstrip_while_prefix isspace (lstrip_while isspace s)) as [y Hy].
  rewrite Hx, Hy, !lower_app. apply contains_prepend, contains_append, H.
Qed.

Lemma split_on_head_prefix sep s : exists y, s = hd "" (split_on sep s) +:+ y.
Proof.
  induction s as [|c s [y IH]]; [exists ""; reflexivity|]. cbn [split_on].
  destruct (Ascii.eqb c sep); [exists (String c s); reflexivity|].
  destruct (split_on sep s) as [|w ws]; cbn [hd] in *.
  - exists s. reflexivity.
  - exists y. norm_app. rewrite <- IH. reflexivity.
Qed.

(** The score [score_fields] computes holds no "yet to bat" unless the text
    does. *)
Lemma score_fields_score text score runs wickets overs innings_complete :
  score_fields text = Ok (score, runs, wickets, overs, innings_complete) ->
  contains "yet to bat" (lower text) = false ->
  contains "yet to bat" (lower score) = false.
Proof.
  unfold score_fields. cbv zeta. intros H Htext.
  assert (score = strip (hd "" (split_on "(" text))) as ->.
  { destruct (if mem_char "/" _ then _ else _) as [[r w]|]; [|discriminate].
    destruct (if nonempty _ then _ else _); [|discriminate].
    injection H as <- _ _ _ _. reflexivity. }
  destruct (contains "yet to bat" (lower (strip (hd "" (split_on "(" text))))) eqn:E;
    [|reflexivity].
  apply contains_strip in E. destruct (split_on_head_prefix "(" text) as [y Hy].
  rewrite Hy, lower_app, (contains_append _ _ _ E) in Htext. discriminate.
Qed.

(** *** The invariant *)

Lemma won_steps_recorded section slot :
  recorded_slot slot -> recorded_slot (won_steps section slot).1.
Proof.
  unfold recorded_slot. intros H. unfold won_steps, won_step.
  destruct (has_won_class (name_elem section)), (has_won_class (score_elem section)),
    slot as [t|]; cbn [fst]; intros t' s Ht' Hs; try discriminate;
    injection Ht' as <-; apply (H t s eq_refl Hs).
Qed.

Lemma slot_step_recorded section old :
  recorded_slot old -> recorded_slot (slot_after section old).
Proof.
  intros Hold. unfold slot_after.
  assert (Hnamed : recorded_slot (named_slot section old)).
  { unfold named_slot. destruct (name_elem section); [|exact Hold].
    intros t s [= <-]. discriminate. }
  assert (Hstep : recorded_slot (slot_step section old).1).
  { unfold slot_step. fold (named_slot section old).
    destruct (score_elem section) as [e|]; [|apply won_steps_recorded, Hnamed].
    cbv zeta. destruct (yet_to_bat (strip (elem_text e))) eqn:Eyet.
    - destruct (named_slot section old) as [t|]; cbn [fst]; [|intros ? ? [=]].
      intros t' s [= <-] [= <-]. left. reflexivity.
    - destruct (score_fields (strip (elem_text e)))
        as [[[[[score runs] wickets] overs] ic]|ex] eqn:Ef; [|exact Hnamed].
      destruct (named_slot section old) as [t|]; cbn [fst]; [|intros ? ? [=]].
      apply won_steps_recorded. intros t' s [= <-] [= <-]. right.
      apply (score_fields_score _ _ _ _ _ _ Ef Eyet). }
  destruct (slot_step section old).1 as [t|]; [exact Hstep | exact Hold].
Qed.

Lemma put_slot_recorded key slot md :
  recorded_scores md -> recorded_slot slot -> recorded_scores (put_slot key slot md).
Proof.
  intros Hmd Hslot. destruct slot as [t|]; [|exact Hmd].
  intros k t' s. unfold put_slot, set_teams; simpl. rewrite lookup_insert_Some.
  intros [[_ <-] | [_ Hk]] Hs; [apply (Hslot t s eq_refl Hs) | apply (Hmd k t' s Hk Hs)].
Qed.

Lemma team_sections_loop_recorded sections : forall i md,
  recorded_scores md -> recorded_scores (exec (team_sections_loop i sections) md).
Proof.
  induction sections as [|section rest IH]; intros i md H; [exact H|].
  assert (Hstep : recorded_scores
            (put_slot (team_key i) (slot_step section (teams md !! team_key i)).1 md)).
  { pose proof (slot_step_recorded section (teams md !! team_key i)
                  (fun t s Ht Hs => H (team_key i) t s Ht Hs)) as Hafter.
    unfold slot_after in Hafter.
    destruct (slot_step section (teams md !! team_key i)).1 as [t|]; [|exact H].
    apply put_slot_recorded; assumption. }
  unfold exec. cbn [team_sections_loop]. unfold bind. rewrite team_section_body_run.
  destruct (slot_step section (teams md !! team_key i)).2; [|exact Hstep].
  apply IH, Hstep.
Qed.

Lemma recorded_scores_same md md' :
  teams md' = teams md -> recorded_scores md -> recorded_scores md'.
Proof. unfold recorded_scores. intros ->. auto. Qed.

Lemma update_recorded now fetched md :
  recorded_scores md -> recorded_scores (exec (update now fetched) md).
Proof.
  intros H. destruct fetched as [soup|]; [|exact H].
  apply (recorded_scores_same
           (exec (parse_teams_and_scores soup) (exec (parse_match_info soup) md)));
    [apply update_teams|].
  unfold parse_teams_and_scores, parse_teams_and_scores_body, exec at 1, try_except.
  cbn [fst]. apply team_sections_loop_recorded.
  apply (recorded_scores_same md); [|exact H].
  apply (parse_match_info_keeps teams soup); reflexivity.
Qed.

Lemma reachable_recorded md : reachable md -> recorded_scores md.
Proof.
  induction 1 as [mid tid|now fetched md Hr IH].
  - intros key t s Hk. cbn in Hk. rewrite lookup_empty in Hk. discriminate.
  - apply update_recorded, IH.
Qed.

(** On a recorded score the handler's comparison with the sentinel and the
    scraper's search for it agree. *)
Lemma recorded_score_tests score :
  recorded_score score ->
  String.eqb (lower score) "yet to bat" = contains "yet to bat" (lower score).
Proof.
  intros [-> | H]; [reflexivity|]. rewrite H.
  destruct (String.eqb_spec (lower score) "yet to bat") as [E|]; [|reflexivity].
  rewrite E in H. discriminate.
Qed.

Lemma has_batted_recorded md key :
  recorded_scores md -> has_batted md key = negb (yet_to_bat (team_get md key t_score "")).
Proof.
  intros H. unfold has_batted, yet_to_bat, team_get. f_equal.
  destruct (teams md !! key) as [t|] eqn:Et; [|reflexivity].
  destruct (t_score t) as [s|] eqn:Es; [|reflexivity].
  apply recorded_score_tests, (H key t s Et Es).
Qed.

Lemma listed_as_batted_recorded md key :
  recorded_scores md ->
  listed_as_batted md key
    = bool_decide (is_Some (teams md !! key))
      && negb (yet_to_bat (team_get md key t_score "")).
Proof.
  intros H. unfold listed_as_batted, yet_to_bat, team_get.
  destruct (teams md !! key) as [t|] eqn:Et; [|reflexivity].
  rewrite bool_decide_eq_true_2 by eauto. cbn [andb]. f_equal.
  destruct (t_score t) as [s|] eqn:Es; [|reflexivity].
  apply recorded_score_tests, (H key t s Et Es).
Qed.

(** *** Batting lists *)

Lemma update_batting_lists now soup md :
  batting_lists_of_batted_teams (exec (update now (Some soup)) md).
Proof.
  intros key l. rewrite update_batting_stats, lookup_fmap.
  unfold team_get. rewrite update_teams.
  set (st := exec (parse_teams_and_scores soup) (exec (parse_match_info soup) md)).
  fold (team_get st key t_score "").
  destruct (yet_to_bat (team_get st key t_score "")) eqn:E; [|reflexivity].
  rewrite (parse_batting_stats_skips key soup st E). discriminate.
Qed.

Lemma reachable_batting_lists md : reachable md -> batting_lists_of_batted_teams md.
Proof.
  induction 1 as [mid tid|now fetched md Hr IH].
  - intros key l Hk. cbn in Hk. rewrite lookup_empty in Hk. discriminate.
  - destruct fetched as [soup|]; [apply update_batting_lists | exact IH].
Qed.

(** ** The scorecard handler on the states of the scraper *)

(** The bowling list of a team whose opponents are yet to bat is empty
    after the bowling extractor, unless the team is the second one and is
    yet to bat itself. *)
Lemma bowled_to_waiting_side soup md key :
  key = "team1" \/ key = "team2" ->
  yet_to_bat (team_get md (opposing_team key) t_score "") = true ->
  (key = "team2" -> yet_to_bat (team_get md "team2" t_score "") = false) ->
  bowling_stats (exec (parse_bowling_stats soup) md) !! key = Some [].
Proof.
  intros Hkey Hopp Hself.
  assert (Hres : exists c, resolve_current_bowling_team md = Some c /\ key <> c).
  { unfold resolve_current_bowling_team, team_score_lower. unfold yet_to_bat in *.
    destruct Hkey as [-> | ->].
    - change (opposing_team "team1") with "team2" in Hopp. rewrite Hopp.
      exists "team2". split; [reflexivity | discriminate].
    - change (opposing_team "team2") with "team1" in Hopp.
      rewrite (Hself eq_refl), Hopp. exists "team1". split; [reflexivity | discriminate]. }
  destruct Hres as (c & Hres & Hne).
  assert (Hsome : is_Some (bowling_stats (exec (parse_bowling_stats soup) md) !! key)).
  { destruct (parse_bowling_stats_inv soup md) as [[H1 H2] _].
    destruct Hkey as [-> | ->]; assumption. }
  destruct Hsome as [l Hl]. rewrite Hl. f_equal.
  destruct (parse_bowling_stats_lists soup md) as [[Hsame _] | Hlists].
  - rewrite Hsame, Hres in Hl.
    rewrite (bowling_tables_loop_other c key (find_bowling_tables soup) 0
               (bowling_cleared md) (bowling_cleared_slots md) Hne) in Hl.
    revert Hl. unfold bowling_cleared, set_bowling_stats; simpl.
    rewrite !lookup_insert_Some, lookup_empty.
    intros [[_ <-] | [_ [[_ <-] | [_ H]]]]; [reflexivity | reflexivity | discriminate].
  - destruct (Hlists key l Hl) as [-> | (_ & _ & _ & Hbat & _)]; [reflexivity|].
    unfold yet_to_bat in Hopp. unfold team_score_lower in Hbat.
    rewrite Hopp in Hbat. discriminate.
Qed.

Lemma reachable_hidden_bowling md :
  reachable md ->
  forall key l,
    bowling_stats md !! key = Some l ->
    yet_to_bat (team_get md (opposing_team key) t_score "") = true ->
    l = []
    \/ (key = "team2" /\ yet_to_bat (team_get md "team2" t_score "") = true).
Proof.
  induction 1 as [mid tid|now fetched md Hr IH]; intros key l Hl Hopp.
  - cbn in Hl. rewrite lookup_empty in Hl. discriminate.
  - destruct fetched as [soup|]; [|exact (IH key l Hl Hopp)].
    set (st := exec (parse_batting_stats soup)
                 (exec (parse_teams_and_scores soup) (exec (parse_match_info soup) md))).
    assert (Ht : teams (exec (update now (Some soup)) md) = teams st).
    { rewrite update_teams. symmetry.
      apply (parse_batting_stats_keeps teams soup); reflexivity. }
    unfold team_get in *. rewrite Ht in *.
    fold (team_get st (opposing_team key) t_score "") in Hopp.
    fold (team_get st "team2" t_score "").
    rewrite update_bowling_stats, lookup_fmap in Hl. fold st in Hl.
    destruct (decide (key = "team1")) as [E1|N1];
      [|destruct (decide (key = "team2")) as [E2|N2]].
    + rewrite (bowled_to_waiting_side soup st key (or_introl E1) Hopp) in Hl.
      * injection Hl as <-. left. reflexivity.
      * intros E2. rewrite E1 in E2. discriminate.
    + destruct (yet_to_bat (team_get st "team2" t_score "")) eqn:Eself;
        [right; split; [exact E2 | reflexivity]|].
      rewrite (bowled_to_waiting_side soup st key (or_intror E2) Hopp (fun _ => Eself)) in Hl.
      injection Hl as <-. left. reflexivity.
    + rewrite (parse_bowling_stats_third key soup st N1 N2) in Hl. discriminate.
Qed.

Lemma scorecard_completed_match_completed md :
  scorecard_completed md = match_completed md.
Proof. reflexivity. Qed.

Lemma resolve_completed md :
  yet_to_bat (team_get md "team1" t_score "") = false ->
  yet_to_bat (team_get md "team2" t_score "") = false ->
  match_completed md = true -> resolve_current_bowling_team md = None.
Proof.
  unfold resolve_current_bowling_team, team_score_lower, yet_to_bat.
  intros -> -> ->. reflexivity.
Qed.

(** X14: on every state the scraper reaches, the scorecard shows each
    batting list of a team that has a slot, and a bowling list it leaves out
    is that of a team whose opponents have no slot, or is empty, or is the
    second team's before either side has batted. *)
Theorem scorecard_leaves_out_no_played_innings md :
  reachable md ->
  (forall key, is_Some (teams md !! key) ->
     sc_batting_stats (get_scorecard md) !! key = batting_stats md !! key)
  /\ (forall key l, bowling_stats md !! key = Some l ->
        sc_bowling_stats (get_scorecard md) !! key = Some l
        \/ teams md !! opposing_team key = None
        \/ l = []
        \/ (key = "team2"
            /\ yet_to_bat (team_get md "team1" t_score "") = true
            /\ yet_to_bat (team_get md "team2" t_score "") = true)).
Proof.
  intros Hr. pose proof (reachable_recorded md Hr) as Hrec. split.
  - intros key Hslot. unfold get_scorecard.
    destruct (if has_batted md "team1" && negb (has_batted md "team2") then _ else _)
      as [[state bat] bowl]. cbn [sc_batting_stats].
    destruct (batting_stats md !! key) as [l|] eqn:El.
    + apply map_lookup_filter_Some_2; [exact El|]. cbn [fst].
      rewrite (listed_as_batted_recorded md key Hrec).
      rewrite bool_decide_eq_true_2 by exact Hslot.
      rewrite (reachable_batting_lists md Hr key l El). reflexivity.
    + apply map_lookup_filter_None_2. left. exact El.
  - intros key l Hl. unfold get_scorecard.
    destruct (if has_batted md "team1" && negb (has_batted md "team2") then _ else _)
      as [[state bat] bowl]. cbn [sc_bowling_stats].
    destruct (teams md !! opposing_team key) as [t|] eqn:Et; [|right; left; reflexivity].
    destruct (yet_to_bat (team_get md (opposing_team key) t_score "")) eqn:Eopp.
    + right. right.
      destruct (reachable_hidden_bowling md Hr key l Hl Eopp) as [-> | [-> Hself]];
        [left; reflexivity|].
      right. split; [reflexivity|]. split; [exact Eopp | exact Hself].
    + left. apply map_lookup_filter_Some_2; [exact Hl|]. cbn [fst].
      rewrite (listed_as_batted_recorded md _ Hrec), Eopp.
      rewrite bool_decide_eq_true_2 by (rewrite Et; eauto). reflexivity.
Qed.

Lemma scorecard_leaves_out_no_played_innings_witness :
  let md := exec (update "2025-04-01 19:52:10" (Some Samples.five_overs)) Samples.fresh in
  is_Some (batting_stats md !! "team1")
  /\ sc_batting_stats (get_scorecard md) !! "team1" = batting_stats md !! "team1".
Proof.
  cbv zeta. split; [eexists; vm_compute; reflexivity|].
  apply (proj1 (scorecard_leaves_out_no_played_innings
                  (exec (update "2025-04-01 19:52:10" (Some Samples.five_overs)) Samples.fresh)
                  (reachable_update _ _ _ (reachable_init _ _))) "team1").
  eexists. vm_compute. reflexivity.
Defined.

(** X15: state and roles of the scorecard against the role resolver of the
    scraper, on the states the scraper reaches.  In the first innings of the
    first team both agree on the bowling team; while the first team is yet
    to bat the scorecard names no team although the resolver does; once both
    have batted the scorecard names the first team as the bowling one, and
    says "completed" exactly when the scraper's completion test holds, in
    which case the resolver designates no team. *)
Theorem scorecard_roles_against_the_resolver md :
  reachable md ->
  let sc := get_scorecard md in
  let waiting1 := yet_to_bat (team_get md "team1" t_score "") in
  let waiting2 := yet_to_bat (team_get md "team2" t_score "") in
  (waiting1 = false -> waiting2 = true ->
     sc_match_state sc = "first_innings" /\ sc_batting_team sc = Some "team1"
     /\ sc_bowling_team sc = Some "team2"
     /\ resolve_current_bowling_team md = Some "team2")
  /\ (waiting1 = true ->
        sc_match_state sc = "in_progress" /\ sc_batting_team sc = None
        /\ sc_bowling_team sc = None
        /\ resolve_current_bowling_team md = Some (if waiting2 then "team2" else "team1"))
  /\ (waiting1 = false -> waiting2 = false ->
        sc_batting_team sc = Some "team2" /\ sc_bowling_team sc = Some "team1"
        /\ sc_match_state sc = (if match_completed md then "completed" else "second_innings")
        /\ (match_completed md = true -> resolve_current_bowling_team md = None)).
Proof.
  intros Hr. cbv zeta. pose proof (reachable_recorded md Hr) as Hrec.
  unfold get_scorecard.
  rewrite !(has_batted_recorded md _ Hrec), scorecard_completed_match_completed.
  split; [|split].
  - intros -> H2. rewrite H2. cbn. repeat split.
    unfold resolve_current_bowling_team, team_score_lower.
    unfold yet_to_bat in H2. rewrite H2. reflexivity.
  - intros H1. rewrite H1. cbn. repeat split.
    unfold resolve_current_bowling_team, team_score_lower.
    unfold yet_to_bat in *. rewrite H1.
    destruct (contains "yet to bat" (lower (team_get md "team2" t_score ""))); reflexivity.
  - intros H1 H2. rewrite H1, H2. cbn.
    destruct (match_completed md) eqn:Ec; cbn; repeat split.
    + intros _. apply resolve_completed; assumption.
    + intros [=].
Qed.

Lemma scorecard_roles_against_the_resolver_witness :
  let md := exec (update "2025-04-01 19:52:10" (Some Samples.five_overs)) Samples.fresh in
  sc_match_state (get_scorecard md) = "first_innings"
  /\ sc_batting_team (get_scorecard md) = Some "team1"
  /\ sc_bowling_team (get_scorecard md) = Some "team2"
  /\ resolve_current_bowling_team md = Some "team2".
Proof.
  cbv zeta.
  apply (proj1 (scorecard_roles_against_the_resolver
                  (exec (update "2025-04-01 19:52:10" (Some Samples.five_overs)) Samples.fresh)
                  (reachable_update _ _ _ (reachable_init _ _)))).
  - vm_compute. reflexivity.
  - vm_compute. reflexivity.
Defined.

(** ** The list of tracked matches *)

Lemma list_matches_entry_key match_id tournament_id md :
  list_matches_entry (match_key match_id tournament_id) md
    = if negb (mem_char "_" match_id) && negb (mem_char "_" tournament_id)
      then Ok (summary_of (match_id, tournament_id, md))
      else Raise ValueError.
Proof.
  unfold list_matches_entry, match_key. rewrite !mem_char_count, !negb_involutive.
  change ("_" +:+ tournament_id) with (String "_" tournament_id).
  pose proof (length_split_on "_" (match_id +:+ String "_" tournament_id)) as Hlen.
  rewrite count_char_app in Hlen. cbn [count_char] in Hlen.
  rewrite Ascii.eqb_refl in Hlen.
  destruct (Nat.eqb_spec (count_char "_" match_id) 0) as [E1|N1];
    [destruct (Nat.eqb_spec (count_char "_" tournament_id) 0) as [E2|N2]|]; cbn [andb].
  - rewrite (split_on_app "_" _ _ E1), (split_on_absent "_" _ E2). reflexivity.
  - destruct (split_on "_" (match_id +:+ String "_" tournament_id))
      as [|a [|b [|c rest]]]; cbn [length] in Hlen; [reflexivity | reflexivity | lia | reflexivity].
  - destruct (split_on "_" (match_id +:+ String "_" tournament_id))
      as [|a [|b [|c rest]]]; cbn [length] in Hlen; [reflexivity | reflexivity | lia | reflexivity].
Qed.

(** X16: [list_matches] takes each key apart at its underscores.  It
    answers with one summary per tracked match, in order and under the
    identifiers the match was tracked with, exactly when no match or
    tournament identifier contains an underscore; one tracked identifier
    with an underscore makes the whole listing fail with [ValueError]. *)
Theorem listing_fails_on_an_underscore_in_an_identifier tracked :
  list_matches (tracked_registry tracked)
    = if forallb (fun entry : string * string * MatchData =>
                    negb (mem_char "_" entry.1.1) && negb (mem_char "_" entry.1.2)) tracked
      then Ok (summary_of <$> tracked)
      else Raise ValueError.
Proof.
  induction tracked as [|[[match_id tournament_id] md] rest IH]; [reflexivity|].
  cbn [tracked_registry fmap list_fmap forallb fst snd].
  change (list_fmap _ _ ?f rest) with (f <$> rest).
  cbn [list_matches]. rewrite list_matches_entry_key.
  fold (tracked_registry rest). rewrite IH.
  destruct (negb (mem_char "_" match_id) && negb (mem_char "_" tournament_id));
    cbn [andb]; [|reflexivity].
  destruct (forallb _ rest); reflexivity.
Qed.

(** ** The name of the snapshot file *)

Lemma sanitize_word name : all_chars word_char (sanitize name) = true.
Proof.
  induction name as [|c name IH]; [reflexivity|]. cbn [sanitize all_chars].
  rewrite IH, andb_true_r. unfold sanitize_char, word_char.
  destruct (isalpha c || isdigit c) eqn:E; [rewrite E; reflexivity | reflexivity].
Qed.

Lemma all_chars_app f a b :
  all_chars f (a +:+ b) = all_chars f a && all_chars f b.
Proof.
  induction a as [|c a IH]; norm_app; [reflexivity|]. cbn [all_chars].
  rewrite IH, andb_assoc. reflexivity.
Qed.

(** X17: the snapshot of [save_match_data] is written directly into the log
    directory whatever the page gave as team names: the file name between
    the directory and the extension is made of letters, digits and
    underscores only, as long as the formatted clock reading is. *)
Theorem snapshot_name_stays_in_the_log_directory md timestamp :
  all_chars word_char timestamp = true ->
  exists base,
    snapshot_filename md timestamp = log_dir +:+ "/" +:+ base +:+ ".json"
    /\ all_chars word_char base = true.
Proof.
  intros Hts.
  exists (sanitize (team_name_or md "team1" "unknown") +:+ "_vs_"
          +:+ sanitize (team_name_or md "team2" "unknown") +:+ "_" +:+ timestamp).
  split.
  - unfold snapshot_filename. cbv zeta. rewrite !app_assoc_str. reflexivity.
  - rewrite !all_chars_app, !sanitize_word, Hts. reflexivity.
Qed.

Lemma snapshot_name_stays_in_the_log_directory_witness :
  exists base,
    snapshot_filename
      (exec (update "2025-04-01 19:52:10" (Some Samples.five_overs)) Samples.fresh)
      "20250401_195210" = log_dir +:+ "/" +:+ base +:+ ".json"
    /\ all_chars word_char base = true.
Proof.
  apply (snapshot_name_stays_in_the_log_directory
           (exec (update "2025-04-01 19:52:10" (Some Samples.five_overs)) Samples.fresh)
           "20250401_195210").
  reflexivity.
Defined.

(** ** The update cycle and the failures of its extractors *)

Lemma parse_teams_and_scores_determined soup x y :
  teams x = teams y ->
  teams (exec (parse_teams_and_scores soup) x) = teams (exec (parse_teams_and_scores soup) y).
Proof.
  unfold parse_teams_and_scores, parse_teams_and_scores_body, exec, try_except. cbn [fst].
  apply team_sections_loop_determined.
Qed.

Lemma update_match_info now soup md :
  match_info (exec (update now (Some soup)) md)
    = match_info (exec (parse_batting_stats soup)
                    (exec (parse_teams_and_scores soup) (exec (parse_match_info soup) md))).
Proof.
  rewrite update_exec.
  change (match_info (exec validate_data (set_last_updated now (exec (parse_html soup) md))))
    with (match_info (exec (parse_html soup) md)).
  rewrite parse_html_exec.
  rewrite (parse_commentary_keeps match_info soup ltac:(reflexivity)).
  apply (parse_bowling_stats_keeps match_info soup). reflexivity.
Qed.

Lemma update_last_updated now soup md :
  last_updated (exec (update now (Some soup)) md) = now.
Proof. rewrite update_exec. reflexivity. Qed.

(** C1 (amended): a failure inside an extractor is caught at that
    extractor's boundary and the cycle goes on from the state the failure
    left: after the cycle every section is what its own extractor left,
    whether or not an extractor before it failed.  The failed extractor's
    section keeps the writes made before the failure; the batting and the
    bowling extractor clear their section first, so what they leave never
    depends on the section's value before the update.  An extractor leaves
    the sections of the others untouched, with one exception: the batting
    extractor also writes the [innings_status] key of the match information,
    for each table it finishes whose team's overs contain "20", and such a
    write stays when a later table fails; it touches no other key of the
    match information. *)
Theorem extractor_failures_are_contained now soup md :
  let info := exec (parse_match_info soup) md in
  let teamed := exec (parse_teams_and_scores soup) info in
  let batted := exec (parse_batting_stats soup) teamed in
  let bowled := exec (parse_bowling_stats soup) batted in
  let final := exec (update now (Some soup)) md in
  (* every boundary returns, with the state its body left, and the cycle
     runs through *)
  (parse_match_info soup md = (exec (parse_match_info_body soup) md, Ok tt)
   /\ parse_teams_and_scores soup md = (exec (parse_teams_and_scores_body soup) md, Ok tt)
   /\ parse_batting_stats soup md = (exec (parse_batting_stats_body soup) md, Ok tt)
   /\ parse_bowling_stats soup md = (exec (parse_bowling_stats_body soup) md, Ok tt)
   /\ parse_commentary soup md = (exec (parse_commentary_body soup) md, Ok tt)
   /\ parse_html soup md = (exec (parse_commentary soup) bowled, Ok tt)
   /\ update now (Some soup) md = (final, Ok (Some final)))
  (* after the cycle every section is what its own extractor left *)
  /\ (teams final = teams (exec (parse_teams_and_scores soup) md)
      /\ batting_stats final
         = (fun batsmen : list BattingEntry => fix_name <$> batsmen) <$> batting_stats batted
      /\ bowling_stats final = bowling_stats bowled
      /\ commentary final = commentary (exec (parse_commentary soup) md)
      /\ match_info final = match_info batted
      /\ last_updated final = now)
  (* what an extractor leaves alone, whether it fails or not *)
  /\ (let md' := exec (parse_match_info soup) md in
      teams md' = teams md /\ batting_stats md' = batting_stats md
      /\ bowling_stats md' = bowling_stats md /\ commentary md' = commentary md)
  /\ (let md' := exec (parse_teams_and_scores soup) md in
      match_info md' = match_info md /\ batting_stats md' = batting_stats md
      /\ bowling_stats md' = bowling_stats md /\ commentary md' = commentary md)
  /\ (let md' := exec (parse_batting_stats soup) md in
      without_innings_status (match_info md') = without_innings_status (match_info md)
      /\ teams md' = teams md /\ bowling_stats md' = bowling_stats md
      /\ commentary md' = commentary md)
  /\ (let md' := exec (parse_bowling_stats soup) md in
      match_info md' = match_info md /\ teams md' = teams md
      /\ batting_stats md' = batting_stats md /\ commentary md' = commentary md)
  /\ (let md' := exec (parse_commentary soup) md in
      match_info md' = match_info md /\ teams md' = teams md
      /\ batting_stats md' = batting_stats md /\ bowling_stats md' = bowling_stats md)
  (* batting and bowling start from a cleared section *)
  /\ exec (parse_batting_stats soup) md =
     exec (parse_batting_stats soup) (set_batting_stats (fun _ => ∅) md)
  /\ exec (parse_bowling_stats soup) md =
     exec (parse_bowling_stats soup) (set_bowling_stats (fun _ => ∅) md)
  (* the write of the batting extractor outside its section stays when a
     later table fails *)
  /\ (let before := exec (parse_teams_and_scores Samples.chase_with_a_dash) Samples.fresh in
      let after := exec (parse_batting_stats Samples.chase_with_a_dash) before in
      snd (parse_batting_stats_body Samples.chase_with_a_dash before) = Raise ValueError
      /\ mi_innings_status (match_info before) = None
      /\ mi_innings_status (match_info after) = Some "team1_complete").
Proof.
  cbv zeta. split; [repeat split|]. split; [|split; [|split; [|split; [|split; [|split]]]]].
  - split; [|split; [|split; [|split; [|split]]]].
    + rewrite update_teams. apply parse_teams_and_scores_determined.
      apply (parse_match_info_keeps teams soup); reflexivity.
    + apply update_batting_stats.
    + rewrite update_bowling_stats_unchanged, parse_html_exec.
      apply (parse_commentary_keeps bowling_stats soup); reflexivity.
    + rewrite update_commentary, parse_commentary_commentary. reflexivity.
    + apply update_match_info.
    + apply update_last_updated.
  - repeat split.
    + apply (parse_match_info_keeps teams soup); reflexivity.
    + apply (parse_match_info_keeps batting_stats soup); reflexivity.
    + apply (parse_match_info_keeps bowling_stats soup); reflexivity.
    + apply (parse_match_info_keeps commentary soup); reflexivity.
  - repeat split.
    + apply (parse_teams_and_scores_keeps match_info soup); reflexivity.
    + apply (parse_teams_and_scores_keeps batting_stats soup); reflexivity.
    + apply (parse_teams_and_scores_keeps bowling_stats soup); reflexivity.
    + apply (parse_teams_and_scores_keeps commentary soup); reflexivity.
  - repeat split.
    + apply (parse_batting_stats_info
               (fun mi => without_innings_status mi = without_innings_status (match_info md)));
        [intros v mi H; exact H | reflexivity].
    + apply (parse_batting_stats_keeps teams soup); reflexivity.
    + apply (parse_batting_stats_keeps bowling_stats soup); reflexivity.
    + apply (parse_batting_stats_keeps commentary soup); reflexivity.
  - repeat split.
    + apply (parse_bowling_stats_keeps match_info soup); reflexivity.
    + apply (parse_bowling_stats_keeps teams soup); reflexivity.
    + apply (parse_bowling_stats_keeps batting_stats soup); reflexivity.
    + apply (parse_bowling_stats_keeps commentary soup); reflexivity.
  - repeat split.
    + apply (parse_commentary_keeps match_info soup); reflexivity.
    + apply (parse_commentary_keeps teams soup); reflexivity.
    + apply (parse_commentary_keeps batting_stats soup); reflexivity.
    + apply (parse_commentary_keeps bowling_stats soup); reflexivity.
  - split; [reflexivity|]. split; [reflexivity|].
    vm_compute. repeat split.
Qed.

(** C2 (as stated, refuted): when the fetch delivers no document the call
    returns [None], not the match state. *)
Lemma failed_fetch_returns_no_state :
  let md := exec (update "2025-04-01 19:52:10" (Some Samples.five_overs)) Samples.fresh in
  update "2025-04-01 19:57:31" None md = (md, Ok None)
  /\ snd (update "2025-04-01 19:57:31" None md) <> Ok (Some md).
Proof. cbv zeta. split; [reflexivity | discriminate]. Qed.

(** C2 (amended): no error raised inside an extractor reaches the caller of
    [update], and the call always returns.  When the fetch delivered a
    document, the cycle runs through the extraction pass, the timestamp and
    the validation, whatever failed inside the extractors, and the value
    returned is the match state it left, stamped with the clock reading;
    when the fetch delivered none, the call returns nothing and leaves the
    state as it was. *)
Theorem update_always_returns now fetched md :
  returns (update now fetched) md
  /\ (forall soup,
        fetched = Some soup ->
        let final := exec validate_data (set_last_updated now (exec (parse_html soup) md)) in
        update now fetched md = (final, Ok (Some final))
        /\ last_updated final = now
        /\ snd (parse_html soup md) = Ok tt
        /\ snd (parse_match_info soup md) = Ok tt
        /\ snd (parse_teams_and_scores soup md) = Ok tt
        /\ snd (parse_batting_stats soup md) = Ok tt
        /\ snd (parse_bowling_stats soup md) = Ok tt
        /\ snd (parse_commentary soup md) = Ok tt)
  /\ (fetched = None -> update now fetched md = (md, Ok None))
  /\ (snd (update now fetched md) = Ok None <-> fetched = None).
Proof.
  split; [destruct fetched; eexists; reflexivity|]. split; [|split].
  - intros soup ->. cbv zeta. repeat split.
  - intros ->. reflexivity.
  - destruct fetched as [soup|]; split; intros H; try reflexivity; discriminate.
Qed.

(** ** The score text of a team, with any overs text *)

Lemma mem_char_cons c x p :
  mem_char c (String x p) = false -> Ascii.eqb x c = false /\ mem_char c p = false.
Proof.
  unfold mem_char. cbn [contains startswith]. rewrite andb_true_r.
  intros H. apply orb_false_iff in H as [H1 H2]. split; [|exact H2].
  rewrite Ascii.eqb_sym. exact H1.
Qed.

(** A text that does not hold a character is found on one side of it. *)
Lemma startswith_sep c p : mem_char c p = false -> forall a b,
  startswith p (a +:+ String c b) = startswith p a.
Proof.
  induction p as [|x p IH]; intros Hc a b; [destruct a; reflexivity|].
  apply mem_char_cons in Hc as [Hx Hp].
  destruct a as [|y a]; norm_app; cbn [startswith].
  - rewrite Hx. reflexivity.
  - rewrite (IH Hp). reflexivity.
Qed.

Lemma contains_sep c p : mem_char c p = false -> p <> "" -> forall a b,
  contains p (a +:+ String c b) = contains p a || contains p b.
Proof.
  intros Hc Hne a b. induction a as [|y a IH]; norm_app.
  - cbn [contains]. destruct p as [|x p]; [contradiction|].
    apply mem_char_cons in Hc as [Hx _]. cbn [startswith]. rewrite Hx. reflexivity.
  - change (String y a +:+ String c b) with (String y (a +:+ String c b)) in *.
    cbn [contains]. rewrite IH.
    change (String y (a +:+ String c b)) with (String y a +:+ String c b).
    rewrite (startswith_sep c p Hc (String y a) b). rewrite orb_assoc. reflexivity.
Qed.

Lemma strip_score_text_any S O :
  nospace S = true ->
  strip (S +:+ " (" +:+ O +:+ ")") =
    (if nonempty S then S +:+ " " else "") +:+ "(" +:+ O +:+ ")".
Proof.
  intros HS. unfold strip.
  assert (Hr : forall s, rstrip_while isspace (s +:+ "(" +:+ O +:+ ")")
                         = s +:+ "(" +:+ O +:+ ")").
  { intros s. rewrite <- !app_assoc_str.
    rewrite (rstrip_while_app isspace ")"); [reflexivity | discriminate]. }
  destruct S as [|c S].
  - norm_app. cbn [lstrip_while].
    change (isspace " ") with true. change (isspace "(") with false. cbn iota.
    apply (Hr "").
  - simpl in HS. apply andb_true_iff in HS as [Hc _]. apply negb_true_iff in Hc.
    cbn [nonempty].
    assert (E1 : lstrip_while isspace (String c S +:+ " (" +:+ O +:+ ")")
                 = (String c S +:+ " ") +:+ "(" +:+ O +:+ ")").
    { rewrite app_cons, lstrip_while_first by exact Hc.
      rewrite <- app_cons, app_assoc_str. reflexivity. }
    rewrite E1. apply Hr.
Qed.

Lemma overs_text_spec O :
  overs_text O = true ->
  count_char "(" O = 0%nat /\ count_char ")" O = 0%nat /\ strip O = O.
Proof.
  unfold overs_text. rewrite !mem_char_count, !negb_involutive.
  intros H. apply andb_true_iff in H as [H Hs]. apply andb_true_iff in H as [H1 H2].
  apply Nat.eqb_eq in H1, H2. apply String.eqb_eq in Hs. auto.
Qed.

(** A score text "S (O)" is not taken for one of a team yet to bat. *)
Lemma score_text_not_yet_to_bat_any S O :
  nospace S = true -> count_char "(" S = 0%nat -> yet_to_bat O = false ->
  yet_to_bat (strip (S +:+ " (" +:+ O +:+ ")")) = false.
Proof.
  intros HS Hparen HO. unfold yet_to_bat in *. rewrite (strip_score_text_any S O HS).
  rewrite lower_app.
  change (lower ("(" +:+ O +:+ ")")) with (String "(" (lower (O +:+ ")"))).
  rewrite (contains_sep "(" "yet to bat" eq_refl ltac:(discriminate)).
  rewrite lower_app. change (lower ")") with (String ")" "").
  rewrite (contains_sep ")" "yet to bat" eq_refl ltac:(discriminate)).
  rewrite HO. change (contains "yet to bat" "") with false. rewrite !orb_false_r.
  destruct (contains "yet to bat" (lower (if nonempty S then S +:+ " " else ""))) eqn:E;
    [|reflexivity].
  exfalso. apply (contains_count " ") in E. rewrite count_space_lower in E.
  destruct S; cbn [nonempty] in E.
  - vm_compute in E. lia.
  - rewrite count_char_app, (nospace_count_space _ HS) in E. vm_compute in E. lia.
Qed.

(** What the extractor computes from "S (O)": the score S and the overs O,
    when the completion test gets through O, and an exception otherwise. *)
Lemma score_fields_any S O :
  nospace S = true -> count_char "(" S = 0%nat -> overs_text O = true ->
  let split := if mem_char "/" S then
                 match split_on "/" S with
                 | [r; w] => Ok (r, w)
                 | _ => Raise ValueError
                 end
               else Ok (S, "0") in
  (overs_readable O ->
     match split with
     | Raise e => score_fields (strip (S +:+ " (" +:+ O +:+ ")")) = Raise e
     | Ok (runs, wickets) =>
         exists innings_complete,
           score_fields (strip (S +:+ " (" +:+ O +:+ ")"))
             = Ok (S, runs, wickets, O, innings_complete)
     end)
  /\ (~ overs_readable O ->
      exists e, score_fields (strip (S +:+ " (" +:+ O +:+ ")")) = Raise e).
Proof.
  intros HS Hparen HO. cbv zeta.
  destruct (overs_text_spec O HO) as (Ho1 & Ho2 & Hos).
  rewrite (strip_score_text_any S O HS). unfold score_fields.
  assert (Hsplit : split_on "(" ((if nonempty S then S +:+ " " else "") +:+ "(" +:+ O +:+ ")")
                   = [if nonempty S then S +:+ " " else ""; O +:+ ")"]).
  { change ("(" +:+ O +:+ ")") with (String "(" (O +:+ ")")).
    rewrite split_on_app.
    - rewrite split_on_absent; [reflexivity|].
      rewrite count_char_app, Ho1. reflexivity.
    - destruct S; [reflexivity|]. cbn [nonempty].
      rewrite count_char_app, Hparen. reflexivity. }
  rewrite Hsplit. cbn [hd].
  assert (Hscore : strip (if nonempty S then S +:+ " " else "") = S).
  { destruct S; [reflexivity|]. cbn [nonempty]. apply strip_nospace_blank, HS. }
  rewrite Hscore.
  assert (Hov : strip (remove_char ")" (O +:+ ")")) = O).
  { rewrite remove_char_app, remove_char_absent by exact Ho2.
    change (remove_char ")" ")") with "". rewrite app_empty_r. exact Hos. }
  rewrite Hov.
  split.
  - intros Hread.
    destruct (if mem_char "/" S then _ else _) as [[runs wickets]|e]; [|reflexivity].
    destruct (nonempty O) eqn:En; [|eexists; reflexivity].
    destruct (contains "20" O) eqn:E20; [eexists; reflexivity|].
    destruct Hread as [-> | [H20 | (tok & rest & Htok & [x Hx])]];
      [discriminate | congruence |].
    rewrite Htok, Hx. eexists. reflexivity.
  - intros Hno.
    destruct (if mem_char "/" S then _ else _) as [[runs wickets]|e]; [|eauto].
    destruct (nonempty O) eqn:En.
    + destruct (contains "20" O) eqn:E20; [exfalso; apply Hno; right; left; exact E20|].
      destruct (split_ws O) as [|tok rest] eqn:Etok; [eauto|].
      destruct (py_float tok) as [x|] eqn:Ex; [|eauto].
      exfalso. apply Hno. right. right. exists tok, rest. split; [exact Etok | eauto].
    + exfalso. apply Hno. left. destruct O; [reflexivity | discriminate].
Qed.

(** One section's body on a score text "S (O)" whose score part S splits
    into the given runs and wickets. *)
Lemma section_score_any i section e md S runs wickets O :
  score_elem section = Some e ->
  nospace S = true -> count_char "(" S = 0%nat ->
  (if mem_char "/" S then
     match split_on "/" S with
     | [r; w] => Ok (r, w)
     | _ => Raise ValueError
     end
   else Ok (S, "0")) = Ok (runs, wickets) ->
  overs_text O = true -> yet_to_bat O = false ->
  elem_text e = S +:+ " (" +:+ O +:+ ")" ->
  (overs_readable O ->
   is_Some (name_elem section) \/ is_Some (teams md !! team_key i) ->
     returns (team_section_body i section) md
     /\ exists t, teams (exec (team_section_body i section) md) !! team_key i = Some t
          /\ t_score t = Some S
          /\ t_runs t = Some runs /\ t_wickets t = Some wickets /\ t_overs t = Some O)
  /\ (~ overs_readable O
      \/ (name_elem section = None /\ teams md !! team_key i = None) ->
      ~ returns (team_section_body i section) md
      /\ teams (exec (team_section_body i section) md) !! team_key i
         = named_slot section (teams md !! team_key i)).
Proof.
  intros He HS Hparen Hsplit HO Hyet Htext.
  pose proof (score_text_not_yet_to_bat_any S O HS Hparen Hyet) as Hnot.
  rewrite <- Htext in Hnot.
  destruct (score_fields_any S O HS Hparen HO) as [Hok Hfail].
  rewrite Hsplit, <- Htext in Hok. rewrite <- Htext in Hfail.
  assert (Hraise : forall ex,
            slot_step section (teams md !! team_key i)
              = (named_slot section (teams md !! team_key i), Raise ex) ->
            ~ returns (team_section_body i section) md
            /\ teams (exec (team_section_body i section) md) !! team_key i
               = named_slot section (teams md !! team_key i)).
  { intros ex Hstep. split.
    - intros Hret. apply team_section_body_returns in Hret.
      rewrite Hstep in Hret. discriminate.
    - rewrite team_section_body_exec, Hstep. cbn [fst].
      destruct (named_slot section (teams md !! team_key i)) as [t|] eqn:En; [reflexivity|].
      unfold named_slot in En. destruct (name_elem section); [discriminate | exact En]. }
  split.
  - intros Hread Hslot. destruct (named_slot_some section _ Hslot) as [t0 Ht0].
    destruct (Hok Hread) as [ic Hf].
    pose proof (slot_step_score section e _ t0 _ He Hnot Hf Ht0) as Hstep.
    destruct (won_steps_fields section (set_score (S, runs, wickets, O, ic) t0))
      as (t' & Hw & _ & Hs & Hr & Hwk & Hovs & _).
    rewrite Hw in Hstep. split.
    + apply team_section_body_returns. rewrite Hstep. reflexivity.
    + exists t'. rewrite team_section_body_exec, Hstep. cbn [fst].
      split; [reflexivity|]. rewrite Hs, Hr, Hwk, Hovs. repeat split.
  - intros Hcase.
    destruct (score_fields (strip (elem_text e))) as [fields|ex] eqn:Ef.
    + destruct Hcase as [Hno | [Hname Hold]];
        [destruct (Hfail Hno) as [ex Hex]; discriminate|].
      apply (Hraise KeyError).
      unfold slot_step. fold (named_slot section (teams md !! team_key i)).
      rewrite He. cbv zeta. rewrite Hnot, Ef.
      unfold named_slot. rewrite Hname, Hold. reflexivity.
    + apply (Hraise ex).
      unfold slot_step. fold (named_slot section (teams md !! team_key i)).
      rewrite He. cbv zeta. rewrite Hnot, Ef. reflexivity.
Qed.

(** C9 (as stated, refuted): the score text "45/1 (DLS)" has the form
    "R/W (O)", yet [float] rejects the overs, the exception ends the team
    loop, and neither runs, wickets nor overs are recorded for the team;
    the second team is not reached. *)
Lemma unreadable_overs_record_nothing :
  let md := exec (parse_teams_and_scores Samples.overs_not_a_number) Samples.fresh in
  (exists t, teams md !! "team1" = Some t
             /\ t_name t = "Mumbai Indians" /\ t_score t = None
             /\ t_runs t = None /\ t_wickets t = None /\ t_overs t = None)
  /\ teams md !! "team2" = None.
Proof.
  cbv zeta. split; [eexists; split; [vm_compute; reflexivity | repeat split]|].
  vm_compute. reflexivity.
Qed.

(** C9 (amended): for a team whose section the team loop gets to, a score
    text "R/W (O)" is recorded as runs R, wickets W and overs O, and a score
    text "R (O)" as runs R, wickets "0" and overs O, for figures R and W
    without blanks, slashes or parentheses and an overs text O without
    parentheses, without blanks at its ends and without "yet to bat",
    provided that the completion test gets through O (O is empty, contains
    "20", or starts with a token [float] accepts) and that the team's slot
    exists when the score is recorded (through the section's name element
    or from an earlier update).  Otherwise the section's body raises, none
    of the fields is recorded (the slot is the one the name element gave,
    or the previous one, if any) and the team loop ends there. *)
Theorem score_text_is_split soup i section e md R W O :
  (i < 2)%nat -> team_sections soup !! i = Some section ->
  earlier_sections_return soup i md ->
  score_elem section = Some e ->
  plain R = true -> plain W = true ->
  overs_text O = true -> yet_to_bat O = false ->
  let old := teams md !! team_key i in
  let slot := teams (exec (parse_teams_and_scores soup) md) !! team_key i in
  let recorded := overs_readable O /\ (is_Some (name_elem section) \/ is_Some old) in
  let failed := ~ overs_readable O \/ (name_elem section = None /\ old = None) in
  (elem_text e = R +:+ "/" +:+ W +:+ " (" +:+ O +:+ ")" ->
   (recorded ->
      returns (team_section_body i section) md
      /\ exists t, slot = Some t
           /\ t_score t = Some (R +:+ "/" +:+ W)
           /\ t_runs t = Some R /\ t_wickets t = Some W /\ t_overs t = Some O)
   /\ (failed ->
       ~ returns (team_section_body i section) md /\ slot = named_slot section old))
  /\ (elem_text e = R +:+ " (" +:+ O +:+ ")" ->
      (recorded ->
         returns (team_section_body i section) md
         /\ exists t, slot = Some t
              /\ t_score t = Some R
              /\ t_runs t = Some R /\ t_wickets t = Some "0" /\ t_overs t = Some O)
      /\ (failed ->
          ~ returns (team_section_body i section) md /\ slot = named_slot section old)).
Proof.
  intros Hi Hsec Hearlier He HR HW HO Hyet. cbv zeta.
  rewrite (parse_teams_and_scores_slot soup md i section Hi Hsec Hearlier).
  split; intros Htext.
  - assert (HS : nospace (R +:+ "/" +:+ W) = true).
    { rewrite !nospace_app, (plain_nospace _ HR), (plain_nospace _ HW). reflexivity. }
    assert (Hparen : count_char "(" (R +:+ "/" +:+ W) = 0%nat).
    { rewrite !count_char_app, (plain_count _ _ HR), (plain_count _ _ HW) by reflexivity.
      reflexivity. }
    destruct (count_slash_form R W HR HW) as [Hmem Hsplit].
    assert (Htext' : elem_text e = (R +:+ "/" +:+ W) +:+ " (" +:+ O +:+ ")").
    { rewrite Htext, !app_assoc_str. reflexivity. }
    assert (Hfields : (if mem_char "/" (R +:+ "/" +:+ W) then
                         match split_on "/" (R +:+ "/" +:+ W) with
                         | [r; w] => Ok (r, w)
                         | _ => Raise ValueError
                         end
                       else Ok (R +:+ "/" +:+ W, "0")) = Ok (R, W)).
    { rewrite Hmem, Hsplit. reflexivity. }
    destruct (section_score_any i section e md (R +:+ "/" +:+ W) R W O
                He HS Hparen Hfields HO Hyet Htext') as [Hgood Hbad].
    split; [intros [Hread Hslot]; apply (Hgood Hread Hslot) | exact Hbad].
  - assert (HS : nospace R = true) by (apply plain_nospace, HR).
    assert (Hparen : count_char "(" R = 0%nat) by (apply plain_count; [exact HR | reflexivity]).
    assert (Hfields : (if mem_char "/" R then
                         match split_on "/" R with
                         | [r; w] => Ok (r, w)
                         | _ => Raise ValueError
                         end
                       else Ok (R, "0")) = Ok (R, "0")).
    { rewrite mem_char_count, (plain_count _ _ HR) by reflexivity. reflexivity. }
    destruct (section_score_any i section e md R R "0" O
                He HS Hparen Hfields HO Hyet Htext) as [Hgood Hbad].
    split; [intros [Hread Hslot]; apply (Hgood Hread Hslot) | exact Hbad].
Qed.

Lemma score_text_is_split_witness :
  (exists t, teams (exec (parse_teams_and_scores
                            (Samples.with_teams
                               [Samples.team "Mumbai Indians" "185/6 (19.5 ov)";
                                Samples.team "Chennai Super Kings" "45 (5.3)"]
                               Samples.blank)) Samples.fresh) !! "team1" = Some t
     /\ t_runs t = Some "185" /\ t_wickets t = Some "6" /\ t_overs t = Some "19.5 ov")
  /\ (exists t, teams (exec (parse_teams_and_scores
                               (Samples.with_teams
                                  [Samples.team "Mumbai Indians" "185/6 (19.5 ov)";
                                   Samples.team "Chennai Super Kings" "45 (5.3)"]
                                  Samples.blank)) Samples.fresh) !! "team2" = Some t
        /\ t_runs t = Some "45" /\ t_wickets t = Some "0" /\ t_overs t = Some "5.3").
Proof.
  set (soup := Samples.with_teams
                 [Samples.team "Mumbai Indians" "185/6 (19.5 ov)";
                  Samples.team "Chennai Super Kings" "45 (5.3)"] Samples.blank).
  split.
  - assert (Hearlier : earlier_sections_return soup 0 Samples.fresh)
      by (intros k s Hk; lia).
    destruct (proj1 (proj1 (score_text_is_split soup 0
                       (Samples.team "Mumbai Indians" "185/6 (19.5 ov)")
                       (mkElem "185/6 (19.5 ov)" []) Samples.fresh "185" "6" "19.5 ov"
                       ltac:(lia) eq_refl Hearlier
                       eq_refl eq_refl eq_refl eq_refl eq_refl) eq_refl)
                (conj (or_intror (or_intror
                         (ex_intro _ "19.5"
                            (ex_intro _ ["ov"] (conj eq_refl (ex_intro _ _ eq_refl))))))
                      (or_introl (ex_intro _ _ eq_refl))))
      as (_ & t & Ht & _ & Hr & Hw & Ho).
    exists t. auto.
  - assert (Hearlier : earlier_sections_return soup 1 Samples.fresh).
    { intros k s Hk Hs. destruct k as [|k]; [|lia].
      injection Hs as <-. exists tt. vm_compute. reflexivity. }
    destruct (proj1 (proj2 (score_text_is_split soup 1
                       (Samples.team "Chennai Super Kings" "45 (5.3)")
                       (mkElem "45 (5.3)" []) Samples.fresh "45" "" "5.3"
                       ltac:(lia) eq_refl Hearlier
                       eq_refl eq_refl eq_refl eq_refl eq_refl) eq_refl)
                (conj (or_intror (or_intror
                         (ex_intro _ "5.3"
                            (ex_intro _ [] (conj eq_refl (ex_intro _ _ eq_refl))))))
                      (or_introl (ex_intro _ _ eq_refl))))
      as (_ & t & Ht & _ & Hr & Hw & Ho).
    exists t. auto.
Defined.
